(** * BLI::SmallVector<T, N>: a shallow embedding of BLI_small_vector.hpp

    The container keeps its elements either in a buffer embedded in the
    object ([m_small_buffer]) or in a block obtained from [std::malloc].
    Which of the two is active is decided by comparing [m_elements] with
    the address of the embedded buffer, and a container whose storage was
    stolen by a move has [m_elements == nullptr].  All of this is pointer
    identity, and assignment may alias its two operands, so the embedding
    keeps an explicit store: container objects by address, heap blocks by
    block number, and the methods are state transformers over that store.

    Element lifetime is recorded twice: every storage slot carries a flag
    saying whether a constructed object lives in it, and every construction,
    assignment, destruction, allocation and release is appended to a log.

    An element address is a base pointer and an index.  An access faults
    when the address holds no storage at all (null, a released block, an
    index outside the block); storage that exists can be read and written
    whether or not a live object is in it, as memory can.

    A [const T &] or [T &&] parameter of [append] is a reference: it is
    read when the method body reads it, after whatever the body has done to
    the storage by then.  An argument that refers to an element of the
    container itself is thus followed through a relocation: afterwards the
    element lies in a released block, and reading it is an invalid access,
    or it lies in the embedded buffer as a destructed object, and reading it
    returns what the storage still holds while the flag of the slot shows
    that no object lives there.

    Modelled: the constructors, the destructor, both assignment operators,
    [reserve], both [append] overloads, [extend], [fill], [size], [empty],
    [remove_last], [remove_and_reorder], [index], [all_equal], [operator[]]
    and every private helper.  Left out: [cbegin], [cend] (aliases of
    [begin] and [end]) and [print_stats] (output only). *)

From Stdlib Require Import ZArith Lia List.
From stdpp Require Import base gmap list.

Local Open Scope Z_scope.

(** ** Machine integers *)

(** [uint] is a 32-bit unsigned integer; arithmetic on it wraps. *)
Definition uint_modulus : Z := 2 ^ 32.
Definition to_uint (z : Z) : Z := z mod uint_modulus.

(** ** Memory *)

(** A pointer to element storage: [nullptr], the embedded buffer of the
    container object at address [o], or heap block [b]. *)
Inductive ptr : Type :=
  | Null
  | Inline (o : nat)
  | Heap (b : nat).

#[global] Instance ptr_eq_dec : EqDecision ptr.
Proof. solve_decision. Defined.

(** What the container does to element storage and to the allocator. *)
Inductive event : Type :=
  | CopyConstruct
  | MoveConstruct
  | CopyAssign
  | MoveAssign
  | Destruct
  | Malloc (b : nat) (n : Z)
  | MallocFailed (n : Z)
  | Free (b : nat).

#[global] Instance event_eq_dec : EqDecision event.
Proof. solve_decision. Defined.

Definition is_construct (e : event) : bool :=
  match e with CopyConstruct | MoveConstruct => true | _ => false end.
Definition is_destruct (e : event) : bool :=
  match e with Destruct => true | _ => false end.

Definition count (p : event -> bool) (l : list event) : nat :=
  length (List.filter p l).

Section SmallVector.

(** The template parameters: the element type, the inline capacity [N]
    (a [uint]), and the value built by [T()]. *)
Context {T : Type}.
Variable N : Z.
Variable T_default : T.

(** One element-sized piece of storage.  [bytes] is what the memory holds
    ([None] for memory never written), [alive] says whether an object has
    been constructed there and not yet destructed. *)
Record slot : Type := Slot { bytes : option T; alive : bool }.

Definition raw : slot := Slot None false.
Definition live (v : T) : slot := Slot (Some v) true.
Definition kill (s : slot) : slot := Slot (bytes s) false.
Definition overwrite (v : T) (s : slot) : slot := Slot (Some v) (alive s).

(** The data members of [SmallVector]. *)
Record vec : Type := Vec {
  m_small_buffer : list slot;
  m_elements : ptr;
  m_size : Z;
  m_capacity : Z
}.

(** The store.  [oom_after] is the allocator's oracle: [None] when
    [std::malloc] never fails, [Some n] when the next [n] calls succeed and
    all later ones return [nullptr]. *)
Record world : Type := World {
  objs : gmap nat vec;
  heap : gmap nat (list slot);
  oom_after : option nat;
  log : list event
}.

Definition empty_world (oom : option nat) : world := World ∅ ∅ oom [].

(** ** The monad of methods *)

(** A call returns normally with a value and a new store, is stopped by a
    failed assertion, or touches memory that holds no storage. *)
Inductive result (A : Type) : Type :=
  | Ok (a : A) (w : world)
  | AssertFailed
  | Fault.
Arguments Ok {A} a w.
Arguments AssertFailed {A}.
Arguments Fault {A}.

Definition M (A : Type) : Type := world -> result A.

Definition ret {A} (a : A) : M A := fun w => Ok a w.
Definition bind {A B} (m : M A) (k : A -> M B) : M B :=
  fun w => match m w with
           | Ok a w' => k a w'
           | AssertFailed => AssertFailed
           | Fault => Fault
           end.

Notation "x <- m ;; k" := (bind m (fun x => k))
  (at level 100, m at next level, right associativity).
Notation "m ;;; k" := (bind m (fun _ => k))
  (at level 100, right associativity).

(** [for (uint i = first; i < first + n; i++) body(i)] *)
Fixpoint for_upto (i : Z) (n : nat) (body : Z -> M unit) : M unit :=
  match n with
  | O => ret tt
  | S n' => body i ;;; for_upto (i + 1) n' body
  end.

(** [for (T value : values) body(value)] *)
Fixpoint for_each {A} (values : list A) (body : A -> M unit) : M unit :=
  match values with
  | [] => ret tt
  | value :: rest => body value ;;; for_each rest body
  end.

(** ** Primitive accesses *)

Definition emit (e : event) : M unit :=
  fun w => Ok tt (World (objs w) (heap w) (oom_after w) (log w ++ [e])).

Definition read_obj (o : nat) : M vec :=
  fun w => match objs w !! o with
           | Some v => Ok v w
           | None => Fault
           end.

Definition write_obj (o : nat) (v : vec) : M unit :=
  fun w => Ok tt (World (<[o := v]> (objs w)) (heap w) (oom_after w) (log w)).

Definition drop_obj (o : nat) : M unit :=
  fun w => Ok tt (World (delete o (objs w)) (heap w) (oom_after w) (log w)).

Definition set_m_elements (o : nat) (p : ptr) : M unit :=
  v <- read_obj o ;;
  write_obj o (Vec (m_small_buffer v) p (m_size v) (m_capacity v)).

Definition set_m_size (o : nat) (n : Z) : M unit :=
  v <- read_obj o ;;
  write_obj o (Vec (m_small_buffer v) (m_elements v) n (m_capacity v)).

Definition set_m_capacity (o : nat) (n : Z) : M unit :=
  v <- read_obj o ;;
  write_obj o (Vec (m_small_buffer v) (m_elements v) (m_size v) n).

Definition set_m_small_buffer (o : nat) (buf : list slot) : M unit :=
  v <- read_obj o ;;
  write_obj o (Vec buf (m_elements v) (m_size v) (m_capacity v)).

(** The slot at [p + i], if that address is storage at all. *)
Definition load (p : ptr) (i : Z) : M slot :=
  fun w =>
    if i <? 0 then Fault else
    match p with
    | Null => Fault
    | Inline o =>
        match objs w !! o with
        | Some v =>
            match m_small_buffer v !! Z.to_nat i with
            | Some s => Ok s w
            | None => Fault
            end
        | None => Fault
        end
    | Heap b =>
        match heap w !! b with
        | Some buf =>
            match buf !! Z.to_nat i with
            | Some s => Ok s w
            | None => Fault
            end
        | None => Fault
        end
    end.

Definition store (p : ptr) (i : Z) (s : slot) : M unit :=
  load p i ;;;
  match p with
  | Null => fun _ => Fault
  | Inline o =>
      v <- read_obj o ;;
      set_m_small_buffer o (<[Z.to_nat i := s]> (m_small_buffer v))
  | Heap b =>
      fun w =>
        match heap w !! b with
        | Some buf =>
            Ok tt (World (objs w) (<[b := <[Z.to_nat i := s]> buf]> (heap w))
                         (oom_after w) (log w))
        | None => Fault
        end
  end.

(** [std::malloc(sizeof(T) * n)]: a block of [n] raw slots, or [nullptr]. *)
Definition malloc (n : Z) : M ptr :=
  fun w =>
    match oom_after w with
    | Some O =>
        Ok Null (World (objs w) (heap w) (Some O) (log w ++ [MallocFailed n]))
    | oom =>
        let b := fresh (dom (heap w)) in
        Ok (Heap b)
           (World (objs w) (<[b := replicate (Z.to_nat n) raw]> (heap w))
                  (Nat.pred <$> oom) (log w ++ [Malloc b n]))
    end.

(** [std::free(p)]: releases a live heap block; [free(nullptr)] does
    nothing; anything else is not a pointer [malloc] returned. *)
Definition free (p : ptr) : M unit :=
  fun w =>
    match p with
    | Null => Ok tt w
    | Inline _ => Fault
    | Heap b =>
        match heap w !! b with
        | Some _ =>
            Ok tt (World (objs w) (delete b (heap w)) (oom_after w)
                         (log w ++ [Free b]))
        | None => Fault
        end
    end.

(** Placement construction, destructor call, read and assignment through a
    pointer to an element. *)
Definition construct_at (kind : event) (p : ptr) (i : Z) (v : T) : M unit :=
  store p i (live v) ;;; emit kind.

Definition destroy_at (p : ptr) (i : Z) : M unit :=
  s <- load p i ;; store p i (kill s) ;;; emit Destruct.

Definition read_value (p : ptr) (i : Z) : M T :=
  s <- load p i ;;
  match bytes s with
  | Some v => ret v
  | None => fun _ => Fault
  end.

Definition assign_at (kind : event) (p : ptr) (i : Z) (v : T) : M unit :=
  s <- load p i ;; store p i (overwrite v s) ;;; emit kind.

(** What a reference parameter ([const T &], [T &&]) is bound to: an
    object outside all element storage (a temporary, a local variable),
    which no method of the container can change and which is therefore given
    by its value, or the element at an address in element storage. *)
Inductive ref : Type :=
  | Temp (value : T)
  | Elem (p : ptr) (i : Z).

(** Reading through a reference. *)
Definition deref (r : ref) : M T :=
  match r with
  | Temp v => ret v
  | Elem p i => read_value p i
  end.

(** [std::uninitialized_copy(first, first + n, dest)]; [kind] is
    [MoveConstruct] when the source range is wrapped in move iterators. *)
Definition uninitialized_copy (kind : event) (first : ptr) (n : Z) (dest : ptr)
  : M unit :=
  for_upto 0 (Z.to_nat n)
    (fun i => v <- read_value first i ;; construct_at kind dest i v).

(** Modelled from the spec: [BLI_assert] comes from BLI_utildefines.h, which
    is not part of the sources at hand; the specification describes it as an
    abort-on-false precondition check that halts execution. *)
Definition BLI_assert (c : bool) : M unit :=
  fun w => if c then Ok tt w else AssertFailed.


(** ** Private helpers of the class *)

Definition small_buffer (this : nat) : ptr := Inline this.

Definition is_small (this : nat) : M bool :=
  v <- read_obj this ;;
  ret (bool_decide (m_elements v = small_buffer this)).

Definition size (this : nat) : M Z :=
  v <- read_obj this ;; ret (m_size v).

Definition empty (this : nat) : M bool :=
  n <- size this ;; ret (n =? 0).

Definition capacity (this : nat) : M Z :=
  v <- read_obj this ;; ret (m_capacity v).

Definition begin_ (this : nat) : M ptr :=
  v <- read_obj this ;; ret (m_elements v).

(** [index >= 0 && index < this->size()], on [uint]. *)
Definition is_index_in_range (this : nat) (index : Z) : M bool :=
  n <- size this ;; ret ((0 <=? index) && (index <? n)).

Definition destruct_element (this : nat) (index : Z) : M unit :=
  p <- begin_ this ;; destroy_at p index.

Definition destruct_elements_but_keep_memory (this : nat) : M unit :=
  n <- size this ;;
  for_upto 0 (Z.to_nat n) (fun i => destruct_element this i).

Definition destruct_elements_and_free_memory (this : nat) : M unit :=
  destruct_elements_but_keep_memory this ;;;
  small <- is_small this ;;
  if small then ret tt
  else
    p <- begin_ this ;;
    if bool_decide (p = Null) then ret tt else free p.

Definition grow (this : nat) (min_capacity : Z) : M unit :=
  cap <- capacity this ;;
  if min_capacity <=? cap then ret tt
  else
    set_m_capacity this min_capacity ;;;
    cap' <- capacity this ;;
    new_array <- malloc cap' ;;
    first <- begin_ this ;;
    n <- size this ;;
    uninitialized_copy MoveConstruct first n new_array ;;;
    destruct_elements_but_keep_memory this ;;;
    small <- is_small this ;;
    (if small then ret tt else p <- begin_ this ;; free p) ;;;
    set_m_elements this new_array.

Definition ensure_space_for_one (this : nat) : M unit :=
  n <- size this ;;
  cap <- capacity this ;;
  if cap <=? n then grow this (Z.max (to_uint (cap * 2)) 1)
  else ret tt.

Definition copy_from_other (this other : nat) : M unit :=
  small <- is_small other ;;
  (if small then set_m_elements this (small_buffer this)
   else
     cap <- capacity other ;;
     p <- malloc cap ;;
     set_m_elements this p) ;;;
  first <- begin_ other ;;
  n <- size other ;;
  dest <- begin_ this ;;
  uninitialized_copy CopyConstruct first n dest ;;;
  cap <- capacity other ;;
  set_m_capacity this cap ;;;
  n' <- size other ;;
  set_m_size this n'.

Definition steal_from_other (this other : nat) : M unit :=
  small <- is_small other ;;
  (if small then
     first <- begin_ other ;;
     n <- size other ;;
     uninitialized_copy MoveConstruct first n (small_buffer this) ;;;
     set_m_elements this (small_buffer this)
   else
     p <- begin_ other ;;
     set_m_elements this p) ;;;
  cap <- capacity other ;;
  set_m_capacity this cap ;;;
  n <- size other ;;
  set_m_size this n ;;;
  set_m_elements other Null.

(** ** Public methods *)

Definition reserve (this : nat) (sz : Z) : M unit := grow this sz.

(** [append(const T &)]: [std::uninitialized_copy(&value, &value + 1,
    this->end())] reads the referenced object after [ensure_space_for_one]
    has run. *)
Definition append (this : nat) (value : ref) : M unit :=
  ensure_space_for_one this ;;;
  p <- begin_ this ;;
  n <- size this ;;
  v <- deref value ;;
  construct_at CopyConstruct p n v ;;;
  n' <- size this ;;
  set_m_size this (to_uint (n' + 1)).

(** [append(T &&)] *)
Definition append_move (this : nat) (value : ref) : M unit :=
  ensure_space_for_one this ;;;
  p <- begin_ this ;;
  n <- size this ;;
  v <- deref value ;;
  construct_at MoveConstruct p n v ;;;
  n' <- size this ;;
  set_m_size this (to_uint (n' + 1)).

(** The range-based [for] evaluates [other.begin()] and [other.end()] once,
    before the first [append], and binds [value] to the element at each
    position of that range in turn. *)
Definition extend (this other : nat) : M unit :=
  first <- begin_ other ;;
  n <- size other ;;
  for_upto 0 (Z.to_nat n) (fun i => append this (Elem first i)).

(** [fill(const T &)]: the loop does nothing but assign [value] to the
    elements, so the referenced object, even when it is one of them, keeps
    its value throughout the call and is given by that value. *)
Definition fill (this : nat) (value : T) : M unit :=
  n <- size this ;;
  for_upto 0 (Z.to_nat n)
    (fun i => p <- begin_ this ;; assign_at CopyAssign p i value).

Definition remove_last (this : nat) : M unit :=
  e <- empty this ;;
  BLI_assert (negb e) ;;;
  n <- size this ;;
  destruct_element this (to_uint (n - 1)) ;;;
  n' <- size this ;;
  set_m_size this (to_uint (n' - 1)).

Definition remove_and_reorder (this : nat) (index : Z) : M unit :=
  ok <- is_index_in_range this index ;;
  BLI_assert ok ;;;
  n <- size this ;;
  (if index <? to_uint (n - 1) then
     p <- begin_ this ;;
     value <- read_value p (n - 1) ;;
     assign_at MoveAssign p index value
   else ret tt) ;;;
  n1 <- size this ;;
  destruct_element this (to_uint (n1 - 1)) ;;;
  n2 <- size this ;;
  set_m_size this (to_uint (n2 - 1)).

(** [operator[](const int index)]: the range check converts the [int] to
    [uint], the access uses the [int]. *)
Definition subscript (this : nat) (index : Z) : M T :=
  ok <- is_index_in_range this (to_uint index) ;;
  BLI_assert ok ;;;
  p <- begin_ this ;;
  read_value p index.

(** ** Constructors, destructor, assignment *)

(** Storage for a new [SmallVector] at address [this], before any
    constructor body runs: the default member initializers give [m_size]
    and [m_capacity]; [m_elements] is not yet set and is modelled as null. *)
Definition new_object (this : nat) : M unit :=
  write_obj this (Vec (replicate (Z.to_nat N) raw) Null 0 N).

Definition SmallVector_default (this : nat) : M unit :=
  new_object this ;;;
  set_m_elements this (small_buffer this) ;;;
  set_m_capacity this N ;;;
  set_m_size this 0.

Definition SmallVector_sized (this : nat) (sz : Z) : M unit :=
  SmallVector_default this ;;;
  reserve this sz ;;;
  for_upto 0 (Z.to_nat sz) (fun _ => append_move this (Temp T_default)).

Definition SmallVector_list (this : nat) (values : list T) : M unit :=
  SmallVector_default this ;;;
  reserve this (to_uint (Z.of_nat (length values))) ;;;
  for_each values (fun value => append this (Temp value)).

Definition SmallVector_copy (this other : nat) : M unit :=
  new_object this ;;;
  copy_from_other this other.

Definition SmallVector_move (this other : nat) : M unit :=
  new_object this ;;;
  steal_from_other this other.

Definition SmallVector_destroy (this : nat) : M unit :=
  p <- begin_ this ;;
  (if bool_decide (p = Null) then ret tt
   else destruct_elements_and_free_memory this) ;;;
  drop_obj this.

Definition assign_copy (this other : nat) : M unit :=
  if bool_decide (this = other) then ret tt
  else
    destruct_elements_and_free_memory this ;;;
    copy_from_other this other.

Definition assign_move (this other : nat) : M unit :=
  destruct_elements_and_free_memory this ;;;
  steal_from_other this other.

(** * Reasoning about runs *)

(** ** What a store shows of a container and of its storage *)

(** The three scalar members of the object at [o]. *)
Definition fields (w : world) (o : nat) : option (ptr * Z * Z) :=
  (fun v => (m_elements v, m_size v, m_capacity v)) <$> objs w !! o.

(** The slots behind a pointer. *)
Definition storage (w : world) (p : ptr) : option (list slot) :=
  match p with
  | Null => None
  | Inline o => m_small_buffer <$> objs w !! o
  | Heap b => heap w !! b
  end.

(** ** Store updates, as the primitives perform them *)

Definition upd_fields (o : nat) (p : ptr) (n c : Z) (w : world) : world :=
  World (alter (fun v => Vec (m_small_buffer v) p n c) o (objs w))
        (heap w) (oom_after w) (log w).

Definition upd_storage (p : ptr) (buf : list slot) (w : world) : world :=
  match p with
  | Null => w
  | Inline o =>
      World (alter (fun v => Vec buf (m_elements v) (m_size v) (m_capacity v))
                   o (objs w))
            (heap w) (oom_after w) (log w)
  | Heap b => World (objs w) (<[b := buf]> (heap w)) (oom_after w) (log w)
  end.

Definition upd_log (es : list event) (w : world) : world :=
  World (objs w) (heap w) (oom_after w) (log w ++ es).

Definition del_block (b : nat) (w : world) : world :=
  World (objs w) (delete b (heap w)) (oom_after w) (log w).

Lemma insert_as_alter (m : gmap nat vec) (o : nat) (v : vec) (f : vec -> vec) :
  m !! o = Some v -> <[o := f v]> m = alter f o m.
Proof.
  intros Hv. apply map_eq. intros j.
  destruct (decide (o = j)) as [->|Hne].
  - rewrite lookup_insert_eq, lookup_alter_eq, Hv. reflexivity.
  - rewrite lookup_insert_ne, lookup_alter_ne by done. reflexivity.
Qed.

(** *** Observations through the updates *)

Lemma fields_upd_fields_eq w o p n c f :
  fields w o = Some f -> fields (upd_fields o p n c w) o = Some (p, n, c).
Proof.
  unfold fields, upd_fields. simpl. rewrite lookup_alter_eq.
  destruct (objs w !! o); simpl; [reflexivity | discriminate].
Qed.

Lemma fields_upd_fields_ne w o o' p n c :
  o <> o' -> fields (upd_fields o p n c w) o' = fields w o'.
Proof.
  intros Hne. unfold fields, upd_fields. simpl.
  rewrite lookup_alter_ne by done. reflexivity.
Qed.

Lemma fields_upd_storage w p buf o :
  fields (upd_storage p buf w) o = fields w o.
Proof.
  unfold fields. destruct p as [|o'|b]; simpl; try reflexivity.
  destruct (decide (o' = o)) as [->|Hne].
  - rewrite lookup_alter_eq. destruct (objs w !! o); reflexivity.
  - rewrite lookup_alter_ne by done. reflexivity.
Qed.

Lemma fields_upd_log w es o : fields (upd_log es w) o = fields w o.
Proof. reflexivity. Qed.

Lemma fields_del_block w b o : fields (del_block b w) o = fields w o.
Proof. reflexivity. Qed.

Lemma storage_upd_fields w o p n c q :
  storage (upd_fields o p n c w) q = storage w q.
Proof.
  destruct q as [|o'|b]; simpl; try reflexivity.
  destruct (decide (o = o')) as [->|Hne].
  - rewrite lookup_alter_eq. destruct (objs w !! o'); reflexivity.
  - rewrite lookup_alter_ne by done. reflexivity.
Qed.

Lemma storage_upd_storage_eq w p buf buf0 :
  storage w p = Some buf0 -> storage (upd_storage p buf w) p = Some buf.
Proof.
  destruct p as [|o|b]; simpl; try discriminate.
  - rewrite lookup_alter_eq. destruct (objs w !! o); simpl; [reflexivity | discriminate].
  - intros _. apply lookup_insert_eq.
Qed.

Lemma storage_upd_storage_ne w p buf q :
  p <> q -> storage (upd_storage p buf w) q = storage w q.
Proof.
  intros Hne. destruct p as [|o|b], q as [|o'|b']; simpl; try reflexivity.
  - rewrite lookup_alter_ne by congruence. reflexivity.
  - rewrite lookup_insert_ne by congruence. reflexivity.
Qed.

Lemma storage_upd_log w es q : storage (upd_log es w) q = storage w q.
Proof. destruct q; reflexivity. Qed.

Lemma storage_del_block_eq w b : storage (del_block b w) (Heap b) = None.
Proof. simpl. apply lookup_delete_eq. Qed.

Lemma storage_del_block_ne w b q :
  q <> Heap b -> storage (del_block b w) q = storage w q.
Proof.
  intros Hne. destruct q as [|o|b']; simpl; try reflexivity.
  rewrite lookup_delete_ne by congruence. reflexivity.
Qed.

Lemma oom_upd_fields w o p n c : oom_after (upd_fields o p n c w) = oom_after w.
Proof. reflexivity. Qed.
Lemma oom_upd_storage w p buf : oom_after (upd_storage p buf w) = oom_after w.
Proof. destruct p; reflexivity. Qed.
Lemma oom_upd_log w es : oom_after (upd_log es w) = oom_after w.
Proof. reflexivity. Qed.
Lemma oom_del_block w b : oom_after (del_block b w) = oom_after w.
Proof. reflexivity. Qed.

Lemma log_upd_fields w o p n c : log (upd_fields o p n c w) = log w.
Proof. reflexivity. Qed.
Lemma log_upd_storage w p buf : log (upd_storage p buf w) = log w.
Proof. destruct p; reflexivity. Qed.
Lemma log_upd_log w es : log (upd_log es w) = log w ++ es.
Proof. reflexivity. Qed.
Lemma log_del_block w b : log (del_block b w) = log w.
Proof. reflexivity. Qed.

Lemma upd_log_nil w : upd_log [] w = w.
Proof. destruct w. unfold upd_log. simpl. rewrite app_nil_r. reflexivity. Qed.

Lemma upd_log_app es1 es2 w : upd_log es2 (upd_log es1 w) = upd_log (es1 ++ es2) w.
Proof. unfold upd_log. simpl. rewrite app_assoc. reflexivity. Qed.

Lemma upd_storage_twice p b1 b2 w :
  upd_storage p b2 (upd_storage p b1 w) = upd_storage p b2 w.
Proof.
  destruct p as [|o|b]; simpl; try reflexivity.
  - f_equal. apply map_eq. intros j. destruct (decide (o = j)) as [->|Hne].
    + rewrite !lookup_alter_eq. destruct (objs w !! j); reflexivity.
    + rewrite !lookup_alter_ne by done. reflexivity.
  - f_equal. apply insert_insert_eq.
Qed.

Lemma upd_storage_log p buf es w :
  upd_storage p buf (upd_log es w) = upd_log es (upd_storage p buf w).
Proof. destruct p; reflexivity. Qed.

(** ** The primitives, as equations *)

Lemma bind_Ok {A B} (m : M A) (k : A -> M B) w a w' :
  m w = Ok a w' -> bind m k w = k a w'.
Proof. intros H. unfold bind. rewrite H. reflexivity. Qed.

Lemma bind_Fault {A B} (m : M A) (k : A -> M B) w :
  m w = Fault -> bind m k w = Fault.
Proof. intros H. unfold bind. rewrite H. reflexivity. Qed.

Lemma fields_lookup w o p n c :
  fields w o = Some (p, n, c) ->
  exists sb, objs w !! o = Some (Vec sb p n c).
Proof.
  unfold fields. destruct (objs w !! o) as [[sb p' n' c']|]; simpl; [|discriminate].
  intros [= -> -> ->]. eauto.
Qed.

Lemma begin_ok w o p n c : fields w o = Some (p, n, c) -> begin_ o w = Ok p w.
Proof.
  intros [sb H]%fields_lookup. unfold begin_, bind, read_obj. rewrite H. reflexivity.
Qed.

Lemma size_ok w o p n c : fields w o = Some (p, n, c) -> size o w = Ok n w.
Proof.
  intros [sb H]%fields_lookup. unfold size, bind, read_obj. rewrite H. reflexivity.
Qed.

Lemma capacity_ok w o p n c : fields w o = Some (p, n, c) -> capacity o w = Ok c w.
Proof.
  intros [sb H]%fields_lookup. unfold capacity, bind, read_obj. rewrite H. reflexivity.
Qed.

Lemma is_small_ok w o p n c :
  fields w o = Some (p, n, c) ->
  is_small o w = Ok (bool_decide (p = Inline o)) w.
Proof.
  intros [sb H]%fields_lookup. unfold is_small, bind, read_obj. rewrite H. reflexivity.
Qed.

Lemma set_m_elements_ok w o p n c p' :
  fields w o = Some (p, n, c) ->
  set_m_elements o p' w = Ok tt (upd_fields o p' n c w).
Proof.
  intros [sb H]%fields_lookup.
  unfold set_m_elements, bind, read_obj, write_obj, upd_fields. rewrite H. simpl.
  do 2 f_equal. exact (insert_as_alter _ _ _ (fun v => Vec (m_small_buffer v) p' n c) H).
Qed.

Lemma set_m_size_ok w o p n c n' :
  fields w o = Some (p, n, c) ->
  set_m_size o n' w = Ok tt (upd_fields o p n' c w).
Proof.
  intros [sb H]%fields_lookup.
  unfold set_m_size, bind, read_obj, write_obj, upd_fields. rewrite H. simpl.
  do 2 f_equal. exact (insert_as_alter _ _ _ (fun v => Vec (m_small_buffer v) p n' c) H).
Qed.

Lemma set_m_capacity_ok w o p n c c' :
  fields w o = Some (p, n, c) ->
  set_m_capacity o c' w = Ok tt (upd_fields o p n c' w).
Proof.
  intros [sb H]%fields_lookup.
  unfold set_m_capacity, bind, read_obj, write_obj, upd_fields. rewrite H. simpl.
  do 2 f_equal. exact (insert_as_alter _ _ _ (fun v => Vec (m_small_buffer v) p n c') H).
Qed.

Lemma load_ok w p i buf s :
  storage w p = Some buf -> 0 <= i -> buf !! Z.to_nat i = Some s ->
  load p i w = Ok s w.
Proof.
  intros Hst Hi Hs. unfold load.
  destruct (Z.ltb_spec i 0) as [|_]; [lia|].
  destruct p as [|o|b]; simpl in Hst; [discriminate| |].
  - destruct (objs w !! o) as [v|]; simpl in Hst; [|discriminate].
    injection Hst as ->. rewrite Hs. reflexivity.
  - rewrite Hst, Hs. reflexivity.
Qed.

Lemma load_null w i : load Null i w = Fault.
Proof. unfold load. destruct (i <? 0); reflexivity. Qed.

Lemma load_out_of_range w p i buf :
  storage w p = Some buf -> (length buf <= Z.to_nat i)%nat -> load p i w = Fault.
Proof.
  intros Hst Hi. unfold load. destruct (i <? 0); [reflexivity|].
  apply lookup_ge_None_2 in Hi.
  destruct p as [|o|b]; simpl in Hst; [discriminate| |].
  - destruct (objs w !! o) as [v|]; simpl in Hst; [|discriminate].
    injection Hst as ->. rewrite Hi. reflexivity.
  - rewrite Hst, Hi. reflexivity.
Qed.

Lemma store_ok w p i buf s :
  storage w p = Some buf -> 0 <= i -> (Z.to_nat i < length buf)%nat ->
  store p i s w = Ok tt (upd_storage p (<[Z.to_nat i := s]> buf) w).
Proof.
  intros Hst Hi Hlt.
  destruct (lookup_lt_is_Some_2 buf (Z.to_nat i) Hlt) as [s0 Hs0].
  unfold store. rewrite (bind_Ok _ _ _ _ _ (load_ok _ _ _ _ _ Hst Hi Hs0)).
  destruct p as [|o|b]; simpl in Hst; [discriminate| |].
  - destruct (objs w !! o) as [v|] eqn:Hv; simpl in Hst; [|discriminate].
    injection Hst as <-.
    unfold set_m_small_buffer, bind, read_obj, write_obj. rewrite Hv. simpl. rewrite Hv.
    do 2 f_equal.
    exact (insert_as_alter _ _ _
      (fun v' => Vec (<[Z.to_nat i := s]> (m_small_buffer v))
                     (m_elements v') (m_size v') (m_capacity v')) Hv).
  - rewrite Hst. reflexivity.
Qed.

Lemma construct_at_ok w kind p i buf v :
  storage w p = Some buf -> 0 <= i -> (Z.to_nat i < length buf)%nat ->
  construct_at kind p i v w
  = Ok tt (upd_log [kind] (upd_storage p (<[Z.to_nat i := live v]> buf) w)).
Proof.
  intros Hst Hi Hlt. unfold construct_at.
  rewrite (bind_Ok _ _ _ _ _ (store_ok _ _ _ _ _ Hst Hi Hlt)). reflexivity.
Qed.

Lemma destroy_at_ok w p i buf s :
  storage w p = Some buf -> 0 <= i -> buf !! Z.to_nat i = Some s ->
  destroy_at p i w
  = Ok tt (upd_log [Destruct] (upd_storage p (<[Z.to_nat i := kill s]> buf) w)).
Proof.
  intros Hst Hi Hs. unfold destroy_at.
  rewrite (bind_Ok _ _ _ _ _ (load_ok _ _ _ _ _ Hst Hi Hs)).
  rewrite (bind_Ok _ _ _ _ _ (store_ok _ _ _ _ _ Hst Hi (lookup_lt_Some _ _ _ Hs))).
  reflexivity.
Qed.

Lemma read_value_ok w p i buf s v :
  storage w p = Some buf -> 0 <= i -> buf !! Z.to_nat i = Some s ->
  bytes s = Some v ->
  read_value p i w = Ok v w.
Proof.
  intros Hst Hi Hs Hv. unfold read_value.
  rewrite (bind_Ok _ _ _ _ _ (load_ok _ _ _ _ _ Hst Hi Hs)). rewrite Hv. reflexivity.
Qed.

Lemma assign_at_ok w kind p i buf s v :
  storage w p = Some buf -> 0 <= i -> buf !! Z.to_nat i = Some s ->
  assign_at kind p i v w
  = Ok tt (upd_log [kind] (upd_storage p (<[Z.to_nat i := overwrite v s]> buf) w)).
Proof.
  intros Hst Hi Hs. unfold assign_at.
  rewrite (bind_Ok _ _ _ _ _ (load_ok _ _ _ _ _ Hst Hi Hs)).
  rewrite (bind_Ok _ _ _ _ _ (store_ok _ _ _ _ _ Hst Hi (lookup_lt_Some _ _ _ Hs))).
  reflexivity.
Qed.

(** ** Loops *)

(** A counted loop whose [j]-th iteration leads from store [W j] to store
    [W (S j)] leads from [W i] to [W (i + k)]. *)
Lemma for_upto_from (W : nat -> world) (body : Z -> M unit) (k i : nat) :
  (forall j, (i <= j < i + k)%nat -> body (Z.of_nat j) (W j) = Ok tt (W (S j))) ->
  for_upto (Z.of_nat i) k body (W i) = Ok tt (W (i + k)%nat).
Proof.
  revert i. induction k as [|k IH]; intros i Hstep; simpl.
  - rewrite Nat.add_0_r. reflexivity.
  - rewrite (bind_Ok _ _ _ _ _ (Hstep i ltac:(lia))).
    replace (Z.of_nat i + 1) with (Z.of_nat (S i)) by lia.
    rewrite IH by (intros j Hj; apply Hstep; lia).
    f_equal. f_equal. lia.
Qed.

Lemma for_upto_ok (W : nat -> world) (body : Z -> M unit) (n : nat) :
  (forall j, (j < n)%nat -> body (Z.of_nat j) (W j) = Ok tt (W (S j))) ->
  for_upto 0 n body (W 0%nat) = Ok tt (W n).
Proof.
  intros Hstep. apply (for_upto_from W body n 0). intros j Hj. apply Hstep. lia.
Qed.

(** Overwriting position [j] of a buffer whose first [j] slots were already
    replaced by those of [news]. *)
Lemma insert_prefix_step {A} (news d : list A) j x :
  news !! j = Some x -> (j < length d)%nat ->
  <[j := x]> (take j news ++ drop j d) = take (S j) news ++ drop (S j) d.
Proof.
  intros Hx Hj.
  assert (Hlen : length (take j news) = j).
  { rewrite length_take. apply lookup_lt_Some in Hx. lia. }
  destruct (lookup_lt_is_Some_2 d j Hj) as [y Hy].
  rewrite (drop_S d y j Hy).
  rewrite (take_S_r news j x Hx).
  rewrite <- (app_assoc _ [x]). simpl.
  rewrite insert_app_r_alt by lia. rewrite Hlen, Nat.sub_diag. reflexivity.
Qed.

Lemma lookup_prefix_rest {A} (news d : list A) j :
  (j <= length news)%nat ->
  (take j news ++ drop j d) !! j = d !! j.
Proof.
  intros Hj.
  assert (Hlen : length (take j news) = j) by (rewrite length_take; lia).
  rewrite lookup_app_r by lia. rewrite Hlen, Nat.sub_diag, lookup_drop.
  f_equal. lia.
Qed.

Lemma length_prefix_rest {A} (news d : list A) j :
  (j <= length news)%nat -> (j <= length d)%nat ->
  length (take j news ++ drop j d) = length d.
Proof. intros. rewrite length_app, length_take, length_drop. lia. Qed.

(** The store after a loop has rewritten the first [j] slots behind [p],
    slot by slot, to those of [news], logging [kind] each time. *)
Definition rewritten (kind : event) (p : ptr) (news d : list slot)
    (w : world) (j : nat) : world :=
  upd_log (replicate j kind) (upd_storage p (take j news ++ drop j d) w).

Lemma upd_storage_same p d w : storage w p = Some d -> upd_storage p d w = w.
Proof.
  intros Hst. destruct w as [ob hp oo lg].
  destruct p as [|o|b]; simpl in *; try reflexivity.
  - f_equal. apply map_eq. intros j. destruct (decide (o = j)) as [->|Hne].
    + rewrite lookup_alter_eq. destruct (ob !! j) as [[sb p n c]|]; simpl in *; [|done].
      injection Hst as ->. reflexivity.
    + rewrite lookup_alter_ne by done. reflexivity.
  - f_equal. apply insert_id. exact Hst.
Qed.

Lemma rewritten_zero kind p news d w :
  storage w p = Some d -> rewritten kind p news d w 0 = w.
Proof.
  intros Hst. unfold rewritten. simpl. rewrite drop_0, upd_log_nil.
  apply upd_storage_same. exact Hst.
Qed.

Lemma rewritten_step kind p news d w j x :
  news !! j = Some x -> (j < length d)%nat ->
  upd_log [kind]
    (upd_storage p (<[j := x]> (take j news ++ drop j d))
       (rewritten kind p news d w j))
  = rewritten kind p news d w (S j).
Proof.
  intros Hv Hj. unfold rewritten.
  rewrite upd_storage_log, upd_storage_twice, upd_log_app.
  rewrite insert_prefix_step by done.
  f_equal. change [kind] with (replicate 1 kind).
  rewrite <- replicate_add. f_equal. lia.
Qed.

Lemma storage_rewritten_eq kind p news d w j :
  storage w p = Some d ->
  storage (rewritten kind p news d w j) p = Some (take j news ++ drop j d).
Proof.
  intros Hst. unfold rewritten. rewrite storage_upd_log.
  eapply storage_upd_storage_eq. exact Hst.
Qed.

Lemma storage_rewritten_ne kind p news d w j q :
  p <> q -> storage (rewritten kind p news d w j) q = storage w q.
Proof.
  intros Hne. unfold rewritten. rewrite storage_upd_log.
  apply storage_upd_storage_ne. exact Hne.
Qed.

Lemma fields_rewritten kind p news d w j o :
  fields (rewritten kind p news d w j) o = fields w o.
Proof. unfold rewritten. rewrite fields_upd_log. apply fields_upd_storage. Qed.

Lemma oom_rewritten kind p news d w j :
  oom_after (rewritten kind p news d w j) = oom_after w.
Proof. unfold rewritten. rewrite oom_upd_log. apply oom_upd_storage. Qed.

Lemma log_rewritten kind p news d w j :
  log (rewritten kind p news d w j) = log w ++ replicate j kind.
Proof. unfold rewritten. rewrite log_upd_log, log_upd_storage. reflexivity. Qed.

(** A loop each of whose iterations rewrites one slot. *)
Lemma rewrite_loop kind p news d w (body : Z -> M unit) (n : nat) :
  storage w p = Some d -> (n <= length news)%nat -> (n <= length d)%nat ->
  (forall j x, (j < n)%nat -> news !! j = Some x ->
     body (Z.of_nat j) (rewritten kind p news d w j)
     = Ok tt (upd_log [kind]
                (upd_storage p (<[j := x]> (take j news ++ drop j d))
                   (rewritten kind p news d w j)))) ->
  for_upto 0 n body w = Ok tt (rewritten kind p news d w n).
Proof.
  intros Hst Hn Hd Hbody.
  rewrite <- (rewritten_zero kind p news d w Hst) at 1.
  apply for_upto_ok. intros j Hj.
  destruct (lookup_lt_is_Some_2 news j ltac:(lia)) as [x Hx].
  rewrite (Hbody j x Hj Hx). rewrite rewritten_step by (done || lia). reflexivity.
Qed.

(** [uninitialized_copy] from [first] to [dest]: the [n] source slots hold
    the values [vs]; the two ranges are either in different storage or the
    very same range. *)
Lemma uninitialized_copy_ok kind first dest w sbuf dbuf vs :
  storage w first = Some sbuf ->
  storage w dest = Some dbuf ->
  (first = dest -> sbuf = dbuf) ->
  (forall j v, vs !! j = Some v ->
     exists s, sbuf !! j = Some s /\ bytes s = Some v) ->
  (length vs <= length dbuf)%nat ->
  uninitialized_copy kind first (Z.of_nat (length vs)) dest w
  = Ok tt (rewritten kind dest (live <$> vs) dbuf w (length vs)).
Proof.
  intros Hsrc Hdst Hsame Hvals Hlen. unfold uninitialized_copy.
  rewrite Nat2Z.id.
  apply rewrite_loop; [exact Hdst|rewrite length_fmap; lia|lia|].
  intros j x Hj Hx.
  rewrite list_lookup_fmap in Hx.
  destruct (vs !! j) as [v|] eqn:Hv; simpl in Hx; [|discriminate].
  injection Hx as <-.
  destruct (Hvals j v Hv) as (s & Hs & Hb).
  set (W := rewritten kind dest (live <$> vs) dbuf w j).
  assert (Hread : read_value first (Z.of_nat j) W = Ok v W).
  { destruct (decide (first = dest)) as [Heq|Hne].
    - subst first. rewrite (Hsame eq_refl) in Hs.
      eapply read_value_ok; [apply storage_rewritten_eq; exact Hdst|lia| |exact Hb].
      rewrite Nat2Z.id, lookup_prefix_rest by (rewrite length_fmap; lia). exact Hs.
    - eapply read_value_ok; [|lia| |exact Hb].
      + unfold W. rewrite storage_rewritten_ne by congruence. exact Hsrc.
      + rewrite Nat2Z.id. exact Hs. }
  rewrite (bind_Ok _ _ _ _ _ Hread).
  erewrite construct_at_ok; [|apply storage_rewritten_eq; exact Hdst|lia|].
  - rewrite Nat2Z.id. reflexivity.
  - rewrite Nat2Z.id, length_prefix_rest by (rewrite ?length_fmap; lia). lia.
Qed.

(** The destructor loop over the [n] live elements of the object at [o]. *)
Lemma destruct_elements_but_keep_memory_ok w o p n c buf :
  fields w o = Some (p, Z.of_nat n, c) ->
  storage w p = Some buf -> (n <= length buf)%nat ->
  destruct_elements_but_keep_memory o w
  = Ok tt (rewritten Destruct p (kill <$> buf) buf w n).
Proof.
  intros Hf Hst Hn. unfold destruct_elements_but_keep_memory.
  rewrite (bind_Ok _ _ _ _ _ (size_ok _ _ _ _ _ Hf)). rewrite Nat2Z.id.
  apply rewrite_loop; [exact Hst|rewrite length_fmap; lia|lia|].
  intros j x Hj Hx.
  rewrite list_lookup_fmap in Hx.
  destruct (buf !! j) as [s|] eqn:Hs; simpl in Hx; [|discriminate].
  injection Hx as <-.
  unfold destruct_element.
  erewrite bind_Ok; [|eapply begin_ok; rewrite fields_rewritten; exact Hf].
  erewrite destroy_at_ok; [|apply storage_rewritten_eq; exact Hst|lia|].
  - rewrite Nat2Z.id. reflexivity.
  - rewrite Nat2Z.id, lookup_prefix_rest by (rewrite length_fmap; lia). exact Hs.
Qed.

(** ** The allocator *)

Lemma fresh_block_unused w : storage w (Heap (fresh (dom (heap w)))) = None.
Proof. simpl. apply not_elem_of_dom. apply is_fresh. Qed.

Lemma malloc_ok w n :
  oom_after w = None ->
  malloc n w
  = Ok (Heap (fresh (dom (heap w))))
       (upd_log [Malloc (fresh (dom (heap w))) n]
          (upd_storage (Heap (fresh (dom (heap w))))
             (replicate (Z.to_nat n) raw) w)).
Proof.
  intros Hoom. unfold malloc. rewrite Hoom. unfold upd_log, upd_storage. simpl.
  rewrite Hoom. reflexivity.
Qed.

Lemma malloc_failed w n :
  oom_after w = Some O ->
  malloc n w = Ok Null (upd_log [MallocFailed n] w).
Proof.
  intros Hoom. unfold malloc, upd_log. rewrite Hoom. reflexivity.
Qed.

Lemma free_ok w b buf :
  storage w (Heap b) = Some buf ->
  free (Heap b) w = Ok tt (upd_log [Free b] (del_block b w)).
Proof. simpl. intros Hst. unfold free. rewrite Hst. reflexivity. Qed.

(** ** Well-formed containers *)

Definition dead (s : slot) : Prop := alive s = false.

(** [buf] holds exactly the live elements [l], followed by slots without
    a live object, [cap] slots in all. *)
Definition holds (buf : list slot) (l : list T) (cap : Z) : Prop :=
  exists rest,
    buf = (live <$> l) ++ rest /\ Forall dead rest /\ Z.of_nat (length buf) = cap.

(** The embedded buffer of the object at [o] has [N] slots, and no object
    lives in it while the elements are kept elsewhere. *)
Definition own_buffer (w : world) (o : nat) (p : ptr) : Prop :=
  exists sb,
    storage w (Inline o) = Some sb /\ Z.of_nat (length sb) = N /\
    (p <> Inline o -> Forall dead sb).

(** The object at [o] is a container in a valid, not moved-from state: its
    elements are [l], its capacity is [cap], its storage pointer is [p],
    which is either its own embedded buffer (and then [cap = N]) or a live
    heap block (and then [cap > N]). *)
Definition valid (w : world) (o : nat) (l : list T) (cap : Z) (p : ptr) : Prop :=
  fields w o = Some (p, Z.of_nat (length l), cap) /\
  (exists buf, storage w p = Some buf /\ holds buf l cap) /\
  own_buffer w o p /\
  ((p = Inline o /\ cap = N) \/ ((exists b, p = Heap b) /\ N < cap)) /\
  cap < uint_modulus.

(** What a call on the object at [o], whose storage is at [p], leaves alone:
    the members of every other object and every other piece of storage. *)
Definition frame (w w' : world) (o : nat) (p : ptr) : Prop :=
  (forall o', o' <> o -> fields w' o' = fields w o') /\
  (forall q buf, q <> p -> q <> Inline o ->
     storage w q = Some buf -> storage w' q = Some buf).

Lemma frame_refl w o p : frame w w o p.
Proof. split; auto. Qed.

Lemma valid_frame w w' o p o2 l2 c2 p2 :
  frame w w' o p -> o2 <> o -> p2 <> p -> Inline o2 <> p ->
  valid w o2 l2 c2 p2 -> valid w' o2 l2 c2 p2.
Proof.
  intros [Hfl Hst] Ho Hp Hp'
         (Hf & (buf & Hb & Hh) & (sb & Hsb & Hlen & Hsd) & Hmode & Hcap).
  assert (Hp2 : p2 <> Inline o).
  { destruct Hmode as [[-> _]|[[b ->] _]]; congruence. }
  split; [|split; [|split; [|split]]].
  - rewrite Hfl by done. exact Hf.
  - exists buf. split; [|exact Hh]. apply Hst; done.
  - exists sb. split; [|split; [exact Hlen|exact Hsd]]. apply Hst; congruence.
  - exact Hmode.
  - exact Hcap.
Qed.

Lemma valid_length w o l cap p : valid w o l cap p -> Z.of_nat (length l) <= cap.
Proof.
  intros (_ & (buf & _ & rest & -> & _ & Hlen) & _).
  rewrite length_app, length_fmap in Hlen. lia.
Qed.

Lemma valid_N w o l cap p : valid w o l cap p -> 0 <= N <= cap.
Proof.
  intros (_ & _ & (sb & _ & Hlen & _) & Hmode & _).
  destruct Hmode as [[_ ->]|[_ ?]]; lia.
Qed.

Lemma holds_lookup buf l cap j v :
  holds buf l cap -> l !! j = Some v ->
  exists s, buf !! j = Some s /\ bytes s = Some v.
Proof.
  intros (rest & -> & _ & _) Hv. exists (live v). split; [|reflexivity].
  rewrite lookup_app_l by (rewrite length_fmap; eapply lookup_lt_Some; eauto).
  rewrite list_lookup_fmap, Hv. reflexivity.
Qed.

Lemma holds_length buf l cap : holds buf l cap -> Z.of_nat (length buf) = cap.
Proof. intros (rest & _ & _ & H). exact H. Qed.

Lemma holds_size buf l cap : holds buf l cap -> (length l <= length buf)%nat.
Proof. intros (rest & -> & _ & _). rewrite length_app, length_fmap. lia. Qed.

Lemma own_buffer_ext w W o p :
  storage W (Inline o) = storage w (Inline o) -> own_buffer w o p -> own_buffer W o p.
Proof. intros Heq (sb & Hsb & H). exists sb. rewrite Heq. split; assumption. Qed.

(** Rewriting slots of the element storage keeps the embedded buffer in
    shape, whether or not it is that storage. *)
Lemma own_buffer_upd_storage w o p buf buf' :
  own_buffer w o p -> storage w p = Some buf -> length buf' = length buf ->
  own_buffer (upd_storage p buf' w) o p.
Proof.
  intros (sb & Hsb & Hl & Hd) Hst Hlen.
  destruct (decide (p = Inline o)) as [->|Hne].
  - exists buf'. split; [eapply storage_upd_storage_eq; exact Hst|].
    split; [|congruence]. rewrite Hlen. rewrite Hsb in Hst. injection Hst as <-.
    exact Hl.
  - exists sb. split; [rewrite storage_upd_storage_ne by exact Hne; exact Hsb|].
    split; [exact Hl|exact Hd].
Qed.

Lemma holds_all_dead buf l cap :
  holds buf l cap ->
  Forall dead (take (length l) (kill <$> buf) ++ drop (length l) buf).
Proof.
  intros (rest & -> & Hdead & _). apply Forall_app. split.
  - apply Forall_take, Forall_fmap, Forall_true. intros s. reflexivity.
  - rewrite drop_app_length' by (rewrite length_fmap; reflexivity). exact Hdead.
Qed.

(** ** Growth *)

Lemma take_all_prefix {A B} (f : A -> B) (l : list A) (d : list B) :
  take (length l) (f <$> l) ++ drop (length l) d = (f <$> l) ++ drop (length l) d.
Proof. rewrite take_ge by (rewrite length_fmap; lia). reflexivity. Qed.

Lemma holds_fresh_block (l : list T) (c : Z) :
  Z.of_nat (length l) <= c ->
  holds ((live <$> l) ++ drop (length l) (replicate (Z.to_nat c) raw)) l c.
Proof.
  intros Hc. exists (drop (length l) (replicate (Z.to_nat c) raw)).
  split; [reflexivity|]. split.
  - apply Forall_drop, Forall_replicate. reflexivity.
  - rewrite length_app, length_fmap, length_drop, length_replicate. lia.
Qed.

Lemma grow_ok w o l cap p minc :
  valid w o l cap p -> cap < minc < uint_modulus -> oom_after w = None ->
  exists w',
    grow o minc w = Ok tt w' /\
    valid w' o l minc (Heap (fresh (dom (heap w)))) /\
    oom_after w' = None /\
    log w' = log w ++ [Malloc (fresh (dom (heap w))) minc]
                   ++ replicate (length l) MoveConstruct
                   ++ replicate (length l) Destruct
                   ++ match p with Heap b0 => [Free b0] | _ => [] end /\
    frame w w' o p.
Proof.
  intros Hv Hc Hoom.
  pose proof (valid_N _ _ _ _ _ Hv) as HN.
  pose proof (valid_length _ _ _ _ _ Hv) as Hlen.
  destruct Hv as (Hf & (buf & Hst & Hh) & (sb & Hsb & Hsbl & Hsbd) & Hmode & Hcap).
  set (b := fresh (dom (heap w))).
  assert (Hb : storage w (Heap b) = None) by apply fresh_block_unused.
  assert (Hpb : p <> Heap b) by congruence.
  unfold grow.
  rewrite (bind_Ok _ _ _ _ _ (capacity_ok _ _ _ _ _ Hf)).
  destruct (Z.leb_spec minc cap) as [|_]; [lia|].
  rewrite (bind_Ok _ _ _ _ _ (set_m_capacity_ok _ _ _ _ _ minc Hf)).
  set (W1 := upd_fields o p (Z.of_nat (length l)) minc w).
  assert (Hf1 : fields W1 o = Some (p, Z.of_nat (length l), minc))
    by (eapply fields_upd_fields_eq; eauto).
  rewrite (bind_Ok _ _ _ _ _ (capacity_ok _ _ _ _ _ Hf1)).
  rewrite (bind_Ok _ _ _ _ _ (malloc_ok W1 minc Hoom)).
  change (heap W1) with (heap w). fold b.
  set (blank := replicate (Z.to_nat minc) raw).
  set (W2 := upd_log [Malloc b minc] (upd_storage (Heap b) blank W1)).
  assert (Hf2 : fields W2 o = Some (p, Z.of_nat (length l), minc)).
  { unfold W2. rewrite fields_upd_log, fields_upd_storage. exact Hf1. }
  assert (Hst2 : storage W2 p = Some buf).
  { unfold W2, W1. rewrite storage_upd_log, storage_upd_storage_ne by congruence.
    rewrite storage_upd_fields. exact Hst. }
  assert (Hnew2 : storage W2 (Heap b) = Some blank).
  { unfold W2. rewrite storage_upd_log. simpl. apply lookup_insert_eq. }
  rewrite (bind_Ok _ _ _ _ _ (begin_ok _ _ _ _ _ Hf2)).
  rewrite (bind_Ok _ _ _ _ _ (size_ok _ _ _ _ _ Hf2)).
  erewrite bind_Ok;
    [|eapply (uninitialized_copy_ok MoveConstruct p (Heap b) W2 buf blank l);
      [exact Hst2|exact Hnew2|congruence|intros; eapply holds_lookup; eauto|]].
  2:{ unfold blank. rewrite length_replicate. lia. }
  set (W3 := rewritten MoveConstruct (Heap b) (live <$> l) blank W2 (length l)).
  assert (Hf3 : fields W3 o = Some (p, Z.of_nat (length l), minc)).
  { unfold W3. rewrite fields_rewritten. exact Hf2. }
  assert (Hst3 : storage W3 p = Some buf).
  { unfold W3. rewrite storage_rewritten_ne by congruence. exact Hst2. }
  pose proof (holds_size _ _ _ Hh) as Hsz.
  rewrite (bind_Ok _ _ _ _ _
    (destruct_elements_but_keep_memory_ok _ _ _ _ _ _ Hf3 Hst3 Hsz)).
  set (W4 := rewritten Destruct p (kill <$> buf) buf W3 (length l)).
  assert (Hf4 : fields W4 o = Some (p, Z.of_nat (length l), minc)).
  { unfold W4. rewrite fields_rewritten. exact Hf3. }
  assert (Hnew4 : storage W4 (Heap b)
                  = Some ((live <$> l) ++ drop (length l) blank)).
  { unfold W4. rewrite storage_rewritten_ne by congruence.
    unfold W3. erewrite storage_rewritten_eq by exact Hnew2.
    rewrite take_all_prefix. reflexivity. }
  assert (Hst4 : exists buf4, storage W4 p = Some buf4 /\
                    length buf4 = length buf /\ Forall dead buf4).
  { eexists. split; [|split].
    - unfold W4. eapply storage_rewritten_eq. exact Hst3.
    - apply length_prefix_rest; rewrite ?length_fmap; lia.
    - eapply holds_all_dead. exact Hh. }
  assert (Hlog4 : log W4 = log w ++ [Malloc b minc]
                    ++ replicate (length l) MoveConstruct
                    ++ replicate (length l) Destruct).
  { unfold W4, W3, W2, W1. rewrite !log_rewritten, log_upd_log.
    rewrite <- !app_assoc. reflexivity. }
  assert (Hoom4 : oom_after W4 = None).
  { unfold W4, W3, W2, W1. rewrite !oom_rewritten, oom_upd_log. exact Hoom. }
  assert (Hfr4 : frame w W4 o p).
  { split.
    - intros o' Ho'. unfold W4, W3, W2, W1.
      rewrite !fields_rewritten, fields_upd_log, fields_upd_storage.
      apply fields_upd_fields_ne. congruence.
    - intros q bq Hq Hqo Hsq. unfold W4, W3, W2, W1.
      assert (q <> Heap b) by congruence.
      rewrite !storage_rewritten_ne, storage_upd_log by congruence.
      rewrite storage_upd_storage_ne, storage_upd_fields by congruence.
      exact Hsq. }
  rewrite (bind_Ok _ _ _ _ _ (is_small_ok _ _ _ _ _ Hf4)).
  destruct Hmode as [[-> ->]|[[b0 ->] HNc]].
  - (* the elements were in the embedded buffer *)
    rewrite bool_decide_eq_true_2 by reflexivity.
    rewrite (bind_Ok _ _ _ tt W4 eq_refl).
    rewrite (set_m_elements_ok _ _ _ _ _ (Heap b) Hf4).
    eexists. split; [reflexivity|].
    split; [split; [|split; [|split; [|split]]]|split; [|split; [|split]]].
    + eapply fields_upd_fields_eq. exact Hf4.
    + eexists. split; [rewrite storage_upd_fields; exact Hnew4|].
      apply holds_fresh_block. lia.
    + destruct Hst4 as (buf4 & Hb4 & Hl4 & Hd4). exists buf4.
      split; [rewrite storage_upd_fields; exact Hb4|]. split; [|intros _; exact Hd4].
      rewrite Hl4. rewrite Hsb in Hst. injection Hst as <-. exact Hsbl.
    + right. split; [eauto|lia].
    + lia.
    + rewrite oom_upd_fields. exact Hoom4.
    + rewrite log_upd_fields, Hlog4, app_nil_r. reflexivity.
    + intros o' Ho'. rewrite fields_upd_fields_ne by congruence. apply Hfr4, Ho'.
    + intros q bq Hq Hqo Hsq. rewrite storage_upd_fields. eapply Hfr4; eauto.
  - (* the elements were in heap block [b0], which is released *)
    rewrite bool_decide_eq_false_2 by congruence.
    destruct Hst4 as (buf4 & Hb4 & Hl4 & _).
    set (W5 := upd_log [Free b0] (del_block b0 W4)).
    assert (Hfree : (p <- begin_ o ;; free p) W4 = Ok tt W5).
    { rewrite (bind_Ok _ _ _ _ _ (begin_ok _ _ _ _ _ Hf4)).
      exact (free_ok _ _ _ Hb4). }
    rewrite (bind_Ok _ _ _ _ _ Hfree).
    assert (Hf5 : fields W5 o = Some (Heap b0, Z.of_nat (length l), minc)) by exact Hf4.
    rewrite (set_m_elements_ok _ _ _ _ _ (Heap b) Hf5).
    assert (Hb0 : Heap b <> Heap b0) by congruence.
    eexists. split; [reflexivity|].
    split; [split; [|split; [|split; [|split]]]|split; [|split; [|split]]].
    + eapply fields_upd_fields_eq. exact Hf5.
    + eexists. split; [|apply holds_fresh_block; lia].
      rewrite storage_upd_fields. unfold W5.
      rewrite storage_upd_log, storage_del_block_ne by exact Hb0. exact Hnew4.
    + exists sb. split; [|split; [exact Hsbl|intros _; apply Hsbd; congruence]].
      rewrite storage_upd_fields. unfold W5.
      rewrite storage_upd_log, storage_del_block_ne by congruence.
      unfold W4, W3, W2, W1.
      rewrite !storage_rewritten_ne, storage_upd_log by congruence.
      rewrite storage_upd_storage_ne, storage_upd_fields by congruence.
      exact Hsb.
    + right. split; [eauto|lia].
    + lia.
    + rewrite oom_upd_fields. exact Hoom4.
    + rewrite log_upd_fields. unfold W5. rewrite log_upd_log, log_del_block, Hlog4.
      rewrite <- ?app_assoc. reflexivity.
    + intros o' Ho'. rewrite fields_upd_fields_ne by congruence. apply Hfr4, Ho'.
    + intros q bq Hq Hqo Hsq. rewrite storage_upd_fields. unfold W5.
      rewrite storage_upd_log, storage_del_block_ne by congruence.
      eapply Hfr4; eauto.
Qed.

Lemma grow_noop w o p n c minc :
  fields w o = Some (p, n, c) -> minc <= c -> grow o minc w = Ok tt w.
Proof.
  intros Hf Hc. unfold grow.
  rewrite (bind_Ok _ _ _ _ _ (capacity_ok _ _ _ _ _ Hf)).
  destruct (Z.leb_spec minc c) as [_|]; [reflexivity|lia].
Qed.

Lemma to_uint_small z : 0 <= z < uint_modulus -> to_uint z = z.
Proof. intros Hz. unfold to_uint. apply Z.mod_small. exact Hz. Qed.

Lemma uint_modulus_eq : uint_modulus = 4294967296.
Proof. reflexivity. Qed.

(** The capacity [append] leaves behind when it finds [len] elements in
    [cap] slots (for capacities whose double is still a [uint]). *)
Definition capacity_after_append (cap len : Z) : Z :=
  if cap <=? len then Z.max (cap * 2) 1 else cap.

Lemma ensure_space_for_one_ok w o l cap p :
  valid w o l cap p -> oom_after w = None ->
  Z.of_nat (length l) < 2 ^ 31 \/ Z.of_nat (length l) < cap ->
  exists w',
    ensure_space_for_one o w = Ok tt w' /\
    valid w' o l (capacity_after_append cap (Z.of_nat (length l)))
          (if cap <=? Z.of_nat (length l) then Heap (fresh (dom (heap w))) else p) /\
    Z.of_nat (length l) < capacity_after_append cap (Z.of_nat (length l)) /\
    oom_after w' = None /\
    (Z.of_nat (length l) < cap -> w' = w) /\
    frame w w' o p.
Proof.
  intros Hv Hoom Hl.
  pose proof (valid_N _ _ _ _ _ Hv) as HN.
  pose proof (valid_length _ _ _ _ _ Hv) as Hlen.
  pose proof Hv as (Hf & _).
  unfold ensure_space_for_one, capacity_after_append.
  rewrite (bind_Ok _ _ _ _ _ (size_ok _ _ _ _ _ Hf)).
  rewrite (bind_Ok _ _ _ _ _ (capacity_ok _ _ _ _ _ Hf)).
  destruct (Z.leb_spec cap (Z.of_nat (length l))) as [Hfull|Hroom].
  - assert (Hcap : cap < 2 ^ 31) by lia.
    rewrite to_uint_small by (rewrite uint_modulus_eq; lia).
    destruct (grow_ok w o l cap p (Z.max (cap * 2) 1) Hv) as (w' & Hg & Hv' & Ho' & _ & Hfr).
    { rewrite uint_modulus_eq. lia. }
    { exact Hoom. }
    exists w'. split; [exact Hg|]. split; [exact Hv'|]. split; [lia|].
    split; [exact Ho'|]. split; [intros; lia|exact Hfr].
  - exists w. split; [reflexivity|]. split; [exact Hv|]. split; [lia|].
    split; [exact Hoom|]. split; [reflexivity|apply frame_refl].
Qed.

(** The common body of the two [append] overloads. *)
Definition append_with (kind : event) (this : nat) (value : T) : M unit :=
  ensure_space_for_one this ;;;
  p <- begin_ this ;;
  n <- size this ;;
  construct_at kind p n value ;;;
  n' <- size this ;;
  set_m_size this (to_uint (n' + 1)).

Lemma append_unfold this value :
  append this (Temp value) = append_with CopyConstruct this value.
Proof. reflexivity. Qed.

Lemma append_move_unfold this value :
  append_move this (Temp value) = append_with MoveConstruct this value.
Proof. reflexivity. Qed.

(** A call of one of the two overloads of [append]. *)
Inductive append_call : Type :=
  | ByCopy (value : ref)
  | ByMove (value : ref).

Definition call_ref (c : append_call) : ref :=
  match c with ByCopy r | ByMove r => r end.

Definition call_kind (c : append_call) : event :=
  match c with ByCopy _ => CopyConstruct | ByMove _ => MoveConstruct end.

Definition run_append (this : nat) (c : append_call) : M unit :=
  match c with
  | ByCopy r => append this r
  | ByMove r => append_move this r
  end.

(** Once [ensure_space_for_one] has run, the reference is read: a call
    whose argument then reads as [x] goes on as the call on a temporary of
    value [x] does. *)
Lemma run_append_deref this c x w w1 :
  ensure_space_for_one this w = Ok tt w1 ->
  deref (call_ref c) w1 = Ok x w1 ->
  run_append this c w = append_with (call_kind c) this x w.
Proof.
  intros He Hx.
  destruct c as [r|r]; simpl in Hx |- *; unfold append, append_move, append_with;
    rewrite !(bind_Ok _ _ _ _ _ He);
    unfold begin_, size, read_obj, bind, ret;
    destruct (objs w1 !! this) eqn:Ho; rewrite ?Ho; try reflexivity;
    rewrite Hx; reflexivity.
Qed.

(** When the reference cannot be read at that point, the call is an
    invalid access. *)
Lemma run_append_dangling this c w w1 :
  ensure_space_for_one this w = Ok tt w1 ->
  deref (call_ref c) w1 = Fault ->
  run_append this c w = Fault.
Proof.
  intros He Hx.
  destruct c as [r|r]; simpl in Hx |- *; unfold append, append_move;
    rewrite !(bind_Ok _ _ _ _ _ He);
    unfold begin_, size, read_obj, bind, ret;
    destruct (objs w1 !! this) eqn:Ho; rewrite ?Ho; try reflexivity;
    rewrite Hx; reflexivity.
Qed.

Lemma holds_snoc buf l cap x :
  holds buf l cap -> Z.of_nat (length l) < cap ->
  holds (<[length l := live x]> buf) (l ++ [x]) cap.
Proof.
  intros (rest & -> & Hdead & Hlen) Hlt.
  rewrite length_app, length_fmap in Hlen.
  destruct rest as [|r rest]; [simpl in Hlen; lia|].
  exists rest. split; [|split].
  - rewrite insert_app_r_alt by (rewrite length_fmap; lia).
    rewrite length_fmap, Nat.sub_diag. simpl.
    rewrite fmap_app, <- app_assoc. reflexivity.
  - inversion Hdead; assumption.
  - rewrite length_insert, length_app, length_fmap. exact Hlen.
Qed.

Lemma append_with_ok kind w o l cap p x :
  valid w o l cap p -> oom_after w = None ->
  Z.of_nat (length l) < 2 ^ 31 \/ Z.of_nat (length l) < cap ->
  exists w',
    append_with kind o x w = Ok tt w' /\
    valid w' o (l ++ [x]) (capacity_after_append cap (Z.of_nat (length l)))
          (if cap <=? Z.of_nat (length l) then Heap (fresh (dom (heap w))) else p) /\
    oom_after w' = None /\
    (Z.of_nat (length l) < cap -> log w' = log w ++ [kind]) /\
    frame w w' o p.
Proof.
  intros Hv Hoom Hl.
  destruct (ensure_space_for_one_ok w o l cap p Hv Hoom Hl)
    as (w1 & He & Hv1 & Hroom & Hoom1 & Hsame & Hfr1).
  set (cap' := capacity_after_append cap (Z.of_nat (length l))) in *.
  set (p' := if cap <=? Z.of_nat (length l)
             then Heap (fresh (dom (heap w))) else p) in *.
  destruct Hv1 as (Hf1 & (buf & Hst1 & Hh1) & Hown1 & Hmode1 & Hcap1).
  unfold append_with.
  rewrite (bind_Ok _ _ _ _ _ He).
  rewrite (bind_Ok _ _ _ _ _ (begin_ok _ _ _ _ _ Hf1)).
  rewrite (bind_Ok _ _ _ _ _ (size_ok _ _ _ _ _ Hf1)).
  pose proof (holds_length _ _ _ Hh1) as Hbl.
  erewrite bind_Ok; [|eapply construct_at_ok; [exact Hst1|lia|lia]].
  rewrite Nat2Z.id.
  set (buf2 := <[length l := live x]> buf).
  set (W2 := upd_log [kind] (upd_storage p' buf2 w1)).
  assert (Hf2 : fields W2 o = Some (p', Z.of_nat (length l), cap')).
  { unfold W2. rewrite fields_upd_log, fields_upd_storage. exact Hf1. }
  rewrite (bind_Ok _ _ _ _ _ (size_ok _ _ _ _ _ Hf2)).
  rewrite (set_m_size_ok _ _ _ _ _ _ Hf2).
  rewrite to_uint_small by lia.
  eexists. split; [reflexivity|].
  split; [split; [|split; [|split; [|split]]]|split; [|split; [|split]]].
  - erewrite fields_upd_fields_eq by exact Hf2.
    rewrite length_app. simpl. do 3 f_equal. lia.
  - exists buf2. split.
    + rewrite storage_upd_fields. unfold W2. rewrite storage_upd_log.
      eapply storage_upd_storage_eq. exact Hst1.
    + apply holds_snoc; assumption.
  - eapply (own_buffer_ext (upd_storage p' buf2 w1)).
    + rewrite storage_upd_fields. unfold W2. apply storage_upd_log.
    + eapply own_buffer_upd_storage; [exact Hown1|exact Hst1|].
      unfold buf2. apply length_insert.
  - exact Hmode1.
  - exact Hcap1.
  - rewrite oom_upd_fields. unfold W2. rewrite oom_upd_log, oom_upd_storage.
    exact Hoom1.
  - intros Hlt.
    rewrite log_upd_fields. unfold W2. rewrite log_upd_log, log_upd_storage.
    rewrite (Hsame Hlt). reflexivity.
  - intros o' Ho'. rewrite fields_upd_fields_ne by congruence.
    unfold W2. rewrite fields_upd_log, fields_upd_storage. apply Hfr1, Ho'.
  - intros q bq Hq Hqo Hsq. rewrite storage_upd_fields. unfold W2.
    rewrite storage_upd_log.
    assert (Hqp' : p' <> q).
    { unfold p'. destruct (cap <=? Z.of_nat (length l)); [|congruence].
      intros <-. rewrite fresh_block_unused in Hsq. discriminate. }
    rewrite storage_upd_storage_ne by exact Hqp'.
    eapply Hfr1; eauto.
Qed.

(** ** Arguments of [append] *)

(** In [w], the reference [r] is bound to a live object of value [x] that
    lies neither in the storage [p] of the container at [o] nor in the
    buffer embedded in that container. *)
Definition bound_outside (w : world) (o : nat) (p : ptr) (r : ref) (x : T)
  : Prop :=
  match r with
  | Temp v => v = x
  | Elem q i =>
      q <> p /\ q <> Inline o /\ 0 <= i /\
      exists buf, storage w q = Some buf /\ buf !! Z.to_nat i = Some (live x)
  end.

Lemma bound_outside_deref w o p r x :
  bound_outside w o p r x -> deref r w = Ok x w.
Proof.
  destruct r as [v|q i]; simpl.
  - intros ->. reflexivity.
  - intros (_ & _ & Hi & buf & Hst & Hs).
    eapply read_value_ok; [exact Hst|exact Hi|exact Hs|reflexivity].
Qed.

(** A call on the container at [o] leaves such an object alone, and the
    block the call may allocate is not the one the object lies in. *)
Lemma bound_outside_frame w w' o p p' r x :
  frame w w' o p -> bound_outside w o p r x ->
  p' = p \/ p' = Heap (fresh (dom (heap w))) ->
  bound_outside w' o p' r x.
Proof.
  intros [_ Hst] Hb Hp'. destruct r as [v|q i]; simpl in *; [exact Hb|].
  destruct Hb as (Hq & Hqo & Hi & buf & Hs & Hl).
  split; [|split; [exact Hqo|split; [exact Hi|]]].
  - destruct Hp' as [->| ->]; [exact Hq|].
    intros ->. rewrite fresh_block_unused in Hs. discriminate.
  - exists buf. split; [apply Hst; assumption|exact Hl].
Qed.

Lemma run_append_ok w o l cap p c x :
  valid w o l cap p -> oom_after w = None ->
  Z.of_nat (length l) < 2 ^ 31 \/ Z.of_nat (length l) < cap ->
  bound_outside w o p (call_ref c) x ->
  run_append o c w = append_with (call_kind c) o x w.
Proof.
  intros Hv Hoom Hl Hb.
  destruct (ensure_space_for_one_ok w o l cap p Hv Hoom Hl)
    as (w1 & He & _ & _ & _ & _ & Hfr).
  eapply run_append_deref; [exact He|].
  eapply bound_outside_deref.
  eapply bound_outside_frame; [exact Hfr|exact Hb|left; reflexivity].
Qed.

(** An element of another valid container is such an object. *)
Lemma valid_bound_outside w a pa b lb cb pb j x :
  valid w b lb cb pb -> a <> b -> pa <> pb -> lb !! j = Some x ->
  bound_outside w a pa (Elem pb (Z.of_nat j)) x.
Proof.
  intros (_ & (buf & Hst & rest & -> & _) & _ & Hmode & _) Hab Hpp Hx.
  split; [congruence|]. split.
  { destruct Hmode as [[-> _]|[[blk ->] _]]; congruence. }
  split; [lia|]. eexists. split; [exact Hst|].
  rewrite Nat2Z.id, lookup_app_l
    by (rewrite length_fmap; eapply lookup_lt_Some; exact Hx).
  rewrite list_lookup_fmap, Hx. reflexivity.
Qed.

(** ** Construction, size and element access *)

Lemma SmallVector_default_ok w this :
  0 <= N < uint_modulus ->
  exists w',
    SmallVector_default this w = Ok tt w' /\
    valid w' this [] N (Inline this) /\
    oom_after w' = oom_after w /\ log w' = log w /\ heap w' = heap w /\
    frame w w' this (Inline this).
Proof.
  intros HN. unfold SmallVector_default, new_object.
  set (blank := replicate (Z.to_nat N) raw).
  set (W0 := World (<[this := Vec blank Null 0 N]> (objs w)) (heap w)
                   (oom_after w) (log w)).
  assert (H0 : write_obj this (Vec blank Null 0 N) w = Ok tt W0) by reflexivity.
  assert (Hf0 : fields W0 this = Some (Null, 0, N)).
  { unfold fields. simpl. rewrite lookup_insert_eq. reflexivity. }
  rewrite (bind_Ok _ _ _ _ _ H0).
  rewrite (bind_Ok _ _ _ _ _ (set_m_elements_ok _ _ _ _ _ (Inline this) Hf0)).
  set (W1 := upd_fields this (Inline this) 0 N W0).
  assert (Hf1 : fields W1 this = Some (Inline this, 0, N))
    by (eapply fields_upd_fields_eq; exact Hf0).
  rewrite (bind_Ok _ _ _ _ _ (set_m_capacity_ok _ _ _ _ _ N Hf1)).
  set (W2 := upd_fields this (Inline this) 0 N W1).
  assert (Hf2 : fields W2 this = Some (Inline this, 0, N))
    by (eapply fields_upd_fields_eq; exact Hf1).
  rewrite (set_m_size_ok _ _ _ _ _ 0 Hf2).
  assert (Hsb : storage (upd_fields this (Inline this) 0 N W2) (Inline this)
                = Some blank).
  { unfold W2, W1. rewrite !storage_upd_fields. simpl.
    rewrite lookup_insert_eq. reflexivity. }
  eexists. split; [reflexivity|]. repeat split.
  - eapply fields_upd_fields_eq. exact Hf2.
  - exists blank. split; [exact Hsb|]. exists blank. simpl.
    split; [reflexivity|]. split.
    + apply Forall_replicate. reflexivity.
    + unfold blank. rewrite length_replicate. lia.
  - exists blank. split; [exact Hsb|]. split; [|congruence].
    unfold blank. rewrite length_replicate. lia.
  - left. split; reflexivity.
  - lia.
  - intros o' Ho'. unfold W2, W1. rewrite !fields_upd_fields_ne by congruence.
    unfold fields. simpl. rewrite lookup_insert_ne by congruence. reflexivity.
  - intros q bq Hq _ Hsq. unfold W2, W1. rewrite !storage_upd_fields.
    destruct q as [|o'|b]; simpl in *; try exact Hsq.
    rewrite lookup_insert_ne by congruence. exact Hsq.
Qed.

Lemma size_valid w o l cap p :
  valid w o l cap p -> size o w = Ok (Z.of_nat (length l)) w.
Proof. intros (Hf & _). eapply size_ok. exact Hf. Qed.

Lemma capacity_valid w o l cap p : valid w o l cap p -> capacity o w = Ok cap w.
Proof. intros (Hf & _). eapply capacity_ok. exact Hf. Qed.

Lemma is_index_in_range_ok w o p n c index :
  fields w o = Some (p, n, c) ->
  is_index_in_range o index w = Ok ((0 <=? index) && (index <? n)) w.
Proof.
  intros Hf. unfold is_index_in_range.
  rewrite (bind_Ok _ _ _ _ _ (size_ok _ _ _ _ _ Hf)). reflexivity.
Qed.

Lemma subscript_ok w o l cap p i x :
  valid w o l cap p -> l !! i = Some x ->
  subscript o (Z.of_nat i) w = Ok x w.
Proof.
  intros Hv Hx.
  pose proof (valid_length _ _ _ _ _ Hv) as Hlen.
  destruct Hv as (Hf & (buf & Hst & Hh) & _ & _ & Hcap).
  pose proof (lookup_lt_Some _ _ _ Hx) as Hi.
  unfold subscript.
  rewrite (bind_Ok _ _ _ _ _ (is_index_in_range_ok _ _ _ _ _ _ Hf)).
  rewrite to_uint_small by lia.
  destruct (Z.leb_spec 0 (Z.of_nat i)) as [_|]; [|lia].
  destruct (Z.ltb_spec (Z.of_nat i) (Z.of_nat (length l))) as [_|]; [|lia].
  simpl. rewrite (bind_Ok _ _ _ tt w eq_refl).
  rewrite (bind_Ok _ _ _ _ _ (begin_ok _ _ _ _ _ Hf)).
  destruct (holds_lookup _ _ _ _ _ Hh Hx) as (s & Hs & Hb).
  eapply read_value_ok; [exact Hst|lia| |exact Hb].
  rewrite Nat2Z.id. exact Hs.
Qed.

Lemma subscript_out_of_range w o l cap p index :
  valid w o l cap p -> Z.of_nat (length l) <= to_uint index ->
  subscript o index w = AssertFailed.
Proof.
  intros (Hf & _) Hi. unfold subscript.
  rewrite (bind_Ok _ _ _ _ _ (is_index_in_range_ok _ _ _ _ _ _ Hf)).
  destruct (Z.ltb_spec (to_uint index) (Z.of_nat (length l))) as [|_]; [lia|].
  rewrite andb_false_r. reflexivity.
Qed.

(** ** Sequences of appends *)

(** The capacity after [k] appends starting from [len] elements in [cap]
    slots. *)
Fixpoint capacity_after_appends (cap len : Z) (k : nat) : Z :=
  match k with
  | O => cap
  | S k' => capacity_after_appends (capacity_after_append cap len) (len + 1) k'
  end.

Lemma capacity_after_append_ge cap len : 0 <= cap -> cap <= capacity_after_append cap len.
Proof. intros Hc. unfold capacity_after_append. destruct (cap <=? len); lia. Qed.

Lemma capacity_after_append_room cap len :
  len < cap -> capacity_after_append cap len = cap.
Proof.
  intros Hc. unfold capacity_after_append.
  destruct (Z.leb_spec cap len); [lia|reflexivity].
Qed.

Lemma capacity_after_appends_room cap len k :
  len + Z.of_nat k <= cap -> capacity_after_appends cap len k = cap.
Proof.
  revert cap len. induction k as [|k IH]; intros cap len Hc; simpl; [reflexivity|].
  rewrite capacity_after_append_room by lia. apply IH. lia.
Qed.

Lemma for_each_append_ok xs : forall w o l cap p,
  valid w o l cap p -> oom_after w = None ->
  Z.of_nat (length l) + Z.of_nat (length xs) <= 2 ^ 31 \/
  Z.of_nat (length l) + Z.of_nat (length xs) <= cap ->
  exists w' p',
    for_each xs (fun value => append o (Temp value)) w = Ok tt w' /\
    valid w' o (l ++ xs)
          (capacity_after_appends cap (Z.of_nat (length l)) (length xs)) p' /\
    oom_after w' = None /\
    (Z.of_nat (length l) + Z.of_nat (length xs) <= cap ->
       p' = p /\ log w' = log w ++ replicate (length xs) CopyConstruct).
Proof.
  induction xs as [|x xs IH]; intros w o l cap p Hv Hoom Hlen; simpl.
  - exists w, p. rewrite !app_nil_r.
    split; [reflexivity|]. split; [exact Hv|]. split; [exact Hoom|]. auto.
  - simpl in Hlen.
    pose proof (valid_N _ _ _ _ _ Hv) as HN.
    pose proof (capacity_after_append_ge cap (Z.of_nat (length l)) ltac:(lia)) as Hge.
    destruct (append_with_ok CopyConstruct w o l cap p x Hv Hoom ltac:(lia))
      as (w1 & Ha & Hv1 & Hoom1 & Hlog1 & _).
    rewrite append_unfold, (bind_Ok _ _ _ _ _ Ha).
    destruct (IH _ _ _ _ _ Hv1 Hoom1) as (w' & p' & Hr & Hv' & Hoom' & Hfit).
    { rewrite length_app. simpl. lia. }
    exists w', p'. split; [exact Hr|]. split.
    + rewrite <- app_assoc in Hv'. simpl in Hv'.
      rewrite length_app in Hv'. simpl in Hv'.
      replace (Z.of_nat (length l + 1)) with (Z.of_nat (length l) + 1) in Hv' by lia.
      exact Hv'.
    + split; [exact Hoom'|]. intros Hroom.
      rewrite capacity_after_append_room in Hfit by lia.
      destruct Hfit as [-> Hlog'].
      { rewrite length_app. simpl. lia. }
      destruct (Z.leb_spec cap (Z.of_nat (length l))) as [|_]; [lia|].
      split; [reflexivity|].
      rewrite Hlog', Hlog1 by lia. rewrite <- app_assoc. reflexivity.
Qed.



(** C7 (as the code has it). On a full container whose capacity is below
    2^31, the range in which the product [m_capacity * 2] is a [uint], the
    [ensure_space_for_one] step of [append] grows the capacity to exactly
    [max(2 * capacity, 1)], and the call, of either overload and on an
    object outside the container, completes with that capacity;
    [reserve(min_capacity)] grows it to exactly [min_capacity] and does
    nothing when the capacity is already sufficient; with [N = 4] the
    capacity is 4 after four appends, 8 after the fifth and up to the
    eighth, 16 after the ninth. *)
Theorem growth_policy (w : world) (o : nat) (l : list T) (cap : Z) (p : ptr) :
  valid w o l cap p -> oom_after w = None ->
  (Z.of_nat (length l) = cap -> cap < 2 ^ 31 ->
     (exists w1, ensure_space_for_one o w = Ok tt w1 /\
                 capacity o w1 = Ok (Z.max (2 * cap) 1) w1) /\
     forall c x, bound_outside w o p (call_ref c) x ->
       exists w', run_append o c w = Ok tt w' /\
                  capacity o w' = Ok (Z.max (2 * cap) 1) w') /\
  (forall min_capacity, cap < min_capacity < uint_modulus ->
     exists w', reserve o min_capacity w = Ok tt w' /\
                capacity o w' = Ok min_capacity w') /\
  (forall min_capacity, min_capacity <= cap ->
     reserve o min_capacity w = Ok tt w) /\
  (N = 4 -> forall w0 this xs, oom_after w0 = None -> (length xs <= 16)%nat ->
     exists w',
       (SmallVector_default this ;;;
        for_each xs (fun value => append this (Temp value))) w0 = Ok tt w' /\
       (length xs = 4%nat -> capacity this w' = Ok 4 w') /\
       (length xs = 5%nat -> capacity this w' = Ok 8 w') /\
       (length xs = 8%nat -> capacity this w' = Ok 8 w') /\
       (length xs = 9%nat -> capacity this w' = Ok 16 w')).
Proof.
  intros Hv Hoom. split; [|split; [|split]].
  - intros Hfull Hcap. replace (2 * cap) with (cap * 2) by lia. split.
    + destruct (ensure_space_for_one_ok w o l cap p Hv Hoom ltac:(lia))
        as (w1 & He & Hv1 & _).
      exists w1. split; [exact He|].
      unfold capacity_after_append in Hv1.
      destruct (Z.leb_spec cap (Z.of_nat (length l))) as [_|]; [|lia].
      eapply capacity_valid. exact Hv1.
    + intros c x Hb.
      destruct (append_with_ok (call_kind c) w o l cap p x Hv Hoom ltac:(lia))
        as (w' & Ha & Hv' & _).
      rewrite <- (run_append_ok w o l cap p c x Hv Hoom ltac:(lia) Hb) in Ha.
      exists w'. split; [exact Ha|].
      unfold capacity_after_append in Hv'.
      destruct (Z.leb_spec cap (Z.of_nat (length l))) as [_|]; [|lia].
      eapply capacity_valid. exact Hv'.
  - intros minc Hc.
    destruct (grow_ok w o l cap p minc Hv Hc Hoom) as (w' & Hg & Hv' & _).
    exists w'. split; [exact Hg|]. eapply capacity_valid. exact Hv'.
  - intros minc Hc. destruct Hv as (Hf & _). eapply grow_noop; [exact Hf|exact Hc].
  - intros HN w0 this xs Hoom0 Hlen.
    destruct (SmallVector_default_ok w0 this) as (w1 & Hd & Hv1 & Hoom1 & _).
    { rewrite HN, uint_modulus_eq. lia. }
    rewrite (bind_Ok _ _ _ _ _ Hd).
    destruct (for_each_append_ok xs w1 this [] N (Inline this) Hv1)
      as (w' & p' & Hr & Hv' & _).
    { rewrite Hoom1. exact Hoom0. }
    { simpl. lia. }
    exists w'. split; [exact Hr|].
    apply capacity_valid in Hv'. rewrite HN in Hv'. simpl in Hv'.
    repeat split; intros Hk; rewrite Hk in Hv'; exact Hv'.
Qed.

(** ** Removal *)

Lemma valid_assign w o l cap p kind i y v :
  valid w o l cap p -> l !! i = Some y ->
  exists w',
    (q <- begin_ o ;; assign_at kind q (Z.of_nat i) v) w = Ok tt w' /\
    valid w' o (<[i := v]> l) cap p /\
    oom_after w' = oom_after w /\ log w' = log w ++ [kind] /\
    frame w w' o p.
Proof.
  intros (Hf & (buf & Hst & Hh) & Hown & Hmode & Hcap) Hy.
  pose proof (lookup_lt_Some _ _ _ Hy) as Hi.
  destruct Hh as (rest & -> & Hdead & Hlen).
  assert (Hs : ((live <$> l) ++ rest) !! Z.to_nat (Z.of_nat i) = Some (live y)).
  { rewrite Nat2Z.id, lookup_app_l by (rewrite length_fmap; lia).
    rewrite list_lookup_fmap, Hy. reflexivity. }
  rewrite (bind_Ok _ _ _ _ _ (begin_ok _ _ _ _ _ Hf)).
  rewrite (assign_at_ok _ _ _ _ _ _ v Hst (Nat2Z.is_nonneg i) Hs).
  rewrite Nat2Z.id.
  set (buf' := <[i := overwrite v (live y)]> ((live <$> l) ++ rest)).
  assert (Hbuf' : buf' = (live <$> <[i := v]> l) ++ rest).
  { unfold buf'. rewrite insert_app_l by (rewrite length_fmap; lia).
    rewrite list_fmap_insert. reflexivity. }
  eexists. split; [reflexivity|]. split; [|split; [|split; [|split]]].
  - split; [|split; [|split; [|split]]].
    + rewrite fields_upd_log, fields_upd_storage, length_insert. exact Hf.
    + exists buf'. split.
      * rewrite storage_upd_log. eapply storage_upd_storage_eq. exact Hst.
      * exists rest. split; [exact Hbuf'|]. split; [exact Hdead|].
        unfold buf'. rewrite length_insert. exact Hlen.
    + eapply (own_buffer_ext (upd_storage p buf' w)); [apply storage_upd_log|].
      eapply own_buffer_upd_storage; [exact Hown|exact Hst|].
      unfold buf'. apply length_insert.
    + exact Hmode.
    + exact Hcap.
  - rewrite oom_upd_log, oom_upd_storage. reflexivity.
  - rewrite log_upd_log, log_upd_storage. reflexivity.
  - intros o' Ho'. rewrite fields_upd_log, fields_upd_storage. reflexivity.
  - intros q bq Hq Hqo Hsq. rewrite storage_upd_log.
    rewrite storage_upd_storage_ne by congruence. exact Hsq.
Qed.

(** The common tail of [remove_last] and [remove_and_reorder]: destruct the
    last element, decrement [m_size]. *)
Definition pop_tail (this : nat) : M unit :=
  n <- size this ;;
  destruct_element this (to_uint (n - 1)) ;;;
  n' <- size this ;;
  set_m_size this (to_uint (n' - 1)).

Lemma pop_tail_ok w o l z cap p :
  valid w o (l ++ [z]) cap p ->
  exists w',
    pop_tail o w = Ok tt w' /\
    valid w' o l cap p /\
    oom_after w' = oom_after w /\ log w' = log w ++ [Destruct] /\
    frame w w' o p.
Proof.
  intros Hv.
  pose proof (valid_length _ _ _ _ _ Hv) as Hlen.
  destruct Hv as (Hf & (buf & Hst & Hh) & Hown & Hmode & Hcap).
  rewrite length_app in Hf, Hlen. simpl in Hf, Hlen.
  destruct Hh as (rest & -> & Hdead & Hbl).
  rewrite fmap_app in Hst, Hbl. simpl in Hst, Hbl.
  rewrite <- app_assoc in Hst, Hbl. simpl in Hst, Hbl.
  assert (Hn : to_uint (Z.of_nat (length l + 1) - 1) = Z.of_nat (length l)).
  { rewrite to_uint_small by lia. lia. }
  assert (Hs : ((live <$> l) ++ live z :: rest) !! Z.to_nat (Z.of_nat (length l))
               = Some (live z)).
  { rewrite Nat2Z.id, lookup_app_r by (rewrite length_fmap; lia).
    rewrite length_fmap, Nat.sub_diag. reflexivity. }
  set (buf' := <[length l := kill (live z)]> ((live <$> l) ++ live z :: rest)).
  assert (Hbuf' : buf' = (live <$> l) ++ kill (live z) :: rest).
  { unfold buf'. rewrite insert_app_r_alt by (rewrite length_fmap; lia).
    rewrite length_fmap, Nat.sub_diag. reflexivity. }
  set (W1 := upd_log [Destruct] (upd_storage p buf' w)).
  assert (Hde : destruct_element o (Z.of_nat (length l)) w = Ok tt W1).
  { unfold destruct_element.
    rewrite (bind_Ok _ _ _ _ _ (begin_ok _ _ _ _ _ Hf)).
    rewrite (destroy_at_ok _ _ _ _ _ Hst (Nat2Z.is_nonneg _) Hs).
    rewrite Nat2Z.id. reflexivity. }
  unfold pop_tail.
  rewrite (bind_Ok _ _ _ _ _ (size_ok _ _ _ _ _ Hf)), Hn.
  rewrite (bind_Ok _ _ _ _ _ Hde).
  assert (Hf1 : fields W1 o = Some (p, Z.of_nat (length l + 1), cap)).
  { unfold W1. rewrite fields_upd_log, fields_upd_storage. exact Hf. }
  rewrite (bind_Ok _ _ _ _ _ (size_ok _ _ _ _ _ Hf1)), Hn.
  rewrite (set_m_size_ok _ _ _ _ _ _ Hf1).
  eexists. split; [reflexivity|]. split; [|split; [|split; [|split]]].
  - split; [|split; [|split; [|split]]].
    + eapply fields_upd_fields_eq. exact Hf1.
    + exists buf'. split.
      * rewrite storage_upd_fields. unfold W1. rewrite storage_upd_log.
        eapply storage_upd_storage_eq. exact Hst.
      * exists (kill (live z) :: rest). split; [exact Hbuf'|]. split.
        -- constructor; [reflexivity|exact Hdead].
        -- unfold buf'. rewrite length_insert. exact Hbl.
    + eapply (own_buffer_ext (upd_storage p buf' w)).
      * rewrite storage_upd_fields. unfold W1. apply storage_upd_log.
      * eapply own_buffer_upd_storage; [exact Hown|exact Hst|].
        unfold buf'. apply length_insert.
    + exact Hmode.
    + exact Hcap.
  - rewrite oom_upd_fields. unfold W1. rewrite oom_upd_log, oom_upd_storage.
    reflexivity.
  - rewrite log_upd_fields. unfold W1. rewrite log_upd_log, log_upd_storage.
    reflexivity.
  - intros o' Ho'. rewrite fields_upd_fields_ne by congruence.
    unfold W1. rewrite fields_upd_log, fields_upd_storage. reflexivity.
  - intros q bq Hq Hqo Hsq. rewrite storage_upd_fields. unfold W1.
    rewrite storage_upd_log, storage_upd_storage_ne by congruence. exact Hsq.
Qed.

Lemma remove_last_unfold this :
  remove_last this = (e <- empty this ;; BLI_assert (negb e) ;;; pop_tail this).
Proof. reflexivity. Qed.

Lemma empty_ok w o p n c : fields w o = Some (p, n, c) -> empty o w = Ok (n =? 0) w.
Proof.
  intros Hf. unfold empty. rewrite (bind_Ok _ _ _ _ _ (size_ok _ _ _ _ _ Hf)).
  reflexivity.
Qed.

Lemma remove_last_ok w o l z cap p :
  valid w o (l ++ [z]) cap p ->
  exists w',
    remove_last o w = Ok tt w' /\
    valid w' o l cap p /\
    oom_after w' = oom_after w /\ log w' = log w ++ [Destruct] /\
    frame w w' o p.
Proof.
  intros Hv. pose proof Hv as (Hf & _).
  rewrite remove_last_unfold.
  rewrite (bind_Ok _ _ _ _ _ (empty_ok _ _ _ _ _ Hf)).
  rewrite length_app. simpl.
  destruct (Z.eqb_spec (Z.of_nat (length l + 1)) 0) as [|_]; [lia|].
  simpl. rewrite (bind_Ok _ _ _ tt w eq_refl).
  eapply pop_tail_ok. exact Hv.
Qed.

Lemma remove_last_empty w o cap p :
  valid w o [] cap p -> remove_last o w = AssertFailed.
Proof.
  intros (Hf & _). rewrite remove_last_unfold.
  rewrite (bind_Ok _ _ _ _ _ (empty_ok _ _ _ _ _ Hf)). reflexivity.
Qed.

(** What [remove_and_reorder(i)] makes of the element sequence: the last
    element is written over position [i], then the last position is
    dropped. *)
Definition reordered (l : list T) (i : nat) : list T :=
  match last l with
  | Some z => take (length l - 1) (<[i := z]> l)
  | None => l
  end.

Lemma reordered_snoc_inner l z i :
  (i < length l)%nat -> reordered (l ++ [z]) i = <[i := z]> l.
Proof.
  intros Hi. unfold reordered. rewrite last_snoc, length_app. simpl.
  rewrite insert_app_l by lia.
  replace (length l + 1 - 1)%nat with (length (<[i := z]> l))
    by (rewrite length_insert; lia).
  apply take_app_length.
Qed.

Lemma reordered_snoc_last l z : reordered (l ++ [z]) (length l) = l.
Proof.
  unfold reordered. rewrite last_snoc, length_app. simpl.
  rewrite insert_app_r_alt by lia. rewrite Nat.sub_diag. simpl.
  replace (length l + 1 - 1)%nat with (length l) by lia.
  apply take_app_length.
Qed.

Lemma remove_and_reorder_unfold this index :
  remove_and_reorder this index
  = (ok <- is_index_in_range this index ;;
     BLI_assert ok ;;;
     n <- size this ;;
     (if index <? to_uint (n - 1) then
        p <- begin_ this ;;
        value <- read_value p (n - 1) ;;
        assign_at MoveAssign p index value
      else ret tt) ;;;
     pop_tail this).
Proof. reflexivity. Qed.

Lemma remove_and_reorder_ok w o l cap p index :
  valid w o l cap p -> 0 <= index < Z.of_nat (length l) ->
  exists w',
    remove_and_reorder o index w = Ok tt w' /\
    valid w' o (reordered l (Z.to_nat index)) cap p /\
    oom_after w' = oom_after w /\
    log w' = log w
             ++ (if index <? Z.of_nat (length l) - 1 then [MoveAssign] else [])
             ++ [Destruct] /\
    frame w w' o p.
Proof.
  intros Hv Hi.
  destruct l as [|z l0 _] using rev_ind; [simpl in Hi; lia|].
  pose proof (valid_length _ _ _ _ _ Hv) as Hlen.
  pose proof Hv as (Hf & (buf & Hst & Hh) & _ & _ & Hcap).
  rewrite length_app in Hi, Hlen, Hf |- *. simpl in Hi, Hlen, Hf |- *.
  rewrite remove_and_reorder_unfold.
  rewrite (bind_Ok _ _ _ _ _ (is_index_in_range_ok _ _ _ _ _ _ Hf)).
  destruct (Z.leb_spec 0 index) as [_|]; [|lia].
  destruct (Z.ltb_spec index (Z.of_nat (length l0 + 1))) as [_|]; [|lia].
  simpl. rewrite (bind_Ok _ _ _ tt w eq_refl).
  rewrite (bind_Ok _ _ _ _ _ (size_ok _ _ _ _ _ Hf)).
  rewrite to_uint_small by lia.
  replace (Z.of_nat (length l0 + 1) - 1) with (Z.of_nat (length l0)) by lia.
  destruct (Z.ltb_spec index (Z.of_nat (length l0))) as [Hinner|Hlast].
  - (* the last element is moved over position [index] *)
    destruct (lookup_lt_is_Some_2 (l0 ++ [z]) (Z.to_nat index)) as [y Hy].
    { rewrite length_app. simpl. lia. }
    destruct (valid_assign w o (l0 ++ [z]) cap p MoveAssign (Z.to_nat index) y z Hv Hy)
      as (w1 & Has & Hv1 & Hoom1 & Hlog1 & Hfr1).
    rewrite Z2Nat.id in Has by lia.
    assert (Hz : (l0 ++ [z]) !! length l0 = Some z).
    { rewrite lookup_app_r by lia. rewrite Nat.sub_diag. reflexivity. }
    destruct (holds_lookup _ _ _ _ _ Hh Hz) as (s & Hs & Hb).
    assert (Hmove : (q <- begin_ o ;;
                     value <- read_value q (Z.of_nat (length l0)) ;;
                     assign_at MoveAssign q index value) w = Ok tt w1).
    { rewrite (bind_Ok _ _ _ _ _ (begin_ok _ _ _ _ _ Hf)).
      erewrite bind_Ok;
        [|eapply read_value_ok; [exact Hst|lia|rewrite Nat2Z.id; exact Hs|exact Hb]].
      rewrite (bind_Ok _ _ _ _ _ (begin_ok _ _ _ _ _ Hf)) in Has. exact Has. }
    rewrite (bind_Ok _ _ _ _ _ Hmove).
    rewrite insert_app_l in Hv1 by lia.
    destruct (pop_tail_ok w1 o _ z cap p Hv1) as (w' & Hp & Hv' & Hoom' & Hlog' & Hfr').
    exists w'. split; [exact Hp|]. split; [|split; [|split]].
    + rewrite reordered_snoc_inner by lia. exact Hv'.
    + congruence.
    + rewrite Hlog', Hlog1, <- app_assoc. reflexivity.
    + destruct Hfr1 as [Hfa Hsa], Hfr' as [Hfb Hsb']. split.
      * intros o' Ho'. rewrite Hfb, Hfa by exact Ho'. reflexivity.
      * intros q bq Hq Hqo Hsq. apply Hsb'; auto.
  - (* [index] is the last position: nothing is moved *)
    assert (Hidx : Z.to_nat index = length l0) by lia.
    rewrite (bind_Ok _ _ _ tt w eq_refl).
    destruct (pop_tail_ok w o l0 z cap p Hv) as (w' & Hp & Hv' & Hoom' & Hlog' & Hfr').
    exists w'. split; [exact Hp|]. split; [|split; [|split]].
    + rewrite Hidx, reordered_snoc_last. exact Hv'.
    + exact Hoom'.
    + exact Hlog'.
    + exact Hfr'.
Qed.

Lemma remove_and_reorder_out_of_range w o l cap p index :
  valid w o l cap p -> Z.of_nat (length l) <= index ->
  remove_and_reorder o index w = AssertFailed.
Proof.
  intros (Hf & _) Hi. rewrite remove_and_reorder_unfold.
  rewrite (bind_Ok _ _ _ _ _ (is_index_in_range_ok _ _ _ _ _ _ Hf)).
  destruct (Z.ltb_spec index (Z.of_nat (length l))) as [|_]; [lia|].
  rewrite andb_false_r. reflexivity.
Qed.

(** C8. For an index inside [0, length), [remove_and_reorder(index)] moves
    the last element over position [index] when that is not the last slot
    (one move assignment), destructs the last slot (one destruction) and
    decrements the length; on [x0, x1, x2, x3] with index 1 it leaves
    [x0, x3, x2], length 3; an index at or beyond the length stops at the
    assertion. *)
Theorem remove_and_reorder_spec (w : world) (o : nat) (l : list T) (cap : Z)
    (p : ptr) (index : Z) :
  valid w o l cap p -> 0 <= index < uint_modulus ->
  (index < Z.of_nat (length l) ->
     exists w',
       remove_and_reorder o index w = Ok tt w' /\
       size o w' = Ok (Z.of_nat (length l) - 1) w' /\
       (forall i x, reordered l (Z.to_nat index) !! i = Some x ->
          subscript o (Z.of_nat i) w' = Ok x w') /\
       log w' = log w
                ++ (if index <? Z.of_nat (length l) - 1 then [MoveAssign] else [])
                ++ [Destruct] /\
       (forall x0 x1 x2 x3, l = [x0; x1; x2; x3] -> index = 1 ->
          valid w' o [x0; x3; x2] cap p /\ size o w' = Ok 3 w')) /\
  (Z.of_nat (length l) <= index -> remove_and_reorder o index w = AssertFailed).
Proof.
  intros Hv Hidx. split.
  - intros Hi.
    destruct (remove_and_reorder_ok w o l cap p index Hv ltac:(lia))
      as (w' & Hr & Hv' & _ & Hlog & _).
    assert (Hsize : size o w' = Ok (Z.of_nat (length l) - 1) w').
    { rewrite (size_valid _ _ _ _ _ Hv'). do 2 f_equal.
      destruct l as [|z l0 _] using rev_ind; [simpl in Hi; lia|].
      rewrite length_app. simpl.
      destruct (decide (Z.to_nat index < length l0)%nat).
      - rewrite reordered_snoc_inner, length_insert by lia. lia.
      - rewrite length_app in Hi. simpl in Hi.
        replace (Z.to_nat index) with (length l0) by lia.
        rewrite reordered_snoc_last. lia. }
    exists w'. split; [exact Hr|]. split; [exact Hsize|]. split; [|split].
    + intros i x Hx. eapply subscript_ok; [exact Hv'|exact Hx].
    + exact Hlog.
    + intros x0 x1 x2 x3 -> ->. split; [exact Hv'|exact Hsize].
  - intros Hi. eapply remove_and_reorder_out_of_range; [exact Hv|exact Hi].
Qed.

(** ** Tearing down and taking over storage *)

(** An object whose members exist and whose embedded buffer holds no live
    element: what a constructor starts from, and what
    [destruct_elements_and_free_memory] leaves. *)
Definition shell (w : world) (o : nat) : Prop :=
  (exists f, fields w o = Some f) /\
  exists sb, storage w (Inline o) = Some sb /\ Z.of_nat (length sb) = N /\
             Forall dead sb.

(** The state after [destruct_elements_and_free_memory]: the members are
    unchanged, so [m_elements] still points at the destructed elements
    (whose bytes are still in the embedded buffer) or at the released heap
    block. *)
Definition torn_down (w : world) (o : nat) (l : list T) (cap : Z) (p : ptr)
  : Prop :=
  fields w o = Some (p, Z.of_nat (length l), cap) /\
  shell w o /\
  (p = Inline o ->
     exists buf, storage w (Inline o) = Some buf /\
       forall j v, l !! j = Some v ->
         exists s, buf !! j = Some s /\ bytes s = Some v) /\
  (forall b, p = Heap b -> storage w (Heap b) = None).

Lemma new_object_ok w this :
  0 <= N ->
  exists w',
    new_object this w = Ok tt w' /\
    fields w' this = Some (Null, 0, N) /\ shell w' this /\
    oom_after w' = oom_after w /\ log w' = log w /\ heap w' = heap w /\
    frame w w' this Null.
Proof.
  intros HN. unfold new_object. eexists. split; [reflexivity|].
  assert (Hf : fields (World (<[this := Vec (replicate (Z.to_nat N) raw) Null 0 N]> (objs w))
                         (heap w) (oom_after w) (log w)) this = Some (Null, 0, N)).
  { unfold fields. simpl. rewrite lookup_insert_eq. reflexivity. }
  split; [exact Hf|]. split; [|split; [|split; [|split]]]; try reflexivity.
  - split; [eauto|]. exists (replicate (Z.to_nat N) raw). simpl.
    rewrite lookup_insert_eq. simpl. split; [reflexivity|]. split.
    + rewrite length_replicate. lia.
    + apply Forall_replicate. reflexivity.
  - split.
    + intros o' Ho'. unfold fields. simpl.
      rewrite lookup_insert_ne by congruence. reflexivity.
    + intros q bq _ Hqo Hsq. destruct q as [|o'|b]; simpl in *; try exact Hsq.
      rewrite lookup_insert_ne by congruence. exact Hsq.
Qed.

Lemma lookup_killed_prefix (buf : list slot) (l : list T) cap j v :
  holds buf l cap -> l !! j = Some v ->
  exists s, (take (length l) (kill <$> buf) ++ drop (length l) buf) !! j = Some s /\
            bytes s = Some v.
Proof.
  intros Hh Hv. destruct (holds_lookup _ _ _ _ _ Hh Hv) as (s & Hs & Hb).
  pose proof (lookup_lt_Some _ _ _ Hv) as Hj.
  pose proof (holds_size _ _ _ Hh) as Hsz.
  exists (kill s). split; [|exact Hb].
  rewrite lookup_app_l by (rewrite length_take, length_fmap; lia).
  rewrite lookup_take_lt by lia. rewrite list_lookup_fmap, Hs. reflexivity.
Qed.

Lemma destruct_elements_and_free_memory_ok w o l cap p :
  valid w o l cap p ->
  exists w',
    destruct_elements_and_free_memory o w = Ok tt w' /\
    torn_down w' o l cap p /\
    oom_after w' = oom_after w /\
    log w' = log w ++ replicate (length l) Destruct
                   ++ match p with Heap b => [Free b] | _ => [] end /\
    frame w w' o p.
Proof.
  intros Hv.
  destruct Hv as (Hf & (buf & Hst & Hh) & (sb & Hsb & Hsbl & Hsbd) & Hmode & Hcap).
  pose proof (holds_size _ _ _ Hh) as Hsz.
  unfold destruct_elements_and_free_memory.
  rewrite (bind_Ok _ _ _ _ _
    (destruct_elements_but_keep_memory_ok _ _ _ _ _ _ Hf Hst Hsz)).
  set (buf1 := take (length l) (kill <$> buf) ++ drop (length l) buf).
  set (W1 := rewritten Destruct p (kill <$> buf) buf w (length l)).
  assert (Hf1 : fields W1 o = Some (p, Z.of_nat (length l), cap)).
  { unfold W1. rewrite fields_rewritten. exact Hf. }
  assert (Hst1 : storage W1 p = Some buf1).
  { unfold W1. eapply storage_rewritten_eq. exact Hst. }
  assert (Hfr1 : frame w W1 o p).
  { split.
    - intros o' _. unfold W1. apply fields_rewritten.
    - intros q bq Hq _ Hsq. unfold W1.
      rewrite storage_rewritten_ne by congruence. exact Hsq. }
  rewrite (bind_Ok _ _ _ _ _ (is_small_ok _ _ _ _ _ Hf1)).
  destruct Hmode as [[-> ->]|[[b ->] HNc]].
  - rewrite bool_decide_eq_true_2 by reflexivity.
    exists W1. split; [reflexivity|]. split; [|split; [|split]].
    + split; [exact Hf1|]. split; [|split].
      * split; [eauto|]. exists buf1. split; [exact Hst1|]. split.
        -- unfold buf1. rewrite length_prefix_rest by (rewrite ?length_fmap; lia).
           rewrite Hsb in Hst. injection Hst as <-. exact Hsbl.
        -- eapply holds_all_dead. exact Hh.
      * intros _. exists buf1. split; [exact Hst1|].
        intros j v Hv. eapply lookup_killed_prefix; eauto.
      * intros b Hb. discriminate.
    + unfold W1. apply oom_rewritten.
    + unfold W1. rewrite log_rewritten, app_nil_r. reflexivity.
    + exact Hfr1.
  - rewrite bool_decide_eq_false_2 by congruence.
    rewrite (bind_Ok _ _ _ _ _ (begin_ok _ _ _ _ _ Hf1)).
    rewrite bool_decide_eq_false_2 by congruence.
    rewrite (free_ok _ _ _ Hst1).
    eexists. split; [reflexivity|]. split; [|split; [|split]].
    + split; [exact Hf1|]. split; [|split].
      * split; [eauto|]. exists sb. split; [|split; [exact Hsbl|apply Hsbd; congruence]].
        rewrite storage_upd_log, storage_del_block_ne by congruence.
        unfold W1. rewrite storage_rewritten_ne by congruence. exact Hsb.
      * intros Heq. discriminate.
      * intros b' [= <-]. rewrite storage_upd_log. apply storage_del_block_eq.
    + rewrite oom_upd_log, oom_del_block. unfold W1. apply oom_rewritten.
    + rewrite log_upd_log, log_del_block. unfold W1. rewrite log_rewritten.
      rewrite <- app_assoc. reflexivity.
    + destruct Hfr1 as [Hff Hfs]. split.
      * intros o' Ho'. rewrite fields_upd_log, fields_del_block. apply Hff, Ho'.
      * intros q bq Hq Hqo Hsq.
        rewrite storage_upd_log, storage_del_block_ne by congruence.
        apply Hfs; assumption.
Qed.

Lemma fields_upd_fields_any w o o' p n c f :
  fields w o' = Some f ->
  fields (upd_fields o p n c w) o' = Some (if decide (o = o') then (p, n, c) else f).
Proof.
  intros Hf. destruct (decide (o = o')) as [->|Hne].
  - eapply fields_upd_fields_eq. exact Hf.
  - rewrite fields_upd_fields_ne by exact Hne. exact Hf.
Qed.

(** [steal_from_other] when the source keeps its elements in its embedded
    buffer: they are move-constructed, one by one, into the embedded buffer
    of [this].  [this] and [other] may be the same object. *)
Lemma steal_from_other_inline w this other l cap f sbuf dbuf :
  fields w other = Some (Inline other, Z.of_nat (length l), cap) ->
  storage w (Inline other) = Some sbuf ->
  (forall j v, l !! j = Some v -> exists s, sbuf !! j = Some s /\ bytes s = Some v) ->
  fields w this = Some f ->
  storage w (Inline this) = Some dbuf ->
  (length l <= length dbuf)%nat ->
  exists w',
    steal_from_other this other w = Ok tt w' /\
    fields w' other = Some (Null, Z.of_nat (length l), cap) /\
    (this <> other ->
       fields w' this = Some (Inline this, Z.of_nat (length l), cap)) /\
    storage w' (Inline this) = Some ((live <$> l) ++ drop (length l) dbuf) /\
    log w' = log w ++ replicate (length l) MoveConstruct /\
    oom_after w' = oom_after w /\ heap w' = heap w /\
    (forall o', o' <> this -> o' <> other -> fields w' o' = fields w o') /\
    (forall q, q <> Inline this -> storage w' q = storage w q).
Proof.
  intros Hfo Hso Hread Hft Hdt Hlen.
  destruct f as [[pt nt] ct].
  unfold steal_from_other.
  rewrite (bind_Ok _ _ _ _ _ (is_small_ok _ _ _ _ _ Hfo)).
  rewrite bool_decide_eq_true_2 by reflexivity.
  set (W1 := rewritten MoveConstruct (Inline this) (live <$> l) dbuf w (length l)).
  assert (Hcopy : (first <- begin_ other ;;
                   n <- size other ;;
                   uninitialized_copy MoveConstruct first n (small_buffer this) ;;;
                   set_m_elements this (small_buffer this)) w
                  = Ok tt (upd_fields this (Inline this) nt ct W1)).
  { rewrite (bind_Ok _ _ _ _ _ (begin_ok _ _ _ _ _ Hfo)).
    rewrite (bind_Ok _ _ _ _ _ (size_ok _ _ _ _ _ Hfo)).
    erewrite bind_Ok;
      [|eapply (uninitialized_copy_ok MoveConstruct (Inline other) (Inline this)
                  w sbuf dbuf l); [exact Hso|exact Hdt| |exact Hread|exact Hlen]].
    - eapply set_m_elements_ok. unfold W1. rewrite fields_rewritten. exact Hft.
    - intros [= ->]. congruence. }
  rewrite (bind_Ok _ _ _ _ _ Hcopy).
  set (W2 := upd_fields this (Inline this) nt ct W1).
  assert (Hft2 : fields W2 this = Some (Inline this, nt, ct)).
  { eapply fields_upd_fields_eq. unfold W1. rewrite fields_rewritten. exact Hft. }
  assert (Hfo2 : exists po no, fields W2 other = Some (po, no, cap) /\ no = Z.of_nat (length l)).
  { unfold W2. erewrite fields_upd_fields_any
      by (unfold W1; rewrite fields_rewritten; exact Hfo).
    destruct (decide (this = other)) as [->|_]; [|eauto].
    rewrite Hfo in Hft. injection Hft as <- <- <-. eauto. }
  destruct Hfo2 as (po2 & no2 & Hfo2 & ->).
  rewrite (bind_Ok _ _ _ _ _ (capacity_ok _ _ _ _ _ Hfo2)).
  rewrite (bind_Ok _ _ _ _ _ (set_m_capacity_ok _ _ _ _ _ cap Hft2)).
  set (W3 := upd_fields this (Inline this) nt cap W2).
  assert (Hft3 : fields W3 this = Some (Inline this, nt, cap))
    by (eapply fields_upd_fields_eq; exact Hft2).
  assert (Hfo3 : exists po no, fields W3 other = Some (po, no, cap) /\ no = Z.of_nat (length l)).
  { unfold W3. erewrite fields_upd_fields_any by exact Hfo2.
    destruct (decide (this = other)) as [->|_]; [|eauto].
    rewrite Hfo2 in Hft2. injection Hft2 as <- <- <-. eauto. }
  destruct Hfo3 as (po3 & no3 & Hfo3 & ->).
  rewrite (bind_Ok _ _ _ _ _ (size_ok _ _ _ _ _ Hfo3)).
  rewrite (bind_Ok _ _ _ _ _ (set_m_size_ok _ _ _ _ _ (Z.of_nat (length l)) Hft3)).
  set (W4 := upd_fields this (Inline this) (Z.of_nat (length l)) cap W3).
  assert (Hft4 : fields W4 this = Some (Inline this, Z.of_nat (length l), cap))
    by (eapply fields_upd_fields_eq; exact Hft3).
  assert (Hfo4 : exists po, fields W4 other = Some (po, Z.of_nat (length l), cap)).
  { unfold W4. erewrite fields_upd_fields_any by exact Hfo3.
    destruct (decide (this = other)); eauto. }
  destruct Hfo4 as (po4 & Hfo4).
  rewrite (set_m_elements_ok _ _ _ _ _ Null Hfo4).
  eexists. split; [reflexivity|].
  split; [|split; [|split; [|split; [|split; [|split; [|split]]]]]].
  - eapply fields_upd_fields_eq. exact Hfo4.
  - intros Hne. rewrite fields_upd_fields_ne by congruence. exact Hft4.
  - unfold W4, W3, W2, W1. rewrite !storage_upd_fields.
    erewrite storage_rewritten_eq by exact Hdt.
    rewrite take_all_prefix. reflexivity.
  - unfold W4, W3, W2, W1. rewrite !log_upd_fields. apply log_rewritten.
  - unfold W4, W3, W2, W1. rewrite !oom_upd_fields. apply oom_rewritten.
  - reflexivity.
  - intros o' Hot Hoo. unfold W4, W3, W2, W1.
    rewrite !fields_upd_fields_ne by congruence. apply fields_rewritten.
  - intros q Hq. unfold W4, W3, W2, W1. rewrite !storage_upd_fields.
    apply storage_rewritten_ne. congruence.
Qed.

(** [steal_from_other] when the source does not point at its embedded
    buffer: the pointer is copied, no element is touched. *)
Lemma steal_from_other_pointer w this other p n cap f :
  fields w other = Some (p, n, cap) -> p <> Inline other ->
  fields w this = Some f ->
  exists w',
    steal_from_other this other w = Ok tt w' /\
    fields w' other = Some (Null, n, cap) /\
    (this <> other -> fields w' this = Some (p, n, cap)) /\
    log w' = log w /\ oom_after w' = oom_after w /\ heap w' = heap w /\
    (forall o', o' <> this -> o' <> other -> fields w' o' = fields w o') /\
    (forall q, storage w' q = storage w q).
Proof.
  intros Hfo Hp Hft. destruct f as [[pt nt] ct].
  unfold steal_from_other.
  rewrite (bind_Ok _ _ _ _ _ (is_small_ok _ _ _ _ _ Hfo)).
  rewrite bool_decide_eq_false_2 by exact Hp.
  assert (Hadopt : (q <- begin_ other ;; set_m_elements this q) w
                   = Ok tt (upd_fields this p nt ct w)).
  { rewrite (bind_Ok _ _ _ _ _ (begin_ok _ _ _ _ _ Hfo)).
    eapply set_m_elements_ok. exact Hft. }
  rewrite (bind_Ok _ _ _ _ _ Hadopt).
  set (W2 := upd_fields this p nt ct w).
  assert (Hft2 : fields W2 this = Some (p, nt, ct))
    by (eapply fields_upd_fields_eq; exact Hft).
  assert (Hfo2 : exists no, fields W2 other = Some (p, no, cap) /\ (this <> other -> no = n)
                            /\ (this = other -> no = nt /\ nt = n)).
  { unfold W2. erewrite fields_upd_fields_any by exact Hfo.
    destruct (decide (this = other)) as [->|Hne].
    - rewrite Hfo in Hft. injection Hft as <- <- <-. eexists. split; [reflexivity|].
      split; [congruence|auto].
    - eexists. split; [reflexivity|]. split; [auto|congruence]. }
  destruct Hfo2 as (no2 & Hfo2 & Hne2 & Heq2).
  rewrite (bind_Ok _ _ _ _ _ (capacity_ok _ _ _ _ _ Hfo2)).
  rewrite (bind_Ok _ _ _ _ _ (set_m_capacity_ok _ _ _ _ _ cap Hft2)).
  set (W3 := upd_fields this p nt cap W2).
  assert (Hft3 : fields W3 this = Some (p, nt, cap))
    by (eapply fields_upd_fields_eq; exact Hft2).
  assert (Hfo3 : fields W3 other = Some (p, n, cap)).
  { unfold W3. erewrite fields_upd_fields_any by exact Hfo2.
    destruct (decide (this = other)) as [Heq|Hne].
    - destruct (Heq2 Heq) as [_ ->]. reflexivity.
    - rewrite (Hne2 Hne). reflexivity. }
  rewrite (bind_Ok _ _ _ _ _ (size_ok _ _ _ _ _ Hfo3)).
  rewrite (bind_Ok _ _ _ _ _ (set_m_size_ok _ _ _ _ _ n Hft3)).
  set (W4 := upd_fields this p n cap W3).
  assert (Hft4 : fields W4 this = Some (p, n, cap))
    by (eapply fields_upd_fields_eq; exact Hft3).
  assert (Hfo4 : fields W4 other = Some (p, n, cap)).
  { unfold W4. erewrite fields_upd_fields_any by exact Hfo3.
    destruct (decide (this = other)); reflexivity. }
  rewrite (set_m_elements_ok _ _ _ _ _ Null Hfo4).
  eexists. split; [reflexivity|].
  split; [|split; [|split; [|split; [|split; [|split]]]]]; try reflexivity.
  - eapply fields_upd_fields_eq. exact Hfo4.
  - intros Hne. rewrite fields_upd_fields_ne by congruence. exact Hft4.
  - intros o' Hot Hoo. unfold W4, W3, W2.
    rewrite !fields_upd_fields_ne by congruence. reflexivity.
  - intros q. unfold W4, W3, W2. rewrite !storage_upd_fields. reflexivity.
Qed.

Lemma steal_from_other_valid w this other l cap p :
  shell w this -> valid w other l cap p -> this <> other ->
  exists w',
    steal_from_other this other w = Ok tt w' /\
    valid w' this l cap (match p with Heap b => Heap b | _ => Inline this end) /\
    fields w' other = Some (Null, Z.of_nat (length l), cap) /\
    log w' = log w ++ match p with
                      | Heap _ => []
                      | _ => replicate (length l) MoveConstruct
                      end /\
    oom_after w' = oom_after w /\ heap w' = heap w.
Proof.
  intros ([f Hft] & sb & Hsb & Hsbl & Hsbd) Hv Hne.
  pose proof (valid_length _ _ _ _ _ Hv) as Hlen.
  destruct Hv as (Hfo & (buf & Hst & Hh) & _ & Hmode & Hcap).
  destruct Hmode as [[-> ->]|[[b ->] HNc]].
  - destruct (steal_from_other_inline w this other l N f buf sb Hfo Hst)
      as (w' & Hs & Hfo' & Hft' & Hst' & Hlog & Hoom & Hheap & _).
    { intros j v Hv. eapply holds_lookup; eauto. }
    { exact Hft. }
    { exact Hsb. }
    { lia. }
    exists w'. split; [exact Hs|]. split; [|auto].
    split; [exact (Hft' Hne)|]. split; [|split; [|split]].
    + eexists. split; [exact Hst'|]. exists (drop (length l) sb).
      split; [reflexivity|]. split; [apply Forall_drop; exact Hsbd|].
      rewrite length_app, length_fmap, length_drop. lia.
    + eexists. split; [exact Hst'|]. split; [|congruence].
      rewrite length_app, length_fmap, length_drop. lia.
    + left. split; reflexivity.
    + exact Hcap.
  - destruct (steal_from_other_pointer w this other (Heap b) _ cap f Hfo ltac:(congruence) Hft)
      as (w' & Hs & Hfo' & Hft' & Hlog & Hoom & Hheap & _ & Hst').
    exists w'. split; [exact Hs|]. split; [|rewrite app_nil_r; auto].
    split; [exact (Hft' Hne)|]. split; [|split; [|split]].
    + exists buf. split; [rewrite Hst'; exact Hst|exact Hh].
    + exists sb. split; [rewrite Hst'; exact Hsb|]. split; [exact Hsbl|auto].
    + right. split; [eauto|exact HNc].
    + exact Hcap.
Qed.

Lemma SmallVector_destroy_moved_from w o n c :
  fields w o = Some (Null, n, c) ->
  SmallVector_destroy o w
  = Ok tt (World (delete o (objs w)) (heap w) (oom_after w) (log w)).
Proof.
  intros Hf. unfold SmallVector_destroy.
  rewrite (bind_Ok _ _ _ _ _ (begin_ok _ _ _ _ _ Hf)).
  rewrite bool_decide_eq_true_2 by reflexivity. reflexivity.
Qed.

Lemma SmallVector_destroy_valid w o l cap p :
  valid w o l cap p ->
  exists w',
    SmallVector_destroy o w = Ok tt w' /\
    objs w' !! o = None /\
    log w' = log w ++ replicate (length l) Destruct
                   ++ match p with Heap b => [Free b] | _ => [] end.
Proof.
  intros Hv.
  destruct (destruct_elements_and_free_memory_ok w o l cap p Hv)
    as (w1 & Ht & _ & _ & Hlog & _).
  destruct Hv as (Hf & _ & _ & Hmode & _).
  unfold SmallVector_destroy.
  rewrite (bind_Ok _ _ _ _ _ (begin_ok _ _ _ _ _ Hf)).
  rewrite bool_decide_eq_false_2
    by (destruct Hmode as [[-> _]|[[b ->] _]]; congruence).
  rewrite (bind_Ok _ _ _ _ _ Ht).
  eexists. split; [reflexivity|]. simpl. split; [apply lookup_delete_eq|exact Hlog].
Qed.

(** What a move leaves behind, from the store [w0] in which
    [steal_from_other b a] starts to the store [w'] in which it ends: [b]
    holds the elements [l] with capacity [cap]; an inline source costs one
    move construction per element, a heap source none, its block being
    adopted; [a] has a null [m_elements] while its [m_size] and
    [m_capacity] still read as before; destroying [a] then touches no
    element and releases nothing. *)
Definition moved (w0 w' : world) (a b : nat) (l : list T) (cap : Z) (p : ptr)
  : Prop :=
  valid w' b l cap (match p with Heap blk => Heap blk | _ => Inline b end) /\
  capacity b w' = Ok cap w' /\
  log w' = log w0 ++ match p with
                     | Heap _ => []
                     | _ => replicate (length l) MoveConstruct
                     end /\
  heap w' = heap w0 /\
  begin_ a w' = Ok Null w' /\
  size a w' = Ok (Z.of_nat (length l)) w' /\
  capacity a w' = Ok cap w' /\
  exists w'', SmallVector_destroy a w' = Ok tt w'' /\
              log w'' = log w' /\ heap w'' = heap w'.

Lemma steal_from_other_moved w this other l cap p :
  shell w this -> valid w other l cap p -> this <> other ->
  exists w', steal_from_other this other w = Ok tt w' /\
             moved w w' other this l cap p.
Proof.
  intros Hsh Hv Hne.
  destruct (steal_from_other_valid w this other l cap p Hsh Hv Hne)
    as (w' & Hs & Hv' & Hfo & Hlog & _ & Hheap).
  exists w'. split; [exact Hs|].
  split; [exact Hv'|]. split; [eapply capacity_valid; exact Hv'|].
  split; [exact Hlog|]. split; [exact Hheap|].
  split; [eapply begin_ok; exact Hfo|]. split; [eapply size_ok; exact Hfo|].
  split; [eapply capacity_ok; exact Hfo|].
  eexists. split; [eapply SmallVector_destroy_moved_from; exact Hfo|].
  split; reflexivity.
Qed.

Lemma assign_move_valid w a b l cap p :
  valid w a l cap p -> a <> b ->
  forall lb cb pb, valid w b lb cb pb -> pb <> p ->
  exists w',
    assign_move b a w = Ok tt w' /\
    valid w' b l cap (match p with Heap blk => Heap blk | _ => Inline b end).
Proof.
  intros Hv Hab lb cb pb Hvb Hpb.
  destruct (destruct_elements_and_free_memory_ok w b lb cb pb Hvb)
    as (w1 & Ht & (_ & Hsh & _) & _ & _ & Hfr).
  assert (Hv1 : valid w1 a l cap p).
  { eapply valid_frame; [exact Hfr|exact Hab|congruence| |exact Hv].
    destruct Hvb as (_ & _ & _ & Hmode & _).
    destruct Hmode as [[-> _]|[[blk ->] _]]; congruence. }
  destruct (steal_from_other_valid w1 b a l cap p Hsh Hv1 ltac:(congruence))
    as (w' & Hs & Hv' & _).
  exists w'. split; [|exact Hv'].
  unfold assign_move. rewrite (bind_Ok _ _ _ _ _ Ht). exact Hs.
Qed.

Lemma SmallVector_move_ok w a b l cap p :
  valid w a l cap p -> a <> b ->
  exists w', SmallVector_move b a w = Ok tt w' /\ moved w w' a b l cap p.
Proof.
  intros Hv Hab. pose proof (valid_N _ _ _ _ _ Hv) as HN.
  destruct (new_object_ok w b ltac:(lia))
    as (w0 & Hn & _ & Hsh & _ & Hlog0 & Hheap0 & Hfr).
  assert (Hv0 : valid w0 a l cap p).
  { eapply valid_frame; [exact Hfr|exact Hab| | |exact Hv];
      destruct Hv as (_ & _ & _ & Hmode & _);
      destruct Hmode as [[-> _]|[[blk ->] _]]; congruence. }
  destruct (steal_from_other_moved w0 b a l cap p Hsh Hv0 ltac:(congruence))
    as (w' & Hs & Hm).
  exists w'. split.
  - unfold SmallVector_move. rewrite (bind_Ok _ _ _ _ _ Hn). exact Hs.
  - unfold moved in *. rewrite Hlog0, Hheap0 in Hm. exact Hm.
Qed.

(** X20. Moving from a valid container [a] into [b], by the move
    constructor or by move assignment: an inline-mode [a] has
    each live element move-constructed into [b]'s embedded buffer; a
    heap-mode [a] hands its block to [b] with no element move, and [b]'s
    capacity is [a]'s; in both cases [a] ends with a null [m_elements] and
    its [m_size] unchanged, and destroying it is a no-op. *)
Theorem move_transfers_storage (w : world) (a b : nat) (l : list T) (cap : Z)
    (p : ptr) :
  valid w a l cap p -> a <> b ->
  (exists w', SmallVector_move b a w = Ok tt w' /\ moved w w' a b l cap p) /\
  (forall lb cb pb, valid w b lb cb pb -> pb <> p ->
     exists w1 w',
       destruct_elements_and_free_memory b w = Ok tt w1 /\
       assign_move b a w = Ok tt w' /\
       moved w1 w' a b l cap p).
Proof.
  intros Hv Hab. pose proof (valid_N _ _ _ _ _ Hv) as HN.
  assert (Hpa : forall q, q = Null \/ q = Inline b \/ (exists blk, q = Heap blk /\ q <> p) ->
                          p <> q /\ Inline a <> q).
  { intros q Hq. destruct Hv as (_ & _ & _ & Hmode & _).
    destruct Hmode as [[-> _]|[[blk ->] _]];
      destruct Hq as [->|[->|(blk' & -> & Hne)]]; split; congruence. }
  split.
  - destruct (new_object_ok w b ltac:(lia)) as (w0 & Hn & _ & Hsh & _ & Hlog0 & Hheap0 & Hfr).
    assert (Hv0 : valid w0 a l cap p).
    { destruct (Hpa Null) as [? ?]; [auto|].
      eapply valid_frame; [exact Hfr|exact Hab|assumption|assumption|exact Hv]. }
    destruct (steal_from_other_moved w0 b a l cap p Hsh Hv0 ltac:(congruence))
      as (w' & Hs & Hm).
    exists w'. split.
    + unfold SmallVector_move. rewrite (bind_Ok _ _ _ _ _ Hn). exact Hs.
    + unfold moved in *. rewrite Hlog0, Hheap0 in Hm. exact Hm.
  - intros lb cb pb Hvb Hpb.
    destruct (destruct_elements_and_free_memory_ok w b lb cb pb Hvb)
      as (w1 & Ht & (_ & Hsh & _) & _ & _ & Hfr).
    assert (Hv1 : valid w1 a l cap p).
    { destruct (Hpa pb) as [? ?].
      { destruct Hvb as (_ & _ & _ & Hmode & _).
        destruct Hmode as [[-> _]|[[blk ->] _]]; eauto. }
      eapply valid_frame; [exact Hfr|exact Hab|assumption|assumption|exact Hv]. }
    destruct (steal_from_other_moved w1 b a l cap p Hsh Hv1 ltac:(congruence))
      as (w' & Hs & Hm).
    exists w1, w'. split; [exact Ht|]. split; [|exact Hm].
    unfold assign_move. rewrite (bind_Ok _ _ _ _ _ Ht). exact Hs.
Qed.

(** C10. Move assignment has no self-assignment guard, copy assignment
    has: [a = a] (copy) changes nothing, while [a = std::move(a)] on a valid
    container destructs every live element, releases the heap block if
    there is one, then steals from the storage just torn down (for an inline
    container that is one move construction per destructed element) and
    ends with [m_elements] null, [m_size] and [m_capacity] as before. *)
Theorem self_move_assignment (w : world) (a : nat) (l : list T) (cap : Z)
    (p : ptr) :
  valid w a l cap p ->
  assign_copy a a w = Ok tt w /\
  exists w',
    assign_move a a w = Ok tt w' /\
    begin_ a w' = Ok Null w' /\
    size a w' = Ok (Z.of_nat (length l)) w' /\
    capacity a w' = Ok cap w' /\
    log w' = log w ++ replicate (length l) Destruct
                   ++ match p with
                      | Heap b => [Free b]
                      | _ => replicate (length l) MoveConstruct
                      end /\
    (forall b, p = Heap b -> heap w' !! b = None).
Proof.
  intros Hv. split.
  { unfold assign_copy. rewrite bool_decide_eq_true_2 by reflexivity. reflexivity. }
  pose proof (valid_length _ _ _ _ _ Hv) as Hlen.
  destruct (destruct_elements_and_free_memory_ok w a l cap p Hv)
    as (w1 & Ht & (Hf1 & Hsh1 & Hin1 & Hhp1) & _ & Hlog1 & _).
  destruct Hv as (_ & _ & _ & Hmode & _).
  unfold assign_move. rewrite (bind_Ok _ _ _ _ _ Ht).
  destruct Hmode as [[-> ->]|[[b ->] HNc]].
  - destruct (Hin1 eq_refl) as (buf & Hbuf & Hread).
    destruct Hsh1 as (_ & sb & Hsb & Hsbl & _).
    rewrite Hbuf in Hsb. injection Hsb as <-.
    destruct (steal_from_other_inline w1 a a l N _ buf buf Hf1 Hbuf Hread Hf1 Hbuf
                ltac:(lia))
      as (w' & Hs & Hfo & _ & _ & Hlog & _ & _).
    exists w'. split; [exact Hs|].
    split; [eapply begin_ok; exact Hfo|]. split; [eapply size_ok; exact Hfo|].
    split; [eapply capacity_ok; exact Hfo|]. split; [|intros b0 Hb0; discriminate].
    rewrite Hlog, Hlog1, app_nil_r, <- app_assoc. reflexivity.
  - destruct (steal_from_other_pointer w1 a a (Heap b) _ cap _ Hf1 ltac:(congruence) Hf1)
      as (w' & Hs & Hfo & _ & Hlog & _ & Hheap & _ & Hst).
    exists w'. split; [exact Hs|].
    split; [eapply begin_ok; exact Hfo|]. split; [eapply size_ok; exact Hfo|].
    split; [eapply capacity_ok; exact Hfo|]. split.
    + rewrite Hlog, Hlog1. reflexivity.
    + intros b0 [= <-]. rewrite Hheap. exact (Hhp1 b eq_refl).
Qed.

(** ** Copying *)

(** Where a copy of a container with storage pointer [p] keeps its
    elements, and what the copy costs. *)
Definition copy_target (w : world) (this : nat) (p : ptr) : ptr :=
  match p with
  | Heap _ => Heap (fresh (dom (heap w)))
  | _ => Inline this
  end.

Definition copy_events (w : world) (p : ptr) (cap : Z) (n : nat) : list event :=
  match p with
  | Heap _ => [Malloc (fresh (dom (heap w))) cap]
  | _ => []
  end ++ replicate n CopyConstruct.

Lemma copy_from_other_ok w this other l cap p :
  shell w this -> valid w other l cap p -> this <> other ->
  oom_after w = None ->
  exists w',
    copy_from_other this other w = Ok tt w' /\
    valid w' this l cap (copy_target w this p) /\
    valid w' other l cap p /\
    log w' = log w ++ copy_events w p cap (length l) /\
    oom_after w' = None.
Proof.
  intros ([[[pt nt] ct] Hft] & sb & Hsb & Hsbl & Hsbd) Hv Hne Hoom.
  pose proof (valid_length _ _ _ _ _ Hv) as Hlen.
  pose proof (valid_N _ _ _ _ _ Hv) as HN.
  pose proof Hv as (Hfo & (buf & Hst & Hh) & _ & Hmode & Hcap).
  unfold copy_from_other, copy_target, copy_events.
  rewrite (bind_Ok _ _ _ _ _ (is_small_ok _ _ _ _ _ Hfo)).
  (* the store [W1] after the destination pointer is chosen, and the
     blank destination buffer [dbuf] behind it *)
  assert (Hdest : exists W1 dbuf,
    let p' := match p with Heap _ => Heap (fresh (dom (heap w))) | _ => Inline this end in
    (if bool_decide (p = Inline other)
     then set_m_elements this (small_buffer this)
     else c <- capacity other ;; q <- malloc c ;; set_m_elements this q) w
      = Ok tt W1 /\
    fields W1 this = Some (p', nt, ct) /\
    fields W1 other = Some (p, Z.of_nat (length l), cap) /\
    storage W1 p' = Some dbuf /\ Z.of_nat (length dbuf) = cap /\ Forall dead dbuf /\
    storage W1 p = Some buf /\ p <> p' /\
    storage W1 (Inline this) = Some sb /\
    storage W1 (Inline other) = storage w (Inline other) /\
    oom_after W1 = None /\
    log W1 = log w ++ match p with
                      | Heap _ => [Malloc (fresh (dom (heap w))) cap]
                      | _ => []
                      end).
  { destruct Hmode as [[-> ->]|[[b ->] HNc]].
    - rewrite bool_decide_eq_true_2 by reflexivity.
      exists (upd_fields this (Inline this) nt ct w), sb. cbv zeta.
      split; [eapply set_m_elements_ok; exact Hft|].
      split; [eapply fields_upd_fields_eq; exact Hft|].
      split; [rewrite fields_upd_fields_ne by exact Hne; exact Hfo|].
      rewrite !storage_upd_fields, app_nil_r.
      repeat split; try assumption; try congruence.
    - rewrite bool_decide_eq_false_2 by congruence.
      set (b' := fresh (dom (heap w))).
      set (blank := replicate (Z.to_nat cap) raw).
      set (W0 := upd_log [Malloc b' cap] (upd_storage (Heap b') blank w)).
      assert (Hb' : storage w (Heap b') = None) by apply fresh_block_unused.
      exists (upd_fields this (Heap b') nt ct W0), blank. cbv zeta.
      split.
      { rewrite (bind_Ok _ _ _ _ _ (capacity_ok _ _ _ _ _ Hfo)).
        rewrite (bind_Ok _ _ _ _ _ (malloc_ok w cap Hoom)).
        eapply set_m_elements_ok. unfold W0.
        rewrite fields_upd_log, fields_upd_storage. exact Hft. }
      split; [eapply fields_upd_fields_eq; unfold W0;
              rewrite fields_upd_log, fields_upd_storage; exact Hft|].
      split; [rewrite fields_upd_fields_ne by exact Hne; exact Hfo|].
      rewrite !storage_upd_fields. unfold W0. rewrite !storage_upd_log.
      split; [simpl; apply lookup_insert_eq|].
      split; [unfold blank; rewrite length_replicate; lia|].
      split; [apply Forall_replicate; reflexivity|].
      split; [rewrite storage_upd_storage_ne by congruence; exact Hst|].
      split; [congruence|].
      split; [rewrite storage_upd_storage_ne by congruence; exact Hsb|].
      split; [rewrite storage_upd_storage_ne by congruence; reflexivity|].
      split; [exact Hoom|reflexivity]. }
  destruct Hdest as (W1 & dbuf & Hrun & Hft1 & Hfo1 & Hd1 & Hdl & Hdd & Hs1 & Hpp
                     & Hsb1 & Hso1 & Hoom1 & Hlog1).
  set (p' := match p with Heap _ => Heap (fresh (dom (heap w))) | _ => Inline this end) in *.
  cbv zeta in Hrun. rewrite (bind_Ok _ _ _ _ _ Hrun).
  rewrite (bind_Ok _ _ _ _ _ (begin_ok _ _ _ _ _ Hfo1)).
  rewrite (bind_Ok _ _ _ _ _ (size_ok _ _ _ _ _ Hfo1)).
  rewrite (bind_Ok _ _ _ _ _ (begin_ok _ _ _ _ _ Hft1)).
  erewrite bind_Ok;
    [|eapply (uninitialized_copy_ok CopyConstruct p p' W1 buf dbuf l);
      [exact Hs1|exact Hd1|congruence|intros; eapply holds_lookup; eauto|lia]].
  set (W2 := rewritten CopyConstruct p' (live <$> l) dbuf W1 (length l)).
  assert (Hft2 : fields W2 this = Some (p', nt, ct))
    by (unfold W2; rewrite fields_rewritten; exact Hft1).
  assert (Hfo2 : fields W2 other = Some (p, Z.of_nat (length l), cap))
    by (unfold W2; rewrite fields_rewritten; exact Hfo1).
  rewrite (bind_Ok _ _ _ _ _ (capacity_ok _ _ _ _ _ Hfo2)).
  rewrite (bind_Ok _ _ _ _ _ (set_m_capacity_ok _ _ _ _ _ cap Hft2)).
  set (W3 := upd_fields this p' nt cap W2).
  assert (Hft3 : fields W3 this = Some (p', nt, cap))
    by (eapply fields_upd_fields_eq; exact Hft2).
  assert (Hfo3 : fields W3 other = Some (p, Z.of_nat (length l), cap))
    by (unfold W3; rewrite fields_upd_fields_ne by exact Hne; exact Hfo2).
  rewrite (bind_Ok _ _ _ _ _ (size_ok _ _ _ _ _ Hfo3)).
  rewrite (set_m_size_ok _ _ _ _ _ (Z.of_nat (length l)) Hft3).
  assert (Hstore : forall q,
            storage (upd_fields this p' (Z.of_nat (length l)) cap W3) q
            = storage W2 q).
  { intros q. unfold W3. rewrite !storage_upd_fields. reflexivity. }
  assert (Hnew : storage W2 p' = Some ((live <$> l) ++ drop (length l) dbuf)).
  { unfold W2. erewrite storage_rewritten_eq by exact Hd1.
    rewrite take_all_prefix. reflexivity. }
  eexists. split; [reflexivity|]. split; [|split; [|split]].
  - split; [|split; [|split; [|split]]].
    + eapply fields_upd_fields_eq. exact Hft3.
    + eexists. split; [rewrite Hstore; exact Hnew|].
      exists (drop (length l) dbuf). split; [reflexivity|].
      split; [apply Forall_drop; exact Hdd|].
      rewrite length_app, length_fmap, length_drop. lia.
    + destruct (decide (p' = Inline this)) as [Heq|Hneq].
      * eexists. rewrite Hstore, <- Heq. split; [exact Hnew|]. split; [|congruence].
        rewrite length_app, length_fmap, length_drop.
        rewrite Heq, Hsb1 in Hd1. injection Hd1 as <-. lia.
      * exists sb. rewrite Hstore. unfold W2.
        rewrite storage_rewritten_ne by exact Hneq.
        split; [exact Hsb1|]. split; [exact Hsbl|intros _; exact Hsbd].
    + unfold p'. destruct Hmode as [[-> ->]|[[b ->] HNc]].
      * left. split; reflexivity.
      * right. split; [eauto|exact HNc].
    + exact Hcap.
  - destruct Hv as (_ & _ & (sbo & Hsbo & Hsbol & Hsbod) & _ & _).
    assert (Hpo : p' <> Inline other).
    { unfold p'. destruct p; congruence. }
    split; [|split; [|split; [|split]]].
    + rewrite fields_upd_fields_ne by exact Hne. exact Hfo3.
    + exists buf. split; [|exact Hh]. rewrite Hstore. unfold W2.
      rewrite storage_rewritten_ne by congruence. exact Hs1.
    + exists sbo. rewrite Hstore. unfold W2.
      rewrite storage_rewritten_ne by exact Hpo. rewrite Hso1.
      split; [exact Hsbo|]. split; assumption.
    + exact Hmode.
    + exact Hcap.
  - rewrite log_upd_fields. unfold W3. rewrite log_upd_fields. unfold W2.
    rewrite log_rewritten, Hlog1, <- app_assoc. reflexivity.
  - rewrite oom_upd_fields. unfold W3. rewrite oom_upd_fields. unfold W2.
    rewrite oom_rewritten. exact Hoom1.
Qed.

Lemma SmallVector_copy_ok w this other l cap p :
  valid w other l cap p -> this <> other -> oom_after w = None ->
  exists w',
    SmallVector_copy this other w = Ok tt w' /\
    valid w' this l cap (copy_target w this p) /\
    valid w' other l cap p /\
    log w' = log w ++ copy_events w p cap (length l) /\
    oom_after w' = None.
Proof.
  intros Hv Hne Hoom. pose proof (valid_N _ _ _ _ _ Hv) as HN.
  destruct (new_object_ok w this ltac:(lia))
    as (w0 & Hn & _ & Hsh & Hoom0 & Hlog0 & Hheap0 & Hfr).
  assert (Hv0 : valid w0 other l cap p).
  { destruct Hv as (Hf & Hst & Hown & Hmode & Hc).
    eapply valid_frame; [exact Hfr|congruence| | |repeat split; eassumption];
      destruct Hmode as [[-> _]|[[b ->] _]]; congruence. }
  destruct (copy_from_other_ok w0 this other l cap p Hsh Hv0 Hne)
    as (w' & Hc & Hvt & Hvo & Hlog & Hoom').
  { rewrite Hoom0. exact Hoom. }
  exists w'. unfold SmallVector_copy. rewrite (bind_Ok _ _ _ _ _ Hn).
  unfold copy_target, copy_events in *. rewrite Hheap0, Hlog0 in *.
  repeat (split; [assumption|]). assumption.
Qed.

Lemma assign_copy_ok w this other lt ct pt l cap p :
  valid w this lt ct pt -> valid w other l cap p ->
  this <> other -> pt <> p -> oom_after w = None ->
  exists w' p',
    assign_copy this other w = Ok tt w' /\
    valid w' this l cap p' /\ valid w' other l cap p /\ oom_after w' = None.
Proof.
  intros Hvt Hvo Hne Hpp Hoom.
  destruct (destruct_elements_and_free_memory_ok w this lt ct pt Hvt)
    as (w1 & Ht & (_ & Hsh & _) & Hoom1 & _ & Hfr).
  assert (Hv1 : valid w1 other l cap p).
  { eapply valid_frame; [exact Hfr|congruence|congruence| |exact Hvo].
    destruct Hvt as (_ & _ & _ & Hmode & _).
    destruct Hmode as [[-> _]|[[b ->] _]]; congruence. }
  destruct (copy_from_other_ok w1 this other l cap p Hsh Hv1 Hne)
    as (w' & Hc & Hvt' & Hvo' & _ & Hoom').
  { rewrite Hoom1. exact Hoom. }
  exists w', (copy_target w1 this p). split; [|auto].
  unfold assign_copy. rewrite bool_decide_eq_false_2 by exact Hne.
  rewrite (bind_Ok _ _ _ _ _ Ht). exact Hc.
Qed.

(** ** The sized and the initializer-list constructor *)

Lemma default_then_reserve_ok w this sz :
  0 <= N < uint_modulus -> sz < uint_modulus -> oom_after w = None ->
  exists w1 p1,
    (SmallVector_default this ;;; reserve this sz) w = Ok tt w1 /\
    valid w1 this [] (Z.max N sz) p1 /\ oom_after w1 = None /\
    (sz <= N -> p1 = Inline this /\ log w1 = log w).
Proof.
  intros HN Hsz Hoom.
  destruct (SmallVector_default_ok w this HN) as (w0 & Hd & Hv0 & Hoom0 & Hlog0 & _).
  rewrite (bind_Ok _ _ _ _ _ Hd). unfold reserve.
  destruct (Z.le_gt_cases sz N) as [Hfit|Hbig].
  - exists w0, (Inline this). pose proof Hv0 as (Hf & _).
    rewrite (grow_noop _ _ _ _ _ _ Hf Hfit).
    rewrite Z.max_l by lia. split; [reflexivity|]. split; [exact Hv0|].
    split; [congruence|]. intros _. split; [reflexivity|exact Hlog0].
  - destruct (grow_ok w0 this [] N (Inline this) sz Hv0 ltac:(lia))
      as (w1 & Hg & Hv1 & Hoom1 & _).
    { rewrite Hoom0. exact Hoom. }
    exists w1, (Heap (fresh (dom (heap w0)))).
    rewrite Z.max_r by lia. split; [exact Hg|]. split; [exact Hv1|].
    split; [exact Hoom1|]. intros ?. lia.
Qed.

Lemma for_upto_append_move_ok v n : forall i w o l cap p,
  valid w o l cap p -> oom_after w = None ->
  Z.of_nat (length l) + Z.of_nat n <= 2 ^ 31 \/
  Z.of_nat (length l) + Z.of_nat n <= cap ->
  exists w' p',
    for_upto i n (fun _ => append_move o (Temp v)) w = Ok tt w' /\
    valid w' o (l ++ replicate n v)
          (capacity_after_appends cap (Z.of_nat (length l)) n) p' /\
    oom_after w' = None /\
    (Z.of_nat (length l) + Z.of_nat n <= cap ->
       p' = p /\ log w' = log w ++ replicate n MoveConstruct).
Proof.
  induction n as [|n IH]; intros i w o l cap p Hv Hoom Hlen; simpl.
  - exists w, p. rewrite !app_nil_r.
    split; [reflexivity|]. split; [exact Hv|]. split; [exact Hoom|]. auto.
  - pose proof (valid_N _ _ _ _ _ Hv) as HN.
    pose proof (capacity_after_append_ge cap (Z.of_nat (length l)) ltac:(lia)) as Hge.
    destruct (append_with_ok MoveConstruct w o l cap p v Hv Hoom ltac:(lia))
      as (w1 & Ha & Hv1 & Hoom1 & Hlog1 & _).
    rewrite append_move_unfold, (bind_Ok _ _ _ _ _ Ha).
    destruct (IH (i + 1) _ _ _ _ _ Hv1 Hoom1) as (w' & p' & Hr & Hv' & Hoom' & Hfit).
    { rewrite length_app. simpl. lia. }
    exists w', p'. split; [exact Hr|]. split.
    + rewrite <- app_assoc in Hv'. simpl in Hv'.
      rewrite length_app in Hv'. simpl in Hv'.
      replace (Z.of_nat (length l + 1)) with (Z.of_nat (length l) + 1) in Hv' by lia.
      exact Hv'.
    + split; [exact Hoom'|]. intros Hroom.
      rewrite capacity_after_append_room in Hfit by lia.
      destruct Hfit as [-> Hlog'].
      { rewrite length_app. simpl. lia. }
      destruct (Z.leb_spec cap (Z.of_nat (length l))) as [|_]; [lia|].
      split; [reflexivity|].
      rewrite Hlog', Hlog1 by lia. rewrite <- app_assoc. reflexivity.
Qed.

Lemma SmallVector_sized_ok w this sz :
  0 <= N < uint_modulus -> 0 <= sz < uint_modulus -> oom_after w = None ->
  exists w' p',
    SmallVector_sized this sz w = Ok tt w' /\
    valid w' this (replicate (Z.to_nat sz) T_default) (Z.max N sz) p' /\
    (sz <= N ->
       p' = Inline this /\
       log w' = log w ++ replicate (Z.to_nat sz) MoveConstruct).
Proof.
  intros HN Hsz Hoom.
  destruct (default_then_reserve_ok w this sz HN ltac:(lia) Hoom)
    as (w1 & p1 & Hr & Hv1 & Hoom1 & Hfit1).
  destruct (for_upto_append_move_ok T_default (Z.to_nat sz) 0 w1 this [] _ p1 Hv1 Hoom1)
    as (w' & p' & Hl & Hv' & _ & Hfit').
  { simpl. lia. }
  exists w', p'. split; [|split].
  - unfold SmallVector_sized.
    change (SmallVector_default this ;;; reserve this sz ;;;
            for_upto 0 (Z.to_nat sz) (fun _ => append_move this (Temp T_default)))
      with (bind (SmallVector_default this)
              (fun _ => bind (reserve this sz)
                          (fun _ => for_upto 0 (Z.to_nat sz)
                                      (fun _ => append_move this (Temp T_default))))).
    unfold bind in Hr |- *. destruct (SmallVector_default this w); try discriminate.
    rewrite Hr. exact Hl.
  - simpl in Hv'. rewrite capacity_after_appends_room in Hv' by (simpl; lia).
    exact Hv'.
  - intros Hfit. destruct (Hfit1 Hfit) as [-> Hlog1].
    destruct Hfit' as [-> Hlog']; [simpl; lia|].
    split; [reflexivity|]. rewrite Hlog', Hlog1. reflexivity.
Qed.

Lemma SmallVector_list_ok w this values :
  0 <= N < uint_modulus -> Z.of_nat (length values) < uint_modulus ->
  oom_after w = None ->
  exists w' p',
    SmallVector_list this values w = Ok tt w' /\
    valid w' this values (Z.max N (Z.of_nat (length values))) p' /\
    (Z.of_nat (length values) <= N ->
       p' = Inline this /\
       log w' = log w ++ replicate (length values) CopyConstruct).
Proof.
  intros HN Hsz Hoom.
  destruct (default_then_reserve_ok w this (Z.of_nat (length values)) HN Hsz Hoom)
    as (w1 & p1 & Hr & Hv1 & Hoom1 & Hfit1).
  destruct (for_each_append_ok values w1 this [] _ p1 Hv1 Hoom1)
    as (w' & p' & Hl & Hv' & _ & Hfit').
  { simpl. lia. }
  exists w', p'. split; [|split].
  - unfold SmallVector_list. rewrite to_uint_small by lia.
    unfold bind in Hr |- *. destruct (SmallVector_default this w); try discriminate.
    rewrite Hr. exact Hl.
  - simpl in Hv'. rewrite capacity_after_appends_room in Hv' by (simpl; lia).
    exact Hv'.
  - intros Hfit. destruct (Hfit1 Hfit) as [-> Hlog1].
    destruct Hfit' as [-> Hlog']; [simpl; lia|].
    split; [reflexivity|]. rewrite Hlog', Hlog1. reflexivity.
Qed.

(** ** [extend] and [fill] *)

Lemma valid_read w o l cap p j v :
  valid w o l cap p -> l !! j = Some v -> read_value p (Z.of_nat j) w = Ok v w.
Proof.
  intros (_ & (buf & Hst & Hh) & _) Hv.
  destruct (holds_lookup _ _ _ _ _ Hh Hv) as (s & Hs & Hb).
  eapply read_value_ok; [exact Hst|lia| |exact Hb]. rewrite Nat2Z.id. exact Hs.
Qed.

Lemma extend_loop_ok b lb cb pb a la k : forall j w ca pa,
  valid w a (la ++ take j lb) ca pa -> valid w b lb cb pb ->
  a <> b -> pa <> pb -> oom_after w = None ->
  (j + k = length lb)%nat ->
  Z.of_nat (length la) + Z.of_nat (length lb) <= 2 ^ 31 ->
  exists w' ca' pa',
    for_upto (Z.of_nat j) k (fun i => append a (Elem pb i)) w = Ok tt w' /\
    valid w' a (la ++ lb) ca' pa' /\ valid w' b lb cb pb /\
    ca <= ca' /\ oom_after w' = None.
Proof.
  induction k as [|k IH]; intros j w ca pa Hva Hvb Hab Hpp Hoom Hjk Hlen; simpl.
  - rewrite take_ge in Hva by lia.
    exists w, ca, pa. split; [reflexivity|]. split; [exact Hva|].
    split; [exact Hvb|]. split; [lia|exact Hoom].
  - destruct (lookup_lt_is_Some_2 lb j ltac:(lia)) as [x Hx].
    pose proof (valid_N _ _ _ _ _ Hva) as HN.
    assert (Hla : length (la ++ take j lb) = (length la + j)%nat).
    { rewrite length_app, length_take. lia. }
    assert (Hroom : Z.of_nat (length (la ++ take j lb)) < 2 ^ 31 \/
                    Z.of_nat (length (la ++ take j lb)) < ca).
    { rewrite Hla. lia. }
    destruct (append_with_ok CopyConstruct w a _ ca pa x Hva Hoom Hroom)
      as (w1 & Ha & Hva1 & Hoom1 & _ & Hfr).
    assert (Hbody : append a (Elem pb (Z.of_nat j)) w = Ok tt w1).
    { rewrite <- Ha.
      apply (run_append_ok w a _ ca pa (ByCopy (Elem pb (Z.of_nat j))) x
               Hva Hoom Hroom).
      exact (valid_bound_outside w a pa b lb cb pb j x Hvb Hab Hpp Hx). }
    rewrite (bind_Ok _ _ _ _ _ Hbody).
    rewrite <- app_assoc, <- (take_S_r lb j x Hx) in Hva1.
    assert (Hvb1 : valid w1 b lb cb pb).
    { eapply valid_frame; [exact Hfr|congruence|congruence| |exact Hvb].
      destruct Hva as (_ & _ & _ & Hmode & _).
      destruct Hmode as [[-> _]|[[blk ->] _]]; congruence. }
    assert (Hpp1 : (if ca <=? Z.of_nat (length (la ++ take j lb))
                    then Heap (fresh (dom (heap w))) else pa) <> pb).
    { destruct (ca <=? _); [|exact Hpp].
      intros <-. destruct Hvb as (_ & (buf & Hst & _) & _).
      rewrite fresh_block_unused in Hst. discriminate. }
    replace (Z.of_nat j + 1) with (Z.of_nat (S j)) by lia.
    destruct (IH (S j) w1 _ _ Hva1 Hvb1 Hab Hpp1 Hoom1 ltac:(lia) Hlen)
      as (w' & ca' & pa' & Hr & Hva' & Hvb' & Hca & Hoom').
    exists w', ca', pa'. split; [exact Hr|]. split; [exact Hva'|].
    split; [exact Hvb'|]. split; [|exact Hoom'].
    pose proof (capacity_after_append_ge ca (Z.of_nat (length (la ++ take j lb)))
                  ltac:(lia)). lia.
Qed.

Lemma extend_ok w a b la ca pa lb cb pb :
  valid w a la ca pa -> valid w b lb cb pb ->
  a <> b -> pa <> pb -> oom_after w = None ->
  Z.of_nat (length la) + Z.of_nat (length lb) <= 2 ^ 31 ->
  exists w' ca' pa',
    extend a b w = Ok tt w' /\
    valid w' a (la ++ lb) ca' pa' /\ valid w' b lb cb pb /\
    ca <= ca' /\ oom_after w' = None.
Proof.
  intros Hva Hvb Hab Hpp Hoom Hlen. pose proof Hvb as (Hfb & _).
  unfold extend.
  rewrite (bind_Ok _ _ _ _ _ (begin_ok _ _ _ _ _ Hfb)).
  rewrite (bind_Ok _ _ _ _ _ (size_ok _ _ _ _ _ Hfb)).
  rewrite Nat2Z.id.
  apply (extend_loop_ok b lb cb pb a la (length lb) 0%nat w ca pa);
    try assumption; [|lia].
  simpl. rewrite take_0, app_nil_r. exact Hva.
Qed.

Lemma fill_loop_ok o cap p v k : forall j w l,
  valid w o l cap p -> (j + k <= length l)%nat ->
  exists w',
    for_upto (Z.of_nat j) k
      (fun i => q <- begin_ o ;; assign_at CopyAssign q i v) w = Ok tt w' /\
    valid w' o (take j l ++ replicate k v ++ drop (j + k) l) cap p /\
    oom_after w' = oom_after w.
Proof.
  induction k as [|k IH]; intros j w l Hv Hjk; simpl.
  - exists w. rewrite Nat.add_0_r, take_drop. auto.
  - destruct (lookup_lt_is_Some_2 l j ltac:(lia)) as [y Hy].
    destruct (valid_assign w o l cap p CopyAssign j y v Hv Hy)
      as (w1 & Ha & Hv1 & Hoom1 & _).
    rewrite (bind_Ok _ _ _ _ _ Ha).
    replace (Z.of_nat j + 1) with (Z.of_nat (S j)) by lia.
    destruct (IH (S j) w1 _ Hv1) as (w' & Hr & Hv' & Hoom').
    { rewrite length_insert. lia. }
    exists w'. split; [exact Hr|]. split; [|congruence].
    replace (take (S j) (<[j := v]> l)) with (take j l ++ [v]) in Hv'.
    + rewrite drop_insert_lt in Hv' by lia.
      rewrite <- app_assoc in Hv'. simpl in Hv'.
      replace (j + S k)%nat with (S j + k)%nat by lia. exact Hv'.
    + rewrite (take_S_r (<[j := v]> l) j v).
      * rewrite take_insert_ge by lia. reflexivity.
      * apply list_lookup_insert_eq. lia.
Qed.

Lemma fill_ok w o l cap p v :
  valid w o l cap p ->
  exists w',
    fill o v w = Ok tt w' /\
    valid w' o (replicate (length l) v) cap p /\
    oom_after w' = oom_after w.
Proof.
  intros Hv. pose proof Hv as (Hf & _). unfold fill.
  rewrite (bind_Ok _ _ _ _ _ (size_ok _ _ _ _ _ Hf)). rewrite Nat2Z.id.
  destruct (fill_loop_ok o cap p v (length l) 0%nat w l Hv ltac:(lia))
    as (w' & Hr & Hv' & Hoom').
  exists w'. split; [exact Hr|]. split; [|exact Hoom'].
  simpl in Hv'. rewrite drop_all, app_nil_r in Hv'. exact Hv'.
Qed.

(** ** When [std::malloc] returns null *)

Lemma construct_at_null kind i v w : construct_at kind Null i v w = Fault.
Proof.
  unfold construct_at, store.
  rewrite (bind_Fault _ _ _ (bind_Fault _ _ _ (load_null w i))). reflexivity.
Qed.

Lemma uninitialized_copy_to_null kind first w buf l cap :
  storage w first = Some buf -> holds buf l cap ->
  uninitialized_copy kind first (Z.of_nat (length l)) Null w
  = match l with [] => Ok tt w | _ :: _ => Fault end.
Proof.
  intros Hst Hh. unfold uninitialized_copy. rewrite Nat2Z.id.
  destruct l as [|x l]; [reflexivity|]. simpl.
  destruct (holds_lookup buf (x :: l) cap 0%nat x Hh eq_refl) as (s & Hs & Hb).
  assert (Hbody : (v <- read_value first 0 ;; construct_at kind Null 0 v) w = Fault).
  { erewrite bind_Ok; [|eapply read_value_ok; [exact Hst|lia|exact Hs|exact Hb]].
    apply construct_at_null. }
  rewrite (bind_Fault _ _ _ Hbody). reflexivity.
Qed.

Lemma grow_alloc_failure w o l cap p minc :
  valid w o l cap p -> cap < minc -> oom_after w = Some O ->
  match l with
  | [] =>
      exists w',
        grow o minc w = Ok tt w' /\
        fields w' o = Some (Null, 0, minc) /\
        log w' = log w ++ [MallocFailed minc]
                       ++ match p with Heap b => [Free b] | _ => [] end
  | _ :: _ => grow o minc w = Fault
  end.
Proof.
  intros Hv Hc Hoom.
  destruct Hv as (Hf & (buf & Hst & Hh) & _ & Hmode & _).
  set (W1 := upd_fields o p (Z.of_nat (length l)) minc w).
  set (W2 := upd_log [MallocFailed minc] W1).
  assert (Hf2 : fields W2 o = Some (p, Z.of_nat (length l), minc)).
  { unfold W2. rewrite fields_upd_log. eapply fields_upd_fields_eq. exact Hf. }
  assert (Hst2 : storage W2 p = Some buf).
  { unfold W2, W1. rewrite storage_upd_log, storage_upd_fields. exact Hst. }
  assert (Hprefix :
    grow o minc w
    = bind (uninitialized_copy MoveConstruct p (Z.of_nat (length l)) Null)
        (fun _ =>
           destruct_elements_but_keep_memory o ;;;
           small <- is_small o ;;
           (if small then ret tt else q <- begin_ o ;; free q) ;;;
           set_m_elements o Null) W2).
  { unfold grow.
    rewrite (bind_Ok _ _ _ _ _ (capacity_ok _ _ _ _ _ Hf)).
    destruct (Z.leb_spec minc cap) as [|_]; [lia|].
    rewrite (bind_Ok _ _ _ _ _ (set_m_capacity_ok _ _ _ _ _ minc Hf)).
    assert (Hf1 : fields W1 o = Some (p, Z.of_nat (length l), minc))
      by (eapply fields_upd_fields_eq; exact Hf).
    rewrite (bind_Ok _ _ _ _ _ (capacity_ok _ _ _ _ _ Hf1)).
    rewrite (bind_Ok _ _ _ _ _ (malloc_failed W1 minc Hoom)).
    rewrite (bind_Ok _ _ _ _ _ (begin_ok _ _ _ _ _ Hf2)).
    rewrite (bind_Ok _ _ _ _ _ (size_ok _ _ _ _ _ Hf2)). reflexivity. }
  rewrite Hprefix. clear Hprefix.
  pose proof (uninitialized_copy_to_null MoveConstruct p W2 buf l cap Hst2 Hh) as Hcopy.
  destruct l as [|x l].
  - rewrite (bind_Ok _ _ _ _ _ Hcopy).
    rewrite (bind_Ok _ _ _ _ _
      (destruct_elements_but_keep_memory_ok W2 o p 0 minc buf Hf2 Hst2 ltac:(lia))).
    rewrite (rewritten_zero _ _ _ _ _ Hst2).
    rewrite (bind_Ok _ _ _ _ _ (is_small_ok _ _ _ _ _ Hf2)).
    destruct Hmode as [[-> _]|[[b ->] _]].
    + rewrite bool_decide_eq_true_2 by reflexivity.
      rewrite (bind_Ok _ _ _ tt W2 eq_refl).
      rewrite (set_m_elements_ok _ _ _ _ _ Null Hf2).
      eexists. split; [reflexivity|]. split.
      * eapply fields_upd_fields_eq. exact Hf2.
      * rewrite app_nil_r. reflexivity.
    + rewrite bool_decide_eq_false_2 by congruence.
      assert (Hfree : (q <- begin_ o ;; free q) W2
                      = Ok tt (upd_log [Free b] (del_block b W2))).
      { rewrite (bind_Ok _ _ _ _ _ (begin_ok _ _ _ _ _ Hf2)).
        exact (free_ok _ _ _ Hst2). }
      rewrite (bind_Ok _ _ _ _ _ Hfree).
      assert (Hf3 : fields (upd_log [Free b] (del_block b W2)) o
                    = Some (Heap b, Z.of_nat 0, minc)) by exact Hf2.
      rewrite (set_m_elements_ok _ _ _ _ _ Null Hf3).
      eexists. split; [reflexivity|]. split.
      * eapply fields_upd_fields_eq. exact Hf3.
      * simpl. rewrite <- app_assoc. reflexivity.
  - rewrite (bind_Fault _ _ _ Hcopy). reflexivity.
Qed.

Lemma copy_alloc_failure w this other l cap b :
  shell w this -> valid w other l cap (Heap b) -> this <> other ->
  oom_after w = Some O ->
  match l with
  | [] =>
      exists w',
        copy_from_other this other w = Ok tt w' /\
        fields w' this = Some (Null, 0, cap) /\
        log w' = log w ++ [MallocFailed cap]
  | _ :: _ => copy_from_other this other w = Fault
  end.
Proof.
  intros ([[[pt nt] ct] Hft] & _) Hv Hne Hoom.
  destruct Hv as (Hfo & (buf & Hst & Hh) & _).
  set (W1 := upd_log [MallocFailed cap] w).
  set (W2 := upd_fields this Null nt ct W1).
  assert (Hft2 : fields W2 this = Some (Null, nt, ct)).
  { eapply fields_upd_fields_eq. unfold W1. rewrite fields_upd_log. exact Hft. }
  assert (Hfo2 : fields W2 other = Some (Heap b, Z.of_nat (length l), cap)).
  { unfold W2. rewrite fields_upd_fields_ne by exact Hne. exact Hfo. }
  assert (Hst2 : storage W2 (Heap b) = Some buf).
  { unfold W2, W1. rewrite storage_upd_fields, storage_upd_log. exact Hst. }
  assert (Hchoose : (c <- capacity other ;; q <- malloc c ;; set_m_elements this q) w
                    = Ok tt W2).
  { rewrite (bind_Ok _ _ _ _ _ (capacity_ok _ _ _ _ _ Hfo)).
    rewrite (bind_Ok _ _ _ _ _ (malloc_failed w cap Hoom)).
    eapply set_m_elements_ok. unfold W1. rewrite fields_upd_log. exact Hft. }
  unfold copy_from_other.
  rewrite (bind_Ok _ _ _ _ _ (is_small_ok _ _ _ _ _ Hfo)).
  rewrite bool_decide_eq_false_2 by congruence.
  rewrite (bind_Ok _ _ _ _ _ Hchoose).
  rewrite (bind_Ok _ _ _ _ _ (begin_ok _ _ _ _ _ Hfo2)).
  rewrite (bind_Ok _ _ _ _ _ (size_ok _ _ _ _ _ Hfo2)).
  rewrite (bind_Ok _ _ _ _ _ (begin_ok _ _ _ _ _ Hft2)).
  pose proof (uninitialized_copy_to_null CopyConstruct (Heap b) W2 buf l cap Hst2 Hh)
    as Hcopy.
  destruct l as [|x l].
  - rewrite (bind_Ok _ _ _ _ _ Hcopy).
    rewrite (bind_Ok _ _ _ _ _ (capacity_ok _ _ _ _ _ Hfo2)).
    rewrite (bind_Ok _ _ _ _ _ (set_m_capacity_ok _ _ _ _ _ cap Hft2)).
    set (W3 := upd_fields this Null nt cap W2).
    assert (Hft3 : fields W3 this = Some (Null, nt, cap))
      by (eapply fields_upd_fields_eq; exact Hft2).
    assert (Hfo3 : fields W3 other = Some (Heap b, Z.of_nat 0, cap))
      by (unfold W3; rewrite fields_upd_fields_ne by exact Hne; exact Hfo2).
    rewrite (bind_Ok _ _ _ _ _ (size_ok _ _ _ _ _ Hfo3)).
    rewrite (set_m_size_ok _ _ _ _ _ (Z.of_nat 0) Hft3).
    eexists. split; [reflexivity|]. split.
    + eapply fields_upd_fields_eq. exact Hft3.
    + reflexivity.
  - rewrite (bind_Fault _ _ _ Hcopy). reflexivity.
Qed.

(** C4 (as the code has it). No assertion guards the result of
    [std::malloc]. When the allocation fails, [grow] and the copy
    constructor never stop at an assertion: on an empty container they
    return normally, leaving [m_elements] null next to the newly recorded
    capacity; with at least one live element the first relocation (or copy)
    writes through the null pointer, which is an invalid access. *)
Theorem allocation_failure_unchecked (w : world) (o : nat) (l : list T)
    (cap : Z) (p : ptr) :
  valid w o l cap p -> oom_after w = Some O ->
  (forall min_capacity, cap < min_capacity ->
     grow o min_capacity w <> AssertFailed /\
     (l = [] ->
        exists w', grow o min_capacity w = Ok tt w' /\
                   begin_ o w' = Ok Null w' /\
                   capacity o w' = Ok min_capacity w') /\
     (l <> [] -> grow o min_capacity w = Fault)) /\
  (forall this, this <> o -> (exists b, p = Heap b) ->
     SmallVector_copy this o w <> AssertFailed /\
     (l = [] ->
        exists w', SmallVector_copy this o w = Ok tt w' /\
                   begin_ this w' = Ok Null w' /\
                   capacity this w' = Ok cap w') /\
     (l <> [] -> SmallVector_copy this o w = Fault)).
Proof.
  intros Hv Hoom. split.
  - intros minc Hc.
    pose proof (grow_alloc_failure w o l cap p minc Hv Hc Hoom) as Hg.
    destruct l as [|x l].
    + destruct Hg as (w' & Hg & Hf & _). split; [congruence|]. split; [|congruence].
      intros _. exists w'. split; [exact Hg|].
      split; [eapply begin_ok|eapply capacity_ok]; exact Hf.
    + split; [congruence|]. split; [discriminate|]. intros _. exact Hg.
  - intros this Hne [b ->].
    pose proof (valid_N _ _ _ _ _ Hv) as HN.
    destruct (new_object_ok w this ltac:(lia))
      as (w0 & Hn & _ & Hsh & Hoom0 & _ & _ & Hfr).
    assert (Hv0 : valid w0 o l cap (Heap b)).
    { eapply valid_frame; [exact Hfr|congruence|congruence|congruence|exact Hv]. }
    pose proof (copy_alloc_failure w0 this o l cap b Hsh Hv0 Hne
                  ltac:(rewrite Hoom0; exact Hoom)) as Hc.
    unfold SmallVector_copy. rewrite (bind_Ok _ _ _ _ _ Hn).
    destruct l as [|x l].
    + destruct Hc as (w' & Hc & Hf & _). split; [congruence|]. split; [|congruence].
      intros _. exists w'. split; [exact Hc|].
      split; [eapply begin_ok|eapply capacity_ok]; exact Hf.
    + split; [congruence|]. split; [discriminate|]. intros _. exact Hc.
Qed.

(** ** Capacity *)

(** [capacity >= max(N, length)], read through the accessors. *)
Definition capacity_invariant (w : world) (o : nat) : Prop :=
  exists n c, size o w = Ok n w /\ capacity o w = Ok c w /\ Z.max N n <= c.

(** The capacity of [o] in [w'] is at least what it was in [w]. *)
Definition capacity_kept (w w' : world) (o : nat) : Prop :=
  exists c c', capacity o w = Ok c w /\ capacity o w' = Ok c' w' /\ c <= c'.

Lemma valid_capacity_invariant w o l cap p :
  valid w o l cap p -> capacity_invariant w o.
Proof.
  intros Hv. exists (Z.of_nat (length l)), cap.
  split; [eapply size_valid; exact Hv|]. split; [eapply capacity_valid; exact Hv|].
  pose proof (valid_N _ _ _ _ _ Hv). pose proof (valid_length _ _ _ _ _ Hv). lia.
Qed.

Lemma valid_capacity_kept w w' o l cap p l' cap' p' :
  valid w o l cap p -> valid w' o l' cap' p' -> cap <= cap' ->
  capacity_kept w w' o /\ capacity_invariant w' o.
Proof.
  intros Hv Hv' Hc. split; [|eapply valid_capacity_invariant; exact Hv'].
  exists cap, cap'. split; [eapply capacity_valid; exact Hv|].
  split; [eapply capacity_valid; exact Hv'|exact Hc].
Qed.

(** C5 (as the code has it). With an allocator that does not fail: each
    of the five constructors establishes [capacity >= max(N, length)], the
    copy and the move constructor by taking the capacity of their source;
    on a valid container [reserve], [append] (either overload, at a length
    below 2^31, on an object outside the container), [extend] (from another
    container, the two lengths adding up to at most 2^31), [remove_last]
    (not empty), [remove_and_reorder] (index in range) and [fill] never
    lower the capacity and keep that invariant; copy and move assignment
    from another container replace the capacity of the target by that of
    the source, whatever it was, and keep the invariant. *)
Theorem capacity_never_shrinks_but_by_assignment :
  0 <= N < uint_modulus ->
  (forall w this, exists w',
     SmallVector_default this w = Ok tt w' /\ capacity_invariant w' this) /\
  (forall w this sz, oom_after w = None -> 0 <= sz < uint_modulus ->
     exists w', SmallVector_sized this sz w = Ok tt w' /\
                capacity_invariant w' this) /\
  (forall w this values, oom_after w = None ->
     Z.of_nat (length values) < uint_modulus ->
     exists w', SmallVector_list this values w = Ok tt w' /\
                capacity_invariant w' this) /\
  (forall w this other l cap p, valid w other l cap p -> this <> other ->
     oom_after w = None ->
     exists w', SmallVector_copy this other w = Ok tt w' /\
                capacity this w' = Ok cap w' /\ capacity_invariant w' this) /\
  (forall w this other l cap p, valid w other l cap p -> this <> other ->
     exists w', SmallVector_move this other w = Ok tt w' /\
                capacity this w' = Ok cap w' /\ capacity_invariant w' this) /\
  (forall w o l cap p, valid w o l cap p -> oom_after w = None ->
     (forall sz, sz < uint_modulus ->
        exists w', reserve o sz w = Ok tt w' /\
                   capacity_kept w w' o /\ capacity_invariant w' o) /\
     (forall c x, Z.of_nat (length l) < 2 ^ 31 ->
        bound_outside w o p (call_ref c) x ->
        exists w', run_append o c w = Ok tt w' /\
                   capacity_kept w w' o /\ capacity_invariant w' o) /\
     (forall other lb cb pb, valid w other lb cb pb -> o <> other -> p <> pb ->
        Z.of_nat (length l) + Z.of_nat (length lb) <= 2 ^ 31 ->
        exists w', extend o other w = Ok tt w' /\
                   capacity_kept w w' o /\ capacity_invariant w' o) /\
     (l <> [] ->
        exists w', remove_last o w = Ok tt w' /\
                   capacity_kept w w' o /\ capacity_invariant w' o) /\
     (forall index, 0 <= index < Z.of_nat (length l) ->
        exists w', remove_and_reorder o index w = Ok tt w' /\
                   capacity_kept w w' o /\ capacity_invariant w' o) /\
     (forall value,
        exists w', fill o value w = Ok tt w' /\
                   capacity_kept w w' o /\ capacity_invariant w' o) /\
     (forall other lb cb pb, valid w other lb cb pb -> o <> other -> p <> pb ->
        (exists w', assign_copy o other w = Ok tt w' /\
                    capacity o w' = Ok cb w' /\ capacity_invariant w' o) /\
        (exists w', assign_move o other w = Ok tt w' /\
                    capacity o w' = Ok cb w' /\ capacity_invariant w' o))).
Proof.
  intros HN. split; [|split; [|split; [|split; [|split]]]].
  - intros w this. destruct (SmallVector_default_ok w this HN) as (w' & Hd & Hv & _).
    exists w'. split; [exact Hd|]. eapply valid_capacity_invariant. exact Hv.
  - intros w this sz Hoom Hsz.
    destruct (SmallVector_sized_ok w this sz HN Hsz Hoom) as (w' & p' & Hs & Hv & _).
    exists w'. split; [exact Hs|]. eapply valid_capacity_invariant. exact Hv.
  - intros w this values Hoom Hlen.
    destruct (SmallVector_list_ok w this values HN Hlen Hoom) as (w' & p' & Hs & Hv & _).
    exists w'. split; [exact Hs|]. eapply valid_capacity_invariant. exact Hv.
  - intros w this other l cap p Hv Hne Hoom.
    destruct (SmallVector_copy_ok w this other l cap p Hv Hne Hoom)
      as (w' & Hc & Hvt & _).
    exists w'. split; [exact Hc|]. split; [eapply capacity_valid; exact Hvt|].
    eapply valid_capacity_invariant. exact Hvt.
  - intros w this other l cap p Hv Hne.
    destruct (SmallVector_move_ok w other this l cap p Hv ltac:(congruence))
      as (w' & Hm & Hvt & _).
    exists w'. split; [exact Hm|]. split; [eapply capacity_valid; exact Hvt|].
    eapply valid_capacity_invariant. exact Hvt.
  - intros w o l cap p Hv Hoom.
    pose proof (valid_N _ _ _ _ _ Hv) as HNc.
    split; [|split; [|split; [|split; [|split; [|split]]]]].
    + intros sz Hsz. unfold reserve. destruct (Z.le_gt_cases sz cap) as [Hfit|Hbig].
      * pose proof Hv as (Hf & _). exists w.
        split; [eapply grow_noop; [exact Hf|exact Hfit]|].
        eapply valid_capacity_kept; [exact Hv|exact Hv|lia].
      * destruct (grow_ok w o l cap p sz Hv ltac:(lia) Hoom) as (w' & Hg & Hv' & _).
        exists w'. split; [exact Hg|].
        eapply valid_capacity_kept; [exact Hv|exact Hv'|lia].
    + intros c x Hlen Hb.
      destruct (append_with_ok (call_kind c) w o l cap p x Hv Hoom ltac:(lia))
        as (w' & Ha & Hv' & _).
      rewrite <- (run_append_ok w o l cap p c x Hv Hoom ltac:(lia) Hb) in Ha.
      exists w'. split; [exact Ha|].
      eapply valid_capacity_kept; [exact Hv|exact Hv'|].
      apply capacity_after_append_ge. lia.
    + intros other lb cb pb Hvb Hne Hpp Hlen.
      destruct (extend_ok w o other l cap p lb cb pb Hv Hvb Hne Hpp Hoom Hlen)
        as (w' & ca' & pa' & He & Hv' & _ & Hc & _).
      exists w'. split; [exact He|].
      eapply valid_capacity_kept; [exact Hv|exact Hv'|exact Hc].
    + intros Hl. destruct l as [|z l0 _] using rev_ind; [congruence|].
      destruct (remove_last_ok w o l0 z cap p Hv) as (w' & Hr & Hv' & _).
      exists w'. split; [exact Hr|].
      eapply valid_capacity_kept; [exact Hv|exact Hv'|lia].
    + intros index Hi.
      destruct (remove_and_reorder_ok w o l cap p index Hv Hi) as (w' & Hr & Hv' & _).
      exists w'. split; [exact Hr|].
      eapply valid_capacity_kept; [exact Hv|exact Hv'|lia].
    + intros value. destruct (fill_ok w o l cap p value Hv) as (w' & Hr & Hv' & _).
      exists w'. split; [exact Hr|].
      eapply valid_capacity_kept; [exact Hv|exact Hv'|lia].
    + intros other lb cb pb Hvb Hne Hpp. split.
      * destruct (assign_copy_ok w o other l cap p lb cb pb Hv Hvb Hne Hpp Hoom)
          as (w' & p' & Ha & Hv' & _).
        exists w'. split; [exact Ha|]. split; [eapply capacity_valid; exact Hv'|].
        eapply valid_capacity_invariant. exact Hv'.
      * destruct (assign_move_valid w other o lb cb pb Hvb ltac:(congruence)
                    l cap p Hv Hpp) as (w' & Ha & Hv').
        exists w'. split; [exact Ha|]. split; [eapply capacity_valid; exact Hv'|].
        eapply valid_capacity_invariant. exact Hv'.
Qed.

(** ** Storage mode *)

Lemma is_small_valid w o l cap p :
  valid w o l cap p -> is_small o w = Ok (bool_decide (p = Inline o)) w.
Proof. intros (Hf & _). eapply is_small_ok. exact Hf. Qed.

(** C6 (as the code has it). The default, sized and initializer-list
    constructors with [length <= N] leave the container in its embedded
    buffer and never call [std::malloc]; a copy-constructed container is
    inline exactly when its source is, and otherwise allocates one block,
    whatever the length; a valid container with more than [N] elements is
    in heap mode, and [remove_last] never changes the storage mode. *)
Theorem inline_storage_policy :
  0 <= N < uint_modulus ->
  (forall w this, exists w',
     SmallVector_default this w = Ok tt w' /\
     is_small this w' = Ok true w' /\ log w' = log w) /\
  (forall w this sz, oom_after w = None -> 0 <= sz <= N ->
     exists w',
       SmallVector_sized this sz w = Ok tt w' /\
       is_small this w' = Ok true w' /\ size this w' = Ok sz w' /\
       log w' = log w ++ replicate (Z.to_nat sz) MoveConstruct) /\
  (forall w this values, oom_after w = None ->
     Z.of_nat (length values) <= N ->
     exists w',
       SmallVector_list this values w = Ok tt w' /\
       is_small this w' = Ok true w' /\
       size this w' = Ok (Z.of_nat (length values)) w' /\
       log w' = log w ++ replicate (length values) CopyConstruct) /\
  (forall w this other l cap p, valid w other l cap p -> this <> other ->
     oom_after w = None ->
     exists w' small,
       SmallVector_copy this other w = Ok tt w' /\
       is_small other w = Ok small w /\
       is_small this w' = Ok small w' /\
       size this w' = Ok (Z.of_nat (length l)) w' /\
       log w' = log w
                ++ (if small then [] else [Malloc (fresh (dom (heap w))) cap])
                ++ replicate (length l) CopyConstruct) /\
  (forall w o l cap p, valid w o l cap p -> N < Z.of_nat (length l) ->
     is_small o w = Ok false w) /\
  (forall w o l z cap p, valid w o (l ++ [z]) cap p ->
     exists w' small,
       is_small o w = Ok small w /\
       remove_last o w = Ok tt w' /\
       is_small o w' = Ok small w').
Proof.
  intros HN. split; [|split; [|split; [|split; [|split]]]].
  - intros w this.
    destruct (SmallVector_default_ok w this HN) as (w' & Hd & Hv & _ & Hlog & _).
    exists w'. split; [exact Hd|]. split; [|exact Hlog].
    rewrite (is_small_valid _ _ _ _ _ Hv), bool_decide_eq_true_2 by reflexivity.
    reflexivity.
  - intros w this sz Hoom Hsz.
    destruct (SmallVector_sized_ok w this sz HN ltac:(lia) Hoom)
      as (w' & p' & Hs & Hv & Hfit).
    destruct (Hfit ltac:(lia)) as [-> Hlog].
    exists w'. split; [exact Hs|]. split; [|split; [|exact Hlog]].
    + rewrite (is_small_valid _ _ _ _ _ Hv), bool_decide_eq_true_2 by reflexivity.
      reflexivity.
    + rewrite (size_valid _ _ _ _ _ Hv), length_replicate. do 2 f_equal. lia.
  - intros w this values Hoom Hlen.
    destruct (SmallVector_list_ok w this values HN ltac:(lia) Hoom)
      as (w' & p' & Hs & Hv & Hfit).
    destruct (Hfit Hlen) as [-> Hlog].
    exists w'. split; [exact Hs|]. split; [|split; [|exact Hlog]].
    + rewrite (is_small_valid _ _ _ _ _ Hv), bool_decide_eq_true_2 by reflexivity.
      reflexivity.
    + eapply size_valid. exact Hv.
  - intros w this other l cap p Hv Hne Hoom.
    destruct (SmallVector_copy_ok w this other l cap p Hv Hne Hoom)
      as (w' & Hc & Hvt & _ & Hlog & _).
    exists w', (bool_decide (p = Inline other)).
    split; [exact Hc|]. split; [eapply is_small_valid; exact Hv|].
    split; [|split; [eapply size_valid; exact Hvt|]].
    + rewrite (is_small_valid _ _ _ _ _ Hvt). do 2 f_equal.
      destruct Hv as (_ & _ & _ & Hmode & _).
      destruct Hmode as [[-> _]|[[b ->] _]]; unfold copy_target.
      * rewrite !bool_decide_eq_true_2 by reflexivity. reflexivity.
      * rewrite !bool_decide_eq_false_2 by congruence. reflexivity.
    + rewrite Hlog. unfold copy_events.
      destruct Hv as (_ & _ & _ & Hmode & _).
      destruct Hmode as [[-> _]|[[b ->] _]].
      * rewrite bool_decide_eq_true_2 by reflexivity. reflexivity.
      * rewrite bool_decide_eq_false_2 by congruence. reflexivity.
  - intros w o l cap p Hv Hlen.
    pose proof (valid_length _ _ _ _ _ Hv) as Hl.
    rewrite (is_small_valid _ _ _ _ _ Hv).
    destruct Hv as (_ & _ & _ & Hmode & _).
    destruct Hmode as [[-> ->]|[[b ->] _]]; [lia|].
    rewrite bool_decide_eq_false_2 by congruence. reflexivity.
  - intros w o l z cap p Hv.
    destruct (remove_last_ok w o l z cap p Hv) as (w' & Hr & Hv' & _).
    exists w', (bool_decide (p = Inline o)).
    split; [eapply is_small_valid; exact Hv|]. split; [exact Hr|].
    eapply is_small_valid. exact Hv'.
Qed.

(** * Further properties of the container *)

(** ** Element access *)

(** X1. [operator[]] on a valid container of at most 2^31 elements, for
    every [int] index: inside [0, length) it returns the element at that
    position and leaves the store as it is; a negative index or one at or
    beyond the length stops at the assertion. *)
Theorem subscript_checks_range (w : world) (o : nat) (l : list T) (cap : Z)
    (p : ptr) (i : Z) :
  valid w o l cap p -> Z.of_nat (length l) <= 2 ^ 31 ->
  - 2 ^ 31 <= i < 2 ^ 31 ->
  (0 <= i < Z.of_nat (length l) ->
     exists x, l !! Z.to_nat i = Some x /\ subscript o i w = Ok x w) /\
  (i < 0 \/ Z.of_nat (length l) <= i -> subscript o i w = AssertFailed).
Proof.
  intros Hv Hlen Hi. split.
  - intros Hin.
    destruct (lookup_lt_is_Some_2 l (Z.to_nat i) ltac:(lia)) as [x Hx].
    exists x. split; [exact Hx|].
    rewrite <- (Z2Nat.id i) at 1 by lia.
    eapply subscript_ok; [exact Hv|exact Hx].
  - intros Hout. eapply subscript_out_of_range; [exact Hv|].
    unfold to_uint. rewrite uint_modulus_eq.
    destruct Hout as [Hneg|Hbig].
    + rewrite <- (Z.mod_unique i 4294967296 (-1) (i + 4294967296)) by lia. lia.
    + rewrite Z.mod_small by lia. exact Hbig.
Qed.

(** ** Growth keeps the elements *)

(** X2. [reserve(m)] with [m] above the capacity moves the container to a
    new heap block: the length and every element are as before, the cost is
    one allocation, one move construction and one destruction per element,
    and the release of the old block if there was one. *)
Theorem reserve_relocates_elements (w : world) (o : nat) (l : list T) (cap : Z)
    (p : ptr) (min_capacity : Z) :
  valid w o l cap p -> oom_after w = None ->
  cap < min_capacity < uint_modulus ->
  exists w',
    reserve o min_capacity w = Ok tt w' /\
    size o w' = Ok (Z.of_nat (length l)) w' /\
    (forall i x, l !! i = Some x -> subscript o (Z.of_nat i) w' = Ok x w') /\
    is_small o w' = Ok false w' /\
    log w' = log w ++ [Malloc (fresh (dom (heap w))) min_capacity]
                   ++ replicate (length l) MoveConstruct
                   ++ replicate (length l) Destruct
                   ++ match p with Heap b0 => [Free b0] | _ => [] end.
Proof.
  intros Hv Hoom Hc.
  destruct (grow_ok w o l cap p min_capacity Hv Hc Hoom)
    as (w' & Hg & Hv' & _ & Hlog & _).
  exists w'. split; [exact Hg|]. split; [eapply size_valid; exact Hv'|].
  split; [intros i x Hx; eapply subscript_ok; [exact Hv'|exact Hx]|].
  split; [|exact Hlog].
  rewrite (is_small_valid _ _ _ _ _ Hv').
  rewrite bool_decide_eq_false_2 by congruence. reflexivity.
Qed.

(** ** What the constructors build *)

(** X3. [SmallVector(size)] holds [size] copies of [T()], and its capacity
    is exactly [max(N, size)]: the explicit [reserve] sizes the storage, so
    no append of the loop grows it. *)
Theorem sized_constructor_contents (w : world) (this : nat) (sz : Z) :
  0 <= N < uint_modulus -> 0 <= sz < uint_modulus -> oom_after w = None ->
  exists w',
    SmallVector_sized this sz w = Ok tt w' /\
    size this w' = Ok sz w' /\
    capacity this w' = Ok (Z.max N sz) w' /\
    (forall i, 0 <= i < sz -> subscript this i w' = Ok T_default w').
Proof.
  intros HN Hsz Hoom.
  destruct (SmallVector_sized_ok w this sz HN Hsz Hoom) as (w' & p' & Hs & Hv & _).
  exists w'. split; [exact Hs|]. split; [|split].
  - rewrite (size_valid _ _ _ _ _ Hv), length_replicate. do 2 f_equal. lia.
  - eapply capacity_valid. exact Hv.
  - intros i Hi. rewrite <- (Z2Nat.id i) by lia.
    eapply subscript_ok; [exact Hv|]. apply lookup_replicate_2. lia.
Qed.

(** X4. The initializer-list constructor holds the given values in order,
    and its capacity is exactly [max(N, number of values)]. *)
Theorem list_constructor_contents (w : world) (this : nat) (values : list T) :
  0 <= N < uint_modulus -> Z.of_nat (length values) < uint_modulus ->
  oom_after w = None ->
  exists w',
    SmallVector_list this values w = Ok tt w' /\
    size this w' = Ok (Z.of_nat (length values)) w' /\
    capacity this w' = Ok (Z.max N (Z.of_nat (length values))) w' /\
    (forall i x, values !! i = Some x -> subscript this (Z.of_nat i) w' = Ok x w').
Proof.
  intros HN Hlen Hoom.
  destruct (SmallVector_list_ok w this values HN Hlen Hoom) as (w' & p' & Hs & Hv & _).
  exists w'. split; [exact Hs|]. split; [eapply size_valid; exact Hv|].
  split; [eapply capacity_valid; exact Hv|].
  intros i x Hx. eapply subscript_ok; [exact Hv|exact Hx].
Qed.

(** ** [extend], [remove_last], copy assignment *)

(** X5. [a.extend(b)] for two different valid containers whose lengths
    add up to at most 2^31 appends the elements of [b] to [a] in order and
    leaves [b] as it was. *)
Theorem extend_appends_in_order (w : world) (a b : nat) (la lb : list T)
    (ca cb : Z) (pa pb : ptr) :
  valid w a la ca pa -> valid w b lb cb pb -> a <> b -> pa <> pb ->
  oom_after w = None ->
  Z.of_nat (length la) + Z.of_nat (length lb) <= 2 ^ 31 ->
  exists w',
    extend a b w = Ok tt w' /\
    size a w' = Ok (Z.of_nat (length la) + Z.of_nat (length lb)) w' /\
    (forall i x, (la ++ lb) !! i = Some x ->
       subscript a (Z.of_nat i) w' = Ok x w') /\
    size b w' = Ok (Z.of_nat (length lb)) w' /\
    (forall i x, lb !! i = Some x -> subscript b (Z.of_nat i) w' = Ok x w').
Proof.
  intros Hva Hvb Hab Hpp Hoom Hlen.
  destruct (extend_ok w a b la ca pa lb cb pb Hva Hvb Hab Hpp Hoom Hlen)
    as (w' & ca' & pa' & He & Hva' & Hvb' & _).
  exists w'. split; [exact He|]. split; [|split; [|split]].
  - rewrite (size_valid _ _ _ _ _ Hva'), length_app. do 2 f_equal. lia.
  - intros i x Hx. eapply subscript_ok; [exact Hva'|exact Hx].
  - eapply size_valid. exact Hvb'.
  - intros i x Hx. eapply subscript_ok; [exact Hvb'|exact Hx].
Qed.

(** X6. [remove_last] undoes [append] on a valid container of fewer than
    2^31 elements: after [append(x); remove_last()], for either overload of
    [append] and [x] an object outside the container, the container has its
    former length and elements (its capacity may have grown); on an empty
    container [remove_last] stops at the assertion. *)
Theorem remove_last_undoes_append (w : world) (o : nat) (l : list T) (cap : Z)
    (p : ptr) (c : append_call) (x : T) :
  valid w o l cap p -> oom_after w = None ->
  Z.of_nat (length l) < 2 ^ 31 ->
  bound_outside w o p (call_ref c) x ->
  (exists w',
     (run_append o c ;;; remove_last o) w = Ok tt w' /\
     size o w' = Ok (Z.of_nat (length l)) w' /\
     (forall i y, l !! i = Some y -> subscript o (Z.of_nat i) w' = Ok y w') /\
     capacity_kept w w' o) /\
  (l = [] -> remove_last o w = AssertFailed).
Proof.
  intros Hv Hoom Hlen Hb. split.
  - destruct (append_with_ok (call_kind c) w o l cap p x Hv Hoom ltac:(lia))
      as (w1 & Ha & Hv1 & _).
    rewrite <- (run_append_ok w o l cap p c x Hv Hoom ltac:(lia) Hb) in Ha.
    destruct (remove_last_ok w1 o l x _ _ Hv1) as (w' & Hr & Hv' & _).
    exists w'. split; [|split; [|split]].
    + rewrite (bind_Ok _ _ _ _ _ Ha). exact Hr.
    + eapply size_valid. exact Hv'.
    + intros i y Hy. eapply subscript_ok; [exact Hv'|exact Hy].
    + pose proof (valid_N _ _ _ _ _ Hv).
      eapply valid_capacity_kept; [exact Hv|exact Hv'|].
      apply capacity_after_append_ge. lia.
  - intros ->. eapply remove_last_empty. exact Hv.
Qed.

(** X7. Copy assignment [a = b] between two different containers gives
    [a] the length and the elements of [b], whatever [a] held, and leaves
    [b] as it was. *)
Theorem copy_assignment_copies (w : world) (a b : nat) (la lb : list T)
    (ca cb : Z) (pa pb : ptr) :
  valid w a la ca pa -> valid w b lb cb pb -> a <> b -> pa <> pb ->
  oom_after w = None ->
  exists w',
    assign_copy a b w = Ok tt w' /\
    size a w' = Ok (Z.of_nat (length lb)) w' /\
    (forall i x, lb !! i = Some x -> subscript a (Z.of_nat i) w' = Ok x w') /\
    size b w' = Ok (Z.of_nat (length lb)) w' /\
    (forall i x, lb !! i = Some x -> subscript b (Z.of_nat i) w' = Ok x w').
Proof.
  intros Hva Hvb Hab Hpp Hoom.
  destruct (assign_copy_ok w a b la ca pa lb cb pb Hva Hvb Hab Hpp Hoom)
    as (w' & p' & Ha & Hva' & Hvb' & _).
  exists w'. split; [exact Ha|]. split; [eapply size_valid; exact Hva'|].
  split; [intros i x Hx; eapply subscript_ok; [exact Hva'|exact Hx]|].
  split; [eapply size_valid; exact Hvb'|].
  intros i x Hx. eapply subscript_ok; [exact Hvb'|exact Hx].
Qed.

(** ** [fill] and the independence of copies *)

Lemma frame_compose w1 w2 w3 o p :
  frame w1 w2 o p -> frame w2 w3 o p -> frame w1 w3 o p.
Proof.
  intros [Hf1 Hs1] [Hf2 Hs2]. split.
  - intros o' Ho'. rewrite Hf2, Hf1 by exact Ho'. reflexivity.
  - intros q bq Hq Hqo Hsq. apply Hs2; auto.
Qed.

Lemma fill_loop_events o cap p v k : forall j w l,
  valid w o l cap p -> (j + k <= length l)%nat ->
  exists w',
    for_upto (Z.of_nat j) k
      (fun i => q <- begin_ o ;; assign_at CopyAssign q i v) w = Ok tt w' /\
    valid w' o (take j l ++ replicate k v ++ drop (j + k) l) cap p /\
    log w' = log w ++ replicate k CopyAssign /\
    frame w w' o p.
Proof.
  induction k as [|k IH]; intros j w l Hv Hjk; simpl.
  - exists w. rewrite Nat.add_0_r, take_drop, app_nil_r.
    split; [reflexivity|]. split; [exact Hv|]. split; [reflexivity|apply frame_refl].
  - destruct (lookup_lt_is_Some_2 l j ltac:(lia)) as [y Hy].
    destruct (valid_assign w o l cap p CopyAssign j y v Hv Hy)
      as (w1 & Ha & Hv1 & _ & Hlog1 & Hfr1).
    rewrite (bind_Ok _ _ _ _ _ Ha).
    replace (Z.of_nat j + 1) with (Z.of_nat (S j)) by lia.
    destruct (IH (S j) w1 _ Hv1) as (w' & Hr & Hv' & Hlog' & Hfr').
    { rewrite length_insert. lia. }
    exists w'. split; [exact Hr|]. split; [|split].
    + replace (take (S j) (<[j := v]> l)) with (take j l ++ [v]) in Hv'.
      * rewrite drop_insert_lt in Hv' by lia.
        rewrite <- app_assoc in Hv'. simpl in Hv'.
        replace (j + S k)%nat with (S j + k)%nat by lia. exact Hv'.
      * rewrite (take_S_r (<[j := v]> l) j v).
        -- rewrite take_insert_ge by lia. reflexivity.
        -- apply list_lookup_insert_eq. lia.
    + rewrite Hlog', Hlog1, <- app_assoc. reflexivity.
    + eapply frame_compose; eassumption.
Qed.

Lemma fill_events w o l cap p v :
  valid w o l cap p ->
  exists w',
    fill o v w = Ok tt w' /\
    valid w' o (replicate (length l) v) cap p /\
    log w' = log w ++ replicate (length l) CopyAssign /\
    frame w w' o p.
Proof.
  intros Hv. pose proof Hv as (Hf & _). unfold fill.
  rewrite (bind_Ok _ _ _ _ _ (size_ok _ _ _ _ _ Hf)). rewrite Nat2Z.id.
  destruct (fill_loop_events o cap p v (length l) 0%nat w l Hv ltac:(lia))
    as (w' & Hr & Hv' & Hlog & Hfr).
  exists w'. split; [exact Hr|]. split; [|split; [exact Hlog|exact Hfr]].
  simpl in Hv'. rewrite drop_all, app_nil_r in Hv'. exact Hv'.
Qed.

(** X8. [fill(value)] makes every element equal to [value] and changes
    neither the length nor the capacity; it does so by one copy assignment
    per element, constructing and destructing nothing. *)
Theorem fill_overwrites_all (w : world) (o : nat) (l : list T) (cap : Z)
    (p : ptr) (value : T) :
  valid w o l cap p ->
  exists w',
    fill o value w = Ok tt w' /\
    size o w' = Ok (Z.of_nat (length l)) w' /\
    capacity o w' = Ok cap w' /\
    (forall i, 0 <= i < Z.of_nat (length l) -> subscript o i w' = Ok value w') /\
    log w' = log w ++ replicate (length l) CopyAssign.
Proof.
  intros Hv. destruct (fill_events w o l cap p value Hv) as (w' & Hr & Hv' & Hlog & _).
  exists w'. split; [exact Hr|]. split; [|split; [|split; [|exact Hlog]]].
  - rewrite (size_valid _ _ _ _ _ Hv'), length_replicate. reflexivity.
  - eapply capacity_valid. exact Hv'.
  - intros i Hi. rewrite <- (Z2Nat.id i) by lia.
    eapply subscript_ok; [exact Hv'|]. apply lookup_replicate_2. lia.
Qed.

(** X9. A copy is independent of its source: the copy constructor gives
    [b] the elements and the capacity of [a], and overwriting every element
    of [b] with [fill] afterwards leaves the elements of [a] as they were. *)
Theorem copy_is_independent (w : world) (a b : nat) (l : list T) (cap : Z)
    (p : ptr) (value : T) :
  valid w a l cap p -> b <> a -> oom_after w = None ->
  exists w1 w2,
    SmallVector_copy b a w = Ok tt w1 /\
    size b w1 = Ok (Z.of_nat (length l)) w1 /\
    capacity b w1 = Ok cap w1 /\
    (forall i x, l !! i = Some x -> subscript b (Z.of_nat i) w1 = Ok x w1) /\
    fill b value w1 = Ok tt w2 /\
    (forall i x, l !! i = Some x ->
       subscript b (Z.of_nat i) w2 = Ok value w2 /\
       subscript a (Z.of_nat i) w2 = Ok x w2).
Proof.
  intros Hv Hne Hoom.
  destruct (SmallVector_copy_ok w b a l cap p Hv Hne Hoom)
    as (w1 & Hc & Hvb & Hva & _).
  destruct (fill_events w1 b l cap _ value Hvb) as (w2 & Hf & Hvb2 & _ & Hfr).
  assert (Hva2 : valid w2 a l cap p).
  { destruct Hv as (_ & (buf & Hst & _) & _ & Hmode & _).
    eapply valid_frame; [exact Hfr|congruence| | |exact Hva];
      unfold copy_target;
      destruct Hmode as [[-> _]|[[blk ->] _]]; try congruence.
    intros [= Heq]. rewrite Heq, fresh_block_unused in Hst. discriminate. }
  exists w1, w2. split; [exact Hc|]. split; [eapply size_valid; exact Hvb|].
  split; [eapply capacity_valid; exact Hvb|].
  split; [intros i x Hx; eapply subscript_ok; [exact Hvb|exact Hx]|].
  split; [exact Hf|]. intros i x Hx. split.
  - eapply subscript_ok; [exact Hvb2|]. apply lookup_replicate_2.
    eapply lookup_lt_Some. exact Hx.
  - eapply subscript_ok; [exact Hva2|exact Hx].
Qed.

(** ** Searching and comparing *)

(** The conversion of a [uint] to [int]. *)
Definition to_int (z : Z) : Z := if z <? 2 ^ 31 then z else z - uint_modulus.

Section Comparison.

(** [operator==] and [operator!=] of the element type. *)
Variable T_eq : T -> T -> bool.
Variable T_ne : T -> T -> bool.

(** The loop of [index], from position [i] with [n] positions to go; the
    [return i] inside the loop converts the [uint] counter to [int]. *)
Fixpoint index_from (this : nat) (value : T) (i : Z) (n : nat) : M Z :=
  match n with
  | O => ret (-1)
  | S n' =>
      p <- begin_ this ;;
      x <- read_value p i ;;
      if T_eq x value then ret (to_int i)
      else index_from this value (i + 1) n'
  end.

Definition index (this : nat) (value : T) : M Z :=
  n <- size this ;;
  index_from this value 0 (Z.to_nat n).

(** The loop of [all_equal]; [a[i]] passes the [uint] counter to
    [operator[](const int)]. *)
Fixpoint all_equal_from (a b : nat) (i : Z) (n : nat) : M bool :=
  match n with
  | O => ret true
  | S n' =>
      x <- subscript a (to_int i) ;;
      y <- subscript b (to_int i) ;;
      if T_ne x y then ret false
      else all_equal_from a b (i + 1) n'
  end.

Definition all_equal (a b : nat) : M bool :=
  na <- size a ;;
  nb <- size b ;;
  if negb (na =? nb) then ret false
  else
    n <- size a ;;
    all_equal_from a b 0 (Z.to_nat n).

Lemma index_from_found w o l cap p value x : forall d j n i,
  valid w o l cap p -> (j + d = i)%nat -> (i < j + n)%nat ->
  l !! i = Some x -> T_eq x value = true ->
  (forall j' y, (j <= j' < i)%nat -> l !! j' = Some y -> T_eq y value = false) ->
  index_from o value (Z.of_nat j) n w = Ok (to_int (Z.of_nat i)) w.
Proof.
  induction d as [|d IH]; intros j n i Hv Hjd Hin Hx Heq Hbefore;
    (destruct n as [|n]; [lia|]); simpl; pose proof Hv as (Hf & _);
    rewrite (bind_Ok _ _ _ _ _ (begin_ok _ _ _ _ _ Hf)).
  - replace j with i by lia.
    rewrite (bind_Ok _ _ _ _ _ (valid_read _ _ _ _ _ _ _ Hv Hx)).
    rewrite Heq. reflexivity.
  - destruct (lookup_lt_is_Some_2 l j) as [y Hy].
    { apply lookup_lt_Some in Hx. lia. }
    rewrite (bind_Ok _ _ _ _ _ (valid_read _ _ _ _ _ _ _ Hv Hy)).
    rewrite (Hbefore j y ltac:(lia) Hy).
    replace (Z.of_nat j + 1) with (Z.of_nat (S j)) by lia.
    apply (IH (S j) n i); try assumption; try lia.
    intros j' y' Hj'. apply Hbefore. lia.
Qed.

Lemma index_from_absent w o l cap p value : forall n j,
  valid w o l cap p -> (j + n <= length l)%nat ->
  (forall y, y ∈ l -> T_eq y value = false) ->
  index_from o value (Z.of_nat j) n w = Ok (-1) w.
Proof.
  induction n as [|n IH]; intros j Hv Hjn Hnone; simpl; [reflexivity|].
  pose proof Hv as (Hf & _).
  rewrite (bind_Ok _ _ _ _ _ (begin_ok _ _ _ _ _ Hf)).
  destruct (lookup_lt_is_Some_2 l j ltac:(lia)) as [y Hy].
  rewrite (bind_Ok _ _ _ _ _ (valid_read _ _ _ _ _ _ _ Hv Hy)).
  rewrite (Hnone y) by (eapply list_elem_of_lookup_2; exact Hy).
  replace (Z.of_nat j + 1) with (Z.of_nat (S j)) by lia.
  apply IH; [exact Hv|lia|exact Hnone].
Qed.

(** X10. [index(value)] on a valid container returns the position of the
    first element that [operator==] finds equal to [value] (as an [int]:
    the position itself when it is below 2^31), and -1 when no element is
    equal; the store is left as it is. *)
Theorem index_finds_first (w : world) (o : nat) (l : list T) (cap : Z)
    (p : ptr) (value : T) :
  valid w o l cap p ->
  (forall i x, l !! i = Some x -> T_eq x value = true ->
     (forall j y, (j < i)%nat -> l !! j = Some y -> T_eq y value = false) ->
     index o value w = Ok (to_int (Z.of_nat i)) w /\
     (Z.of_nat i < 2 ^ 31 -> to_int (Z.of_nat i) = Z.of_nat i)) /\
  ((forall y, y ∈ l -> T_eq y value = false) -> index o value w = Ok (-1) w).
Proof.
  intros Hv. pose proof Hv as (Hf & _). split.
  - intros i x Hx Heq Hbefore. split.
    + unfold index. rewrite (bind_Ok _ _ _ _ _ (size_ok _ _ _ _ _ Hf)).
      rewrite Nat2Z.id.
      apply (index_from_found w o l cap p value x i 0%nat (length l) i);
        try assumption; try lia.
      * apply lookup_lt_Some in Hx. lia.
      * intros j' y Hj'. apply Hbefore. lia.
    + intros Hsmall. unfold to_int.
      destruct (Z.ltb_spec (Z.of_nat i) (2 ^ 31)); [reflexivity|lia].
  - intros Hnone. unfold index.
    rewrite (bind_Ok _ _ _ _ _ (size_ok _ _ _ _ _ Hf)). rewrite Nat2Z.id.
    apply (index_from_absent w o l cap p value (length l) 0%nat);
      [exact Hv|lia|exact Hnone].
Qed.

Lemma all_equal_from_ok w a b la lb ca cb pa pb :
  (forall x y, T_ne x y = false <-> x = y) ->
  valid w a la ca pa -> valid w b lb cb pb ->
  length la = length lb -> Z.of_nat (length la) <= 2 ^ 31 ->
  forall n j, (j + n = length la)%nat ->
  exists r, all_equal_from a b (Z.of_nat j) n w = Ok r w /\
            (r = true <-> drop j la = drop j lb).
Proof.
  intros Hne Hva Hvb Hsame Hlen.
  induction n as [|n IH]; intros j Hjn; simpl.
  - exists true. split; [reflexivity|].
    rewrite !drop_ge by lia. split; reflexivity.
  - destruct (lookup_lt_is_Some_2 la j ltac:(lia)) as [x Hx].
    destruct (lookup_lt_is_Some_2 lb j ltac:(lia)) as [y Hy].
    assert (Hj : to_int (Z.of_nat j) = Z.of_nat j).
    { unfold to_int. destruct (Z.ltb_spec (Z.of_nat j) (2 ^ 31)); [reflexivity|lia]. }
    rewrite Hj.
    rewrite (bind_Ok _ _ _ _ _ (subscript_ok _ _ _ _ _ _ _ Hva Hx)).
    rewrite (bind_Ok _ _ _ _ _ (subscript_ok _ _ _ _ _ _ _ Hvb Hy)).
    rewrite (drop_S la x j Hx), (drop_S lb y j Hy).
    destruct (T_ne x y) eqn:Hxy.
    + exists false. split; [reflexivity|]. split; [discriminate|].
      intros [= Heq _]. apply Hne in Heq. congruence.
    + apply Hne in Hxy. subst y.
      replace (Z.of_nat j + 1) with (Z.of_nat (S j)) by lia.
      destruct (IH (S j) ltac:(lia)) as (r & Hr & Hiff).
      exists r. split; [exact Hr|]. rewrite Hiff. split; [congruence|].
      intros [= Heq]. exact Heq.
Qed.

(** X11. [all_equal(a, b)] on two valid containers (which may be the same
    object) of at most 2^31 elements, for an [operator!=] that is false
    exactly on equal elements: the result is true exactly when the two
    element sequences are equal, and the store is left as it is. *)
Theorem all_equal_decides_equality (w : world) (a b : nat) (la lb : list T)
    (ca cb : Z) (pa pb : ptr) :
  (forall x y, T_ne x y = false <-> x = y) ->
  valid w a la ca pa -> valid w b lb cb pb ->
  Z.of_nat (length la) <= 2 ^ 31 ->
  exists r, all_equal a b w = Ok r w /\ (r = true <-> la = lb).
Proof.
  intros Hne Hva Hvb Hlen. unfold all_equal.
  rewrite (bind_Ok _ _ _ _ _ (size_valid _ _ _ _ _ Hva)).
  rewrite (bind_Ok _ _ _ _ _ (size_valid _ _ _ _ _ Hvb)).
  destruct (Z.eqb_spec (Z.of_nat (length la)) (Z.of_nat (length lb))) as [Hsame|Hdiff];
    simpl.
  - rewrite (bind_Ok _ _ _ _ _ (size_valid _ _ _ _ _ Hva)). rewrite Nat2Z.id.
    destruct (all_equal_from_ok w a b la lb ca cb pa pb Hne Hva Hvb ltac:(lia) Hlen
                (length la) 0%nat ltac:(lia)) as (r & Hr & Hiff).
    exists r. split; [exact Hr|]. rewrite !drop_0 in Hiff. exact Hiff.
  - exists false. split; [reflexivity|]. split; [discriminate|].
    intros ->. congruence.
Qed.

End Comparison.

(** ** Accounting of constructions and allocations *)

Definition is_malloc (e : event) : bool :=
  match e with Malloc _ _ => true | _ => false end.
Definition is_free (e : event) : bool :=
  match e with Free _ => true | _ => false end.

Definition heap_mode (p : ptr) : nat :=
  match p with Heap _ => 1 | _ => 0 end.

(** The events [es] construct [k] elements more than they destruct, and
    allocate as many blocks more than they release as the storage mode
    changes from [p] to [p']. *)
Definition accounts (es : list event) (k : nat) (p p' : ptr) : Prop :=
  count is_construct es = (count is_destruct es + k)%nat /\
  (count is_malloc es + heap_mode p = count is_free es + heap_mode p')%nat.

Lemma count_app f (es1 es2 : list event) :
  count f (es1 ++ es2) = (count f es1 + count f es2)%nat.
Proof. unfold count. rewrite List.filter_app, length_app. reflexivity. Qed.

Lemma count_replicate f n (e : event) :
  count f (replicate n e) = if f e then n else 0%nat.
Proof.
  unfold count. induction n as [|n IH]; simpl.
  - destruct (f e); reflexivity.
  - destruct (f e) eqn:He; simpl; rewrite IH; reflexivity.
Qed.

Lemma accounts_nil p : accounts [] 0 p p.
Proof. split; reflexivity. Qed.

Lemma accounts_app es1 es2 k1 k2 p p1 p2 :
  accounts es1 k1 p p1 -> accounts es2 k2 p1 p2 ->
  accounts (es1 ++ es2) (k1 + k2) p p2.
Proof. unfold accounts. rewrite !count_app. lia. Qed.

(** The events of one growth from storage [p] holding [n] elements. *)
Definition growth_events (b : nat) (m : Z) (n : nat) (p : ptr) : list event :=
  [Malloc b m] ++ replicate n MoveConstruct ++ replicate n Destruct
  ++ match p with Heap b0 => [Free b0] | _ => [] end.

Lemma accounts_growth b m n p p' :
  p <> Null -> heap_mode p' = 1%nat ->
  accounts (growth_events b m n p) 0 p p'.
Proof.
  intros Hp Hp'. unfold accounts, growth_events.
  rewrite !count_app, !count_replicate. rewrite Hp'.
  destruct p; try congruence; unfold count; simpl; lia.
Qed.

Lemma ensure_space_for_one_events w o l cap p :
  valid w o l cap p -> oom_after w = None ->
  Z.of_nat (length l) < 2 ^ 31 \/ Z.of_nat (length l) < cap ->
  exists w',
    ensure_space_for_one o w = Ok tt w' /\
    log w' = log w ++
      if cap <=? Z.of_nat (length l)
      then growth_events (fresh (dom (heap w))) (Z.max (cap * 2) 1) (length l) p
      else [].
Proof.
  intros Hv Hoom Hl.
  pose proof (valid_N _ _ _ _ _ Hv) as HN.
  pose proof (valid_length _ _ _ _ _ Hv) as Hlen.
  pose proof Hv as (Hf & _).
  unfold ensure_space_for_one.
  rewrite (bind_Ok _ _ _ _ _ (size_ok _ _ _ _ _ Hf)).
  rewrite (bind_Ok _ _ _ _ _ (capacity_ok _ _ _ _ _ Hf)).
  destruct (Z.leb_spec cap (Z.of_nat (length l))) as [Hfull|Hroom].
  - rewrite to_uint_small by (rewrite uint_modulus_eq; lia).
    destruct (grow_ok w o l cap p (Z.max (cap * 2) 1) Hv) as (w' & Hg & _ & _ & Hlog & _).
    { rewrite uint_modulus_eq. lia. }
    { exact Hoom. }
    exists w'. split; [exact Hg|exact Hlog].
  - exists w. rewrite app_nil_r. split; reflexivity.
Qed.

Lemma append_with_events kind w o l cap p x :
  valid w o l cap p -> oom_after w = None ->
  Z.of_nat (length l) < 2 ^ 31 \/ Z.of_nat (length l) < cap ->
  exists w',
    append_with kind o x w = Ok tt w' /\
    log w' = log w ++
      (if cap <=? Z.of_nat (length l)
       then growth_events (fresh (dom (heap w))) (Z.max (cap * 2) 1) (length l) p
       else [])
      ++ [kind].
Proof.
  intros Hv Hoom Hl.
  destruct (ensure_space_for_one_ok w o l cap p Hv Hoom Hl)
    as (w1 & He & Hv1 & Hroom & _).
  destruct (ensure_space_for_one_events w o l cap p Hv Hoom Hl) as (w1' & He' & Hlog1).
  rewrite He in He'. injection He' as <-.
  destruct Hv1 as (Hf1 & (buf & Hst1 & Hh1) & _).
  pose proof (holds_length _ _ _ Hh1) as Hbl.
  unfold append_with.
  rewrite (bind_Ok _ _ _ _ _ He).
  rewrite (bind_Ok _ _ _ _ _ (begin_ok _ _ _ _ _ Hf1)).
  rewrite (bind_Ok _ _ _ _ _ (size_ok _ _ _ _ _ Hf1)).
  erewrite bind_Ok; [|eapply construct_at_ok; [exact Hst1|lia|lia]].
  erewrite bind_Ok;
    [|eapply size_ok; rewrite fields_upd_log, fields_upd_storage; exact Hf1].
  erewrite set_m_size_ok
    by (rewrite fields_upd_log, fields_upd_storage; exact Hf1).
  eexists. split; [reflexivity|].
  rewrite log_upd_fields, log_upd_log, log_upd_storage, Hlog1, <- app_assoc.
  reflexivity.
Qed.

Lemma for_each_append_accounts xs : forall w o l cap p,
  valid w o l cap p -> oom_after w = None ->
  Z.of_nat (length l) + Z.of_nat (length xs) <= 2 ^ 31 ->
  exists w' es cap' p',
    for_each xs (fun value => append o (Temp value)) w = Ok tt w' /\
    valid w' o (l ++ xs) cap' p' /\ oom_after w' = None /\
    log w' = log w ++ es /\ accounts es (length xs) p p'.
Proof.
  induction xs as [|x xs IH]; intros w o l cap p Hv Hoom Hlen; simpl.
  - exists w, [], cap, p. rewrite !app_nil_r.
    split; [reflexivity|]. split; [exact Hv|]. split; [exact Hoom|].
    split; [reflexivity|apply accounts_nil].
  - simpl in Hlen.
    destruct (append_with_ok CopyConstruct w o l cap p x Hv Hoom ltac:(lia))
      as (w1 & Ha & Hv1 & Hoom1 & _).
    destruct (append_with_events CopyConstruct w o l cap p x Hv Hoom ltac:(lia))
      as (w1' & Ha' & Hlog1).
    rewrite Ha in Ha'. injection Ha' as <-.
    rewrite append_unfold, (bind_Ok _ _ _ _ _ Ha).
    destruct (IH _ _ _ _ _ Hv1 Hoom1) as (w' & es & cap' & p' & Hr & Hv' & Hoom' & Hlog' & Hacc).
    { rewrite length_app. simpl. lia. }
    eexists w', _, cap', p'. split; [exact Hr|]. split.
    { rewrite <- app_assoc in Hv'. exact Hv'. }
    split; [exact Hoom'|]. split.
    { rewrite Hlog', Hlog1, <- !app_assoc. reflexivity. }
    change (S (length xs)) with (1 + length xs)%nat.
    rewrite app_assoc. revert Hacc.
    assert (Hp : p <> Null).
    { destruct Hv as (_ & _ & _ & Hmode & _).
      destruct Hmode as [[-> _]|[[b ->] _]]; congruence. }
    destruct (cap <=? Z.of_nat (length l)); intros Hacc.
    + apply (accounts_app _ es 1 (length xs) p (Heap (fresh (dom (heap w)))) p');
        [|exact Hacc].
      apply (accounts_app _ [CopyConstruct] 0 1 p (Heap (fresh (dom (heap w)))) _).
      * apply accounts_growth; [exact Hp|reflexivity].
      * split; unfold count; simpl; lia.
    + apply (accounts_app _ es 1 (length xs) p p p'); [|exact Hacc].
      split; unfold count; simpl; lia.
Qed.

Lemma SmallVector_destroy_frame w o l cap p :
  valid w o l cap p ->
  exists w',
    SmallVector_destroy o w = Ok tt w' /\
    objs w' !! o = None /\
    (forall o', o' <> o -> objs w' !! o' = None -> objs w !! o' = None) /\
    (forall o', o' <> o -> fields w' o' = fields w o') /\
    log w' = log w ++ replicate (length l) Destruct
                   ++ match p with Heap b => [Free b] | _ => [] end.
Proof.
  intros Hv.
  destruct (destruct_elements_and_free_memory_ok w o l cap p Hv)
    as (w1 & Ht & _ & _ & Hlog & Hfr).
  destruct Hv as (Hf & _ & _ & Hmode & _).
  unfold SmallVector_destroy.
  rewrite (bind_Ok _ _ _ _ _ (begin_ok _ _ _ _ _ Hf)).
  rewrite bool_decide_eq_false_2
    by (destruct Hmode as [[-> _]|[[b ->] _]]; congruence).
  rewrite (bind_Ok _ _ _ _ _ Ht).
  eexists. split; [reflexivity|]. simpl.
  split; [apply lookup_delete_eq|]. split; [|split; [|exact Hlog]].
  - intros o' Ho' Hnone. rewrite lookup_delete_ne in Hnone by congruence.
    destruct Hfr as [Hff _]. specialize (Hff o' Ho'). unfold fields in Hff.
    rewrite Hnone in Hff. destruct (objs w !! o'); [discriminate|reflexivity].
  - intros o' Ho'. destruct Hfr as [Hff _]. rewrite <- (Hff o' Ho').
    unfold fields. simpl. rewrite lookup_delete_ne by congruence. reflexivity.
Qed.

(** X12. Over the life of one container that is never moved from
    (default construction, any sequence of at most 2^31 calls of
    [append(const T &)] on objects that lie outside all element storage,
    with the relocations they trigger, destruction), every element
    construction is matched by exactly one destruction and every allocated
    block is released exactly once. *)
Theorem lifetime_without_moves_balances (w : world) (this : nat) (xs : list T) :
  0 <= N < uint_modulus -> oom_after w = None ->
  Z.of_nat (length xs) <= 2 ^ 31 ->
  exists w' es,
    (SmallVector_default this ;;;
     for_each xs (fun value => append this (Temp value)) ;;;
     SmallVector_destroy this) w = Ok tt w' /\
    log w' = log w ++ es /\
    count is_construct es = count is_destruct es /\
    count is_malloc es = count is_free es /\
    objs w' !! this = None.
Proof.
  intros HN Hoom Hlen.
  destruct (SmallVector_default_ok w this HN) as (w0 & Hd & Hv0 & Hoom0 & Hlog0 & _).
  destruct (for_each_append_accounts xs w0 this [] N (Inline this) Hv0)
    as (w1 & es & cap' & p' & Hr & Hv1 & _ & Hlog1 & Hc & Hm).
  { rewrite Hoom0. exact Hoom. }
  { simpl. lia. }
  destruct (SmallVector_destroy_frame w1 this _ _ _ Hv1)
    as (w' & Hx & Hgone & _ & _ & Hlog').
  exists w', (es ++ replicate (length ([] ++ xs)) Destruct
                 ++ match p' with Heap b => [Free b] | _ => [] end).
  split; [|split; [|split; [|split]]].
  - rewrite (bind_Ok _ _ _ _ _ Hd), (bind_Ok _ _ _ _ _ Hr). exact Hx.
  - rewrite Hlog', Hlog1, Hlog0, <- !app_assoc. reflexivity.
  - rewrite !count_app, !count_replicate. simpl in *.
    destruct p'; unfold count in *; simpl in *; lia.
  - rewrite !count_app, !count_replicate. simpl in *.
    destruct p'; unfold count in *; simpl in *; lia.
  - exact Hgone.
Qed.

(** X13. Moving a heap-mode container and then destroying both objects
    destructs every element exactly once and releases the block exactly
    once: the target's destructor does it, the source's does nothing. *)
Theorem heap_move_lifetime (w : world) (a b : nat) (l : list T) (cap : Z)
    (blk : nat) :
  valid w a l cap (Heap blk) -> a <> b ->
  exists w',
    (SmallVector_move b a ;;; SmallVector_destroy b ;;; SmallVector_destroy a) w
      = Ok tt w' /\
    log w' = log w ++ replicate (length l) Destruct ++ [Free blk] /\
    objs w' !! a = None /\ objs w' !! b = None.
Proof.
  intros Hv Hab. pose proof (valid_N _ _ _ _ _ Hv) as HN.
  destruct (new_object_ok w b ltac:(lia)) as (w0 & Hn & _ & Hsh & _ & Hlog0 & _ & Hfr).
  assert (Hv0 : valid w0 a l cap (Heap blk)).
  { eapply valid_frame; [exact Hfr|exact Hab|congruence|congruence|exact Hv]. }
  destruct (steal_from_other_valid w0 b a l cap (Heap blk) Hsh Hv0 ltac:(congruence))
    as (w1 & Hs & Hvb & Hfa & Hlog1 & _).
  destruct (SmallVector_destroy_frame w1 b l cap (Heap blk) Hvb)
    as (w2 & Hdb & Hgone & _ & Hfields & Hlog2).
  assert (Hfa2 : fields w2 a = Some (Null, Z.of_nat (length l), cap)).
  { rewrite Hfields by exact Hab. exact Hfa. }
  eexists. split; [|split; [|split]].
  - assert (Hmove : SmallVector_move b a w = Ok tt w1).
    { unfold SmallVector_move. rewrite (bind_Ok _ _ _ _ _ Hn). exact Hs. }
    rewrite (bind_Ok _ _ _ _ _ Hmove), (bind_Ok _ _ _ _ _ Hdb).
    eapply SmallVector_destroy_moved_from. exact Hfa2.
  - simpl. rewrite Hlog2, Hlog1, Hlog0, app_nil_r. reflexivity.
  - simpl. apply lookup_delete_eq.
  - simpl. rewrite lookup_delete_ne by exact Hab. exact Hgone.
Qed.

(** ** Hazards *)

(** X14. After a move the source still reports its old length, so
    [empty()] is false for a source that had elements and [operator[]]
    accepts every old position, and then reads through the null
    [m_elements]. *)
Theorem moved_from_read_faults (w : world) (a b : nat) (l : list T) (cap : Z)
    (p : ptr) :
  valid w a l cap p -> a <> b ->
  exists w',
    SmallVector_move b a w = Ok tt w' /\
    empty a w' = Ok (Z.of_nat (length l) =? 0) w' /\
    (forall i, 0 <= i < Z.of_nat (length l) -> subscript a i w' = Fault).
Proof.
  intros Hv Hab. pose proof (valid_N _ _ _ _ _ Hv) as HN.
  pose proof (valid_length _ _ _ _ _ Hv) as Hlen.
  assert (Hcap : cap < uint_modulus) by (destruct Hv as (_ & _ & _ & _ & H); exact H).
  destruct (new_object_ok w b ltac:(lia)) as (w0 & Hn & _ & Hsh & _ & _ & _ & Hfr).
  assert (Hv0 : valid w0 a l cap p).
  { destruct Hv as (Hf & Hst & Hown & Hmode & Hc).
    eapply valid_frame; [exact Hfr|exact Hab| | |repeat split; eassumption];
      destruct Hmode as [[-> _]|[[blk ->] _]]; congruence. }
  destruct (steal_from_other_valid w0 b a l cap p Hsh Hv0 ltac:(congruence))
    as (w' & Hs & _ & Hfa & _).
  exists w'. split; [|split].
  - unfold SmallVector_move. rewrite (bind_Ok _ _ _ _ _ Hn). exact Hs.
  - eapply empty_ok. exact Hfa.
  - intros i Hi. unfold subscript.
    rewrite (bind_Ok _ _ _ _ _ (is_index_in_range_ok _ _ _ _ _ _ Hfa)).
    rewrite to_uint_small by lia.
    destruct (Z.leb_spec 0 i) as [_|]; [|lia].
    destruct (Z.ltb_spec i (Z.of_nat (length l))) as [_|]; [|lia].
    simpl. rewrite (bind_Ok _ _ _ tt w' eq_refl).
    rewrite (bind_Ok _ _ _ _ _ (begin_ok _ _ _ _ _ Hfa)).
    unfold read_value. rewrite (bind_Fault _ _ _ (load_null w' i)). reflexivity.
Qed.

(** Reading through a reference gives a value and leaves the store as it
    is, or is an invalid access. *)
Lemma deref_cases r w : (exists v, deref r w = Ok v w) \/ deref r w = Fault.
Proof.
  destruct r as [v|q i]; simpl; [left; eexists; reflexivity|].
  unfold read_value, load, bind, ret.
  destruct (i <? 0); [auto|].
  destruct q as [|o|b]; [auto| |].
  - destruct (objs w !! o) as [v|]; [|auto].
    destruct (m_small_buffer v !! Z.to_nat i) as [s|]; [|auto].
    destruct (bytes s); eauto.
  - destruct (heap w !! b) as [buf|]; [|auto].
    destruct (buf !! Z.to_nat i) as [s|]; [|auto].
    destruct (bytes s); eauto.
Qed.

(** On a full container of capacity 2^31 or more the product
    [m_capacity * 2] wraps to at most the capacity, and [grow] returns at
    once. *)
Lemma ensure_space_for_one_wraps w o l cap p :
  valid w o l cap p -> Z.of_nat (length l) = cap -> 2 ^ 31 <= cap ->
  ensure_space_for_one o w = Ok tt w.
Proof.
  intros (Hf & _ & _ & _ & Hcap) Hfull Hbig.
  rewrite uint_modulus_eq in Hcap.
  unfold ensure_space_for_one.
  rewrite (bind_Ok _ _ _ _ _ (size_ok _ _ _ _ _ Hf)).
  rewrite (bind_Ok _ _ _ _ _ (capacity_ok _ _ _ _ _ Hf)).
  destruct (Z.leb_spec cap (Z.of_nat (length l))) as [_|]; [|lia].
  eapply grow_noop; [exact Hf|].
  unfold to_uint. rewrite uint_modulus_eq.
  rewrite <- (Z.mod_unique (cap * 2) 4294967296 1 (cap * 2 - 4294967296)) by lia.
  lia.
Qed.

(** The element is then constructed at [end()], which is past the storage. *)
Lemma run_append_past_end w o l cap p c :
  valid w o l cap p -> Z.of_nat (length l) = cap -> 2 ^ 31 <= cap ->
  run_append o c w = Fault.
Proof.
  intros Hv Hfull Hbig.
  pose proof (ensure_space_for_one_wraps w o l cap p Hv Hfull Hbig) as He.
  destruct (deref_cases (call_ref c) w) as [[v Hx]|Hx];
    [|exact (run_append_dangling o c w w He Hx)].
  rewrite (run_append_deref o c v w w He Hx).
  destruct Hv as (Hf & (buf & Hst & Hh) & _).
  pose proof (holds_length _ _ _ Hh) as Hbl.
  unfold append_with.
  rewrite (bind_Ok _ _ _ _ _ He).
  rewrite (bind_Ok _ _ _ _ _ (begin_ok _ _ _ _ _ Hf)).
  rewrite (bind_Ok _ _ _ _ _ (size_ok _ _ _ _ _ Hf)).
  assert (Hload : load p (Z.of_nat (length l)) w = Fault).
  { eapply load_out_of_range; [exact Hst|]. lia. }
  unfold construct_at, store.
  rewrite (bind_Fault _ _ _ (bind_Fault _ _ _ (bind_Fault _ _ _ Hload))).
  reflexivity.
Qed.

(** X15. The doubling in [ensure_space_for_one] is computed on [uint]: on
    a full container whose capacity is 2^31 or more, [m_capacity * 2] wraps
    to a value below the capacity, [grow] returns without growing, and
    [append], whatever its argument, constructs the new element one
    position past the end of the storage. *)
Theorem append_beyond_uint_doubling (w : world) (o : nat) (l : list T) (cap : Z)
    (p : ptr) (value : ref) :
  valid w o l cap p -> Z.of_nat (length l) = cap -> 2 ^ 31 <= cap ->
  ensure_space_for_one o w = Ok tt w /\ append o value w = Fault.
Proof.
  intros Hv Hfull Hbig. split.
  - eapply ensure_space_for_one_wraps; [exact Hv|exact Hfull|exact Hbig].
  - exact (run_append_past_end w o l cap p (ByCopy value) Hv Hfull Hbig).
Qed.

(** ** Beyond 2^31 elements *)





(** ** How operations relate *)

(** X16. On a non-empty valid container, [remove_and_reorder] at the last
    position is [remove_last]: the two calls end in the same store. *)
Theorem remove_and_reorder_last_is_remove_last (w : world) (o : nat)
    (l : list T) (cap : Z) (p : ptr) :
  valid w o l cap p -> l <> [] ->
  remove_and_reorder o (Z.of_nat (length l) - 1) w = remove_last o w /\
  exists w', remove_last o w = Ok tt w'.
Proof.
  intros Hv Hl.
  destruct l as [|z l0 _] using rev_ind; [congruence|].
  pose proof (valid_length _ _ _ _ _ Hv) as Hlen.
  pose proof Hv as (Hf & _ & _ & _ & Hcap).
  destruct (remove_last_ok w o l0 z cap p Hv) as (w' & Hr & _).
  split; [|exists w'; exact Hr].
  rewrite length_app in Hlen, Hf |- *. simpl in Hlen, Hf |- *.
  rewrite remove_and_reorder_unfold, remove_last_unfold.
  rewrite (bind_Ok _ _ _ _ _ (is_index_in_range_ok _ _ _ _ _ _ Hf)).
  rewrite (bind_Ok _ _ _ _ _ (empty_ok _ _ _ _ _ Hf)).
  destruct (Z.leb_spec 0 (Z.of_nat (length l0 + 1) - 1)) as [_|]; [|lia].
  destruct (Z.ltb_spec (Z.of_nat (length l0 + 1) - 1) (Z.of_nat (length l0 + 1)))
    as [_|]; [|lia].
  destruct (Z.eqb_spec (Z.of_nat (length l0 + 1)) 0) as [|_]; [lia|].
  simpl. rewrite !(bind_Ok _ _ _ tt w eq_refl).
  rewrite (bind_Ok _ _ _ _ _ (size_ok _ _ _ _ _ Hf)).
  rewrite to_uint_small by lia.
  rewrite Z.ltb_irrefl. rewrite (bind_Ok _ _ _ tt w eq_refl). reflexivity.
Qed.

(** X17. Assignment between two different valid containers first
    destructs every element the target held, exactly once, and releases the
    target's heap block if it had one; copy assignment then allocates a
    block only for a heap-mode source and copy-constructs each element of
    the source, move assignment then move-constructs each element of an
    inline source and nothing for a heap-mode source. *)
Theorem assignment_tears_down_target (w : world) (a b : nat) (la lb : list T)
    (ca cb : Z) (pa pb : ptr) :
  valid w a la ca pa -> valid w b lb cb pb -> a <> b -> pa <> pb ->
  oom_after w = None ->
  (exists w' blk,
     assign_copy a b w = Ok tt w' /\
     log w' = log w ++ replicate (length la) Destruct
                    ++ match pa with Heap b0 => [Free b0] | _ => [] end
                    ++ match pb with Heap _ => [Malloc blk cb] | _ => [] end
                    ++ replicate (length lb) CopyConstruct) /\
  (exists w',
     assign_move a b w = Ok tt w' /\
     log w' = log w ++ replicate (length la) Destruct
                    ++ match pa with Heap b0 => [Free b0] | _ => [] end
                    ++ match pb with
                       | Heap _ => []
                       | _ => replicate (length lb) MoveConstruct
                       end).
Proof.
  intros Hva Hvb Hab Hpp Hoom.
  destruct (destruct_elements_and_free_memory_ok w a la ca pa Hva)
    as (w1 & Ht & (_ & Hsh & _) & Hoom1 & Hlog1 & Hfr).
  assert (Hv1 : valid w1 b lb cb pb).
  { eapply valid_frame; [exact Hfr|congruence|congruence| |exact Hvb].
    destruct Hva as (_ & _ & _ & Hmode & _).
    destruct Hmode as [[-> _]|[[blk ->] _]]; congruence. }
  split.
  - destruct (copy_from_other_ok w1 a b lb cb pb Hsh Hv1 Hab)
      as (w' & Hc & _ & _ & Hlog & _).
    { rewrite Hoom1. exact Hoom. }
    exists w', (fresh (dom (heap w1))). split.
    + unfold assign_copy. rewrite bool_decide_eq_false_2 by exact Hab.
      rewrite (bind_Ok _ _ _ _ _ Ht). exact Hc.
    + rewrite Hlog, Hlog1. unfold copy_events. rewrite <- !app_assoc. reflexivity.
  - destruct (steal_from_other_valid w1 a b lb cb pb Hsh Hv1 Hab)
      as (w' & Hs & _ & _ & Hlog & _).
    exists w'. split.
    + unfold assign_move. rewrite (bind_Ok _ _ _ _ _ Ht). exact Hs.
    + rewrite Hlog, Hlog1. rewrite <- !app_assoc. reflexivity.
Qed.

Lemma grow_releases_old_block w o l cap b0 minc :
  valid w o l cap (Heap b0) -> cap < minc < uint_modulus -> oom_after w = None ->
  forall w', grow o minc w = Ok tt w' -> storage w' (Heap b0) = None.
Proof.
  intros Hv Hc Hoom w' Hgrow.
  pose proof (valid_length _ _ _ _ _ Hv) as Hlen.
  destruct Hv as (Hf & (buf & Hst & Hh) & _ & _ & _).
  set (b := fresh (dom (heap w))).
  assert (Hb : storage w (Heap b) = None) by apply fresh_block_unused.
  assert (Hpb : Heap b0 <> Heap b) by congruence.
  revert Hgrow. unfold grow.
  rewrite (bind_Ok _ _ _ _ _ (capacity_ok _ _ _ _ _ Hf)).
  destruct (Z.leb_spec minc cap) as [|_]; [lia|].
  rewrite (bind_Ok _ _ _ _ _ (set_m_capacity_ok _ _ _ _ _ minc Hf)).
  set (W1 := upd_fields o (Heap b0) (Z.of_nat (length l)) minc w).
  assert (Hf1 : fields W1 o = Some (Heap b0, Z.of_nat (length l), minc))
    by (eapply fields_upd_fields_eq; eauto).
  rewrite (bind_Ok _ _ _ _ _ (capacity_ok _ _ _ _ _ Hf1)).
  rewrite (bind_Ok _ _ _ _ _ (malloc_ok W1 minc Hoom)).
  change (heap W1) with (heap w). fold b.
  set (blank := replicate (Z.to_nat minc) raw).
  set (W2 := upd_log [Malloc b minc] (upd_storage (Heap b) blank W1)).
  assert (Hf2 : fields W2 o = Some (Heap b0, Z.of_nat (length l), minc)).
  { unfold W2. rewrite fields_upd_log, fields_upd_storage. exact Hf1. }
  assert (Hst2 : storage W2 (Heap b0) = Some buf).
  { unfold W2, W1. rewrite storage_upd_log, storage_upd_storage_ne by congruence.
    rewrite storage_upd_fields. exact Hst. }
  assert (Hnew2 : storage W2 (Heap b) = Some blank).
  { unfold W2. rewrite storage_upd_log. simpl. apply lookup_insert_eq. }
  rewrite (bind_Ok _ _ _ _ _ (begin_ok _ _ _ _ _ Hf2)).
  rewrite (bind_Ok _ _ _ _ _ (size_ok _ _ _ _ _ Hf2)).
  erewrite bind_Ok;
    [|eapply (uninitialized_copy_ok MoveConstruct (Heap b0) (Heap b) W2 buf blank l);
      [exact Hst2|exact Hnew2|congruence|intros; eapply holds_lookup; eauto|]].
  2:{ unfold blank. rewrite length_replicate. lia. }
  set (W3 := rewritten MoveConstruct (Heap b) (live <$> l) blank W2 (length l)).
  assert (Hf3 : fields W3 o = Some (Heap b0, Z.of_nat (length l), minc)).
  { unfold W3. rewrite fields_rewritten. exact Hf2. }
  assert (Hst3 : storage W3 (Heap b0) = Some buf).
  { unfold W3. rewrite storage_rewritten_ne by congruence. exact Hst2. }
  rewrite (bind_Ok _ _ _ _ _
    (destruct_elements_but_keep_memory_ok _ _ _ _ _ _ Hf3 Hst3 (holds_size _ _ _ Hh))).
  set (W4 := rewritten Destruct (Heap b0) (kill <$> buf) buf W3 (length l)).
  assert (Hf4 : fields W4 o = Some (Heap b0, Z.of_nat (length l), minc)).
  { unfold W4. rewrite fields_rewritten. exact Hf3. }
  rewrite (bind_Ok _ _ _ _ _ (is_small_ok _ _ _ _ _ Hf4)).
  rewrite bool_decide_eq_false_2 by congruence.
  assert (Hfree : (q <- begin_ o ;; free q) W4
                  = Ok tt (upd_log [Free b0] (del_block b0 W4))).
  { rewrite (bind_Ok _ _ _ _ _ (begin_ok _ _ _ _ _ Hf4)).
    eapply free_ok. unfold W4. eapply storage_rewritten_eq. exact Hst3. }
  rewrite (bind_Ok _ _ _ _ _ Hfree).
  erewrite set_m_elements_ok by exact Hf4.
  intros [= <-]. rewrite storage_upd_fields, storage_upd_log.
  apply storage_del_block_eq.
Qed.

Lemma ensure_space_releases_old_block w o l cap b0 :
  valid w o l cap (Heap b0) -> oom_after w = None ->
  Z.of_nat (length l) = cap -> cap < 2 ^ 31 ->
  exists w1, ensure_space_for_one o w = Ok tt w1 /\ storage w1 (Heap b0) = None.
Proof.
  intros Hv Hoom Hfull Hcap.
  pose proof (valid_N _ _ _ _ _ Hv) as HN.
  pose proof Hv as (Hf & _).
  destruct (ensure_space_for_one_ok w o l cap (Heap b0) Hv Hoom ltac:(lia))
    as (w1 & He & _).
  exists w1. split; [exact He|].
  eapply (grow_releases_old_block w o l cap b0 (Z.max (cap * 2) 1) Hv);
    [rewrite uint_modulus_eq; lia|exact Hoom|].
  revert He. unfold ensure_space_for_one.
  rewrite (bind_Ok _ _ _ _ _ (size_ok _ _ _ _ _ Hf)).
  rewrite (bind_Ok _ _ _ _ _ (capacity_ok _ _ _ _ _ Hf)).
  destruct (Z.leb_spec cap (Z.of_nat (length l))) as [_|]; [|lia].
  rewrite to_uint_small by (rewrite uint_modulus_eq; lia). auto.
Qed.

Lemma deref_released w b i : storage w (Heap b) = None -> deref (Elem (Heap b) i) w = Fault.
Proof.
  simpl. intros Hgone. unfold read_value, load, bind.
  destruct (i <? 0); [reflexivity|]. rewrite Hgone. reflexivity.
Qed.

(** [append] on a full heap-mode container, with an element of that
    container as its argument: the block is released before the argument is
    read. *)
Lemma run_append_own_element_released w o l cap b0 c i :
  valid w o l cap (Heap b0) -> oom_after w = None ->
  Z.of_nat (length l) = cap -> cap < 2 ^ 31 ->
  call_ref c = Elem (Heap b0) i ->
  run_append o c w = Fault.
Proof.
  intros Hv Hoom Hfull Hcap Hc.
  destruct (ensure_space_releases_old_block w o l cap b0 Hv Hoom Hfull Hcap)
    as (w1 & He & Hgone).
  eapply run_append_dangling; [exact He|].
  rewrite Hc. apply deref_released. exact Hgone.
Qed.

(** [append] with room to spare, with an element of the container as its
    argument: nothing is relocated and the element is read where it is. *)
Lemma run_append_own_element_room w o l cap p c j x :
  valid w o l cap p -> oom_after w = None ->
  Z.of_nat (length l) < cap ->
  call_ref c = Elem p (Z.of_nat j) -> l !! j = Some x ->
  run_append o c w = append_with (call_kind c) o x w.
Proof.
  intros Hv Hoom Hroom Hc Hx.
  destruct (ensure_space_for_one_ok w o l cap p Hv Hoom ltac:(lia))
    as (w1 & He & _ & _ & _ & Hsame & _).
  rewrite (Hsame Hroom) in He.
  eapply run_append_deref; [exact He|].
  rewrite Hc. exact (valid_read w o l cap p j x Hv Hx).
Qed.

Lemma self_extend_loop a b0 l cap k : forall j w,
  valid w a (l ++ take j l) cap (Heap b0) -> oom_after w = None ->
  (j + k = length l)%nat ->
  cap < 2 * Z.of_nat (length l) -> cap < 2 ^ 31 ->
  for_upto (Z.of_nat j) k (fun i => append a (Elem (Heap b0) i)) w = Fault.
Proof.
  induction k as [|k IH]; intros j w Hv Hoom Hjk Hlt Hcap.
  - pose proof (valid_length _ _ _ _ _ Hv) as Hlen.
    rewrite length_app, length_take in Hlen. lia.
  - pose proof (valid_length _ _ _ _ _ Hv) as Hlen.
    assert (Hla : length (l ++ take j l) = (length l + j)%nat).
    { rewrite length_app, length_take. lia. }
    simpl.
    destruct (Z.eq_dec (Z.of_nat (length (l ++ take j l))) cap) as [Hfull|Hroom].
    + apply bind_Fault.
      exact (run_append_own_element_released w a _ cap b0
               (ByCopy (Elem (Heap b0) (Z.of_nat j))) (Z.of_nat j)
               Hv Hoom Hfull Hcap eq_refl).
    + destruct (lookup_lt_is_Some_2 l j ltac:(lia)) as [x Hx].
      assert (Hx' : (l ++ take j l) !! j = Some x).
      { rewrite lookup_app_l by lia. exact Hx. }
      destruct (append_with_ok CopyConstruct w a _ cap (Heap b0) x Hv Hoom
                  ltac:(lia)) as (w1 & Ha & Hv1 & Hoom1 & _).
      pose proof (run_append_own_element_room w a _ cap (Heap b0)
                    (ByCopy (Elem (Heap b0) (Z.of_nat j))) j x
                    Hv Hoom ltac:(lia) eq_refl Hx') as Hrun.
      simpl in Hrun. rewrite Ha in Hrun. rewrite (bind_Ok _ _ _ _ _ Hrun).
      rewrite capacity_after_append_room in Hv1 by lia.
      destruct (Z.leb_spec cap (Z.of_nat (length (l ++ take j l)))) as [|_]; [lia|].
      rewrite <- app_assoc, <- (take_S_r l j x Hx) in Hv1.
      replace (Z.of_nat j + 1) with (Z.of_nat (S j)) by lia.
      apply (IH (S j) w1 Hv1 Hoom1); [lia|exact Hlt|exact Hcap].
Qed.

(** X18. [a.extend(a)] on a heap-mode container with fewer free slots than
    elements (capacity below twice the length, and below 2^31) is a use
    after free: the range of the loop is taken once, before the first
    [append]; the [append] that finds the container full relocates the
    elements and releases the block, and then reads its argument, a
    reference to an element in the released block. *)
Theorem self_extend_reads_released_block (w : world) (a : nat) (l : list T)
    (cap : Z) (b0 : nat) :
  valid w a l cap (Heap b0) -> oom_after w = None ->
  cap < 2 * Z.of_nat (length l) -> cap < 2 ^ 31 ->
  extend a a w = Fault.
Proof.
  intros Hv Hoom Hlt Hcap. pose proof Hv as (Hf & _).
  unfold extend.
  rewrite (bind_Ok _ _ _ _ _ (begin_ok _ _ _ _ _ Hf)).
  rewrite (bind_Ok _ _ _ _ _ (size_ok _ _ _ _ _ Hf)).
  rewrite Nat2Z.id.
  apply (self_extend_loop a b0 l cap (length l) 0%nat w);
    [|exact Hoom|lia|exact Hlt|exact Hcap].
  simpl. rewrite take_0, app_nil_r. exact Hv.
Qed.

(** X19. [append] on a full container (capacity below 2^31) with an
    element of that container as its argument, [a.append(a[i])]: by the time
    the argument is read, [ensure_space_for_one] has relocated the elements,
    and the referenced element has been destructed (a container in its
    embedded buffer) or lies in a block that has been released (a container
    in heap mode, where the call is then an invalid access). *)
Theorem append_of_own_element_dangles (w : world) (o : nat) (l : list T)
    (cap : Z) (p : ptr) (c : append_call) (i : Z) :
  valid w o l cap p -> oom_after w = None ->
  Z.of_nat (length l) = cap -> cap < 2 ^ 31 ->
  call_ref c = Elem p i -> 0 <= i < Z.of_nat (length l) ->
  exists w1,
    ensure_space_for_one o w = Ok tt w1 /\
    match p with
    | Heap _ => storage w1 p = None /\ run_append o c w = Fault
    | _ => exists buf s, storage w1 p = Some buf /\
                         buf !! Z.to_nat i = Some s /\ alive s = false
    end.
Proof.
  intros Hv Hoom Hfull Hcap Hc Hi.
  pose proof (valid_N _ _ _ _ _ Hv) as HN.
  pose proof Hv as (_ & _ & _ & Hmode & _).
  destruct Hmode as [[-> HcN]|[[b0 ->] _]].
  - destruct (ensure_space_for_one_ok w o l cap (Inline o) Hv Hoom ltac:(lia))
      as (w1 & He & Hv1 & _).
    exists w1. split; [exact He|].
    destruct (Z.leb_spec cap (Z.of_nat (length l))) as [_|]; [|lia].
    destruct Hv1 as (_ & _ & (sb & Hsb & Hsbl & Hdead) & _).
    destruct (lookup_lt_is_Some_2 sb (Z.to_nat i) ltac:(lia)) as [s Hs].
    exists sb, s. split; [exact Hsb|]. split; [exact Hs|].
    specialize (Hdead ltac:(congruence)).
    rewrite Forall_forall in Hdead. apply Hdead.
    eapply list_elem_of_lookup_2. exact Hs.
  - destruct (ensure_space_releases_old_block w o l cap b0 Hv Hoom Hfull Hcap)
      as (w1 & He & Hgone).
    exists w1. split; [exact He|]. split; [exact Hgone|].
    exact (run_append_own_element_released w o l cap b0 c i Hv Hoom Hfull Hcap Hc).
Qed.

End SmallVector.

Arguments Ok {T A} a w.
Arguments AssertFailed {T A}.
Arguments Fault {T A}.

Notation "x <- m ;; k" := (bind m (fun x => k))
  (at level 100, m at next level, right associativity).
Notation "m ;;; k" := (bind m (fun _ => k))
  (at level 100, right associativity).

(** * Runs on concrete stores

    Containers of integers with [N = 4], objects at addresses 0, 1, 2. *)

Module Run.

Definition after {A} (m : M (T:=Z) A) (w : world) : world :=
  match m w with
  | Ok _ w' => w'
  | _ => w
  end.

(** [a] at address 0 holds [10, 20, 30] in its embedded buffer. *)
Definition w_inline : world :=
  after (SmallVector_list 4 0 [10; 20; 30]) (empty_world None).

(** [a] at address 0 holds [10, 20, 30, 40] and is full. *)
Definition w_full : world :=
  after (SmallVector_list 4 0 [10; 20; 30; 40]) (empty_world None).

(** [a] at address 0 holds [1 .. 5] in a heap block of capacity 5. *)
Definition w_heap : world :=
  after (SmallVector_list 4 0 [1; 2; 3; 4; 5]) (empty_world None).

(** [a] at address 0 holds [10, 20, 30]; [b] at address 1 holds [7, 8]. *)
Definition w_two : world :=
  after (SmallVector_list 4 1 [7; 8]) w_inline.

(** As [w_heap], with an allocator that has nothing left to give. *)
Definition w_heap_exhausted : world :=
  World (objs w_heap) (heap w_heap) (Some O) (log w_heap).

(** [valid] on an explicit store, by evaluation. *)
Ltac valid_by_evaluation :=
  split; [vm_compute; reflexivity|];
  split; [eexists; split; [vm_compute; reflexivity|];
          eexists; split; [cbv; reflexivity|];
          split; [repeat constructor|reflexivity]|];
  split; [eexists; split; [vm_compute; reflexivity|];
          split; [reflexivity|];
          first [ intros Hne; exfalso; apply Hne; reflexivity
                | intros _; repeat constructor ]|];
  split; [first [ left; split; reflexivity
                | right; split; [eexists; reflexivity|lia] ]|];
  rewrite uint_modulus_eq; lia.

Lemma w_inline_valid : valid 4 w_inline 0 [10; 20; 30] 4 (Inline 0).
Proof. valid_by_evaluation. Qed.

Lemma w_full_valid : valid 4 w_full 0 [10; 20; 30; 40] 4 (Inline 0).
Proof. valid_by_evaluation. Qed.

Lemma w_heap_valid : valid 4 w_heap 0 [1; 2; 3; 4; 5] 5 (Heap 0).
Proof. valid_by_evaluation. Qed.

Lemma w_two_valid :
  valid 4 w_two 0 [10; 20; 30] 4 (Inline 0) /\ valid 4 w_two 1 [7; 8] 4 (Inline 1).
Proof. split; valid_by_evaluation. Qed.

Lemma w_heap_exhausted_valid :
  valid 4 w_heap_exhausted 0 [1; 2; 3; 4; 5] 5 (Heap 0).
Proof. valid_by_evaluation. Qed.

(** *** Instances of the general theorems *)



Lemma growth_policy_witness :
  valid 4 w_full 0 [10; 20; 30; 40] 4 (Inline 0) /\
  oom_after w_full = None /\
  (exists w1, ensure_space_for_one 0 w_full = Ok tt w1 /\
              capacity 0 w1 = Ok 8 w1) /\
  (exists w', append 0 (Temp 50) w_full = Ok tt w' /\ capacity 0 w' = Ok 8 w') /\
  (exists w', append_move 0 (Temp 50) w_full = Ok tt w' /\
              capacity 0 w' = Ok 8 w') /\
  (exists w', reserve 0 6 w_full = Ok tt w' /\ capacity 0 w' = Ok 6 w') /\
  reserve 0 3 w_full = Ok tt w_full.
Proof.
  assert (Hv : valid 4 w_full 0 [10; 20; 30; 40] 4 (Inline 0))
    by valid_by_evaluation.
  assert (Hoom : oom_after w_full = None) by reflexivity.
  split; [exact Hv|]. split; [exact Hoom|].
  destruct (growth_policy 4 w_full 0%nat [10; 20; 30; 40] 4 (Inline 0) Hv Hoom)
    as (Happend & Hreserve & Hnoop & _).
  destruct (Happend eq_refl ltac:(lia)) as (Hgrow & Hcall).
  split; [exact Hgrow|]. split; [|split; [|split]].
  - apply (Hcall (ByCopy (Temp 50)) 50). reflexivity.
  - apply (Hcall (ByMove (Temp 50)) 50). reflexivity.
  - apply (Hreserve 6). rewrite uint_modulus_eq. lia.
  - apply (Hnoop 3). lia.
Defined.

Lemma remove_and_reorder_spec_witness :
  valid 4 w_full 0 [10; 20; 30; 40] 4 (Inline 0) /\
  (0 <= 1 < uint_modulus) /\
  exists w',
    remove_and_reorder 0 1 w_full = Ok tt w' /\
    size 0 w' = Ok 3 w' /\
    valid 4 w' 0 [10; 40; 30] 4 (Inline 0).
Proof.
  assert (Hv : valid 4 w_full 0 [10; 20; 30; 40] 4 (Inline 0))
    by valid_by_evaluation.
  assert (Hi : 0 <= 1 < uint_modulus) by (rewrite uint_modulus_eq; lia).
  split; [exact Hv|]. split; [exact Hi|].
  destruct (remove_and_reorder_spec 4 w_full 0%nat [10; 20; 30; 40] 4 (Inline 0) 1 Hv Hi)
    as (Hin & _).
  destruct (Hin ltac:(simpl; lia)) as (w' & Hr & Hsz & _ & _ & Hex).
  exists w'. split; [exact Hr|]. split; [exact Hsz|].
  exact (proj1 (Hex 10 20 30 40 eq_refl eq_refl)).
Defined.

Lemma move_transfers_storage_witness :
  valid 4 w_heap 0 [1; 2; 3; 4; 5] 5 (Heap 0) /\
  (0 <> 1)%nat /\
  exists w',
    SmallVector_move 4 1 0 w_heap = Ok tt w' /\
    moved 4 w_heap w' 0 1 [1; 2; 3; 4; 5] 5 (Heap 0).
Proof.
  assert (Hv : valid 4 w_heap 0 [1; 2; 3; 4; 5] 5 (Heap 0)) by valid_by_evaluation.
  assert (Hne : (0 <> 1)%nat) by lia.
  split; [exact Hv|]. split; [exact Hne|].
  exact (proj1 (move_transfers_storage 4 w_heap 0%nat 1%nat [1; 2; 3; 4; 5] 5
                  (Heap 0) Hv Hne)).
Defined.

Lemma self_move_assignment_witness :
  valid 4 w_inline 0 [10; 20; 30] 4 (Inline 0) /\
  assign_copy 0 0 w_inline = Ok tt w_inline /\
  exists w',
    assign_move 0 0 w_inline = Ok tt w' /\
    begin_ 0 w' = Ok Null w' /\
    size 0 w' = Ok 3 w' /\
    log w' = log w_inline ++ [Destruct; Destruct; Destruct;
                              MoveConstruct; MoveConstruct; MoveConstruct].
Proof.
  assert (Hv : valid 4 w_inline 0 [10; 20; 30] 4 (Inline 0)) by valid_by_evaluation.
  split; [exact Hv|].
  destruct (self_move_assignment 4 w_inline 0%nat [10; 20; 30] 4 (Inline 0) Hv)
    as (Hcopy & w' & Hm & Hb & Hs & _ & Hlog & _).
  split; [exact Hcopy|]. exists w'. repeat split; assumption.
Defined.

Lemma allocation_failure_unchecked_witness :
  valid 4 w_heap_exhausted 0 [1; 2; 3; 4; 5] 5 (Heap 0) /\
  oom_after w_heap_exhausted = Some O /\
  grow 0 9 w_heap_exhausted = Fault /\
  SmallVector_copy 4 1 0 w_heap_exhausted = Fault.
Proof.
  assert (Hv : valid 4 w_heap_exhausted 0 [1; 2; 3; 4; 5] 5 (Heap 0))
    by valid_by_evaluation.
  assert (Hoom : oom_after w_heap_exhausted = Some O) by reflexivity.
  split; [exact Hv|]. split; [exact Hoom|].
  destruct (allocation_failure_unchecked 4 w_heap_exhausted 0%nat [1; 2; 3; 4; 5] 5
              (Heap 0) Hv Hoom) as (Hgrow & Hcopy).
  split.
  - apply (Hgrow 9); [lia|discriminate].
  - apply (Hcopy 1%nat); [lia|eexists; reflexivity|discriminate].
Defined.

Lemma capacity_never_shrinks_but_by_assignment_witness :
  (0 <= 4 < uint_modulus) /\
  (exists w', SmallVector_sized 4 0 0 6 (empty_world None) = Ok tt w' /\
              capacity_invariant 4 w' 0) /\
  (exists w', SmallVector_copy 4 1 0 w_heap = Ok tt w' /\
              capacity 1 w' = Ok 5 w' /\ capacity_invariant 4 w' 1) /\
  (exists w', SmallVector_move 4 1 0 w_heap = Ok tt w' /\
              capacity 1 w' = Ok 5 w' /\ capacity_invariant 4 w' 1) /\
  (exists w', append 0 (Temp 50) w_full = Ok tt w' /\
              capacity_kept w_full w' 0 /\ capacity_invariant 4 w' 0) /\
  (exists w', assign_copy 0 1 w_two = Ok tt w' /\
              capacity 0 w' = Ok 4 w' /\ capacity_invariant 4 w' 0).
Proof.
  assert (HN : 0 <= 4 < uint_modulus) by (rewrite uint_modulus_eq; lia).
  split; [exact HN|].
  destruct (capacity_never_shrinks_but_by_assignment (T:=Z) 4 0 HN)
    as (_ & Hsized & _ & Hcopy & Hmove & Hops).
  split; [|split; [|split; [|split]]].
  - apply Hsized; [reflexivity|rewrite uint_modulus_eq; lia].
  - apply (Hcopy w_heap 1%nat 0%nat [1; 2; 3; 4; 5] 5 (Heap 0));
      [valid_by_evaluation|lia|reflexivity].
  - apply (Hmove w_heap 1%nat 0%nat [1; 2; 3; 4; 5] 5 (Heap 0));
      [valid_by_evaluation|lia].
  - destruct (Hops w_full 0%nat [10; 20; 30; 40] 4 (Inline 0)) as (_ & Ha & _).
    { valid_by_evaluation. }
    { reflexivity. }
    apply (Ha (ByCopy (Temp 50)) 50); [simpl; lia|reflexivity].
  - destruct (Hops w_two 0%nat [10; 20; 30] 4 (Inline 0)) as (_ & _ & _ & _ & _ & _ & Has).
    { valid_by_evaluation. }
    { reflexivity. }
    apply (Has 1%nat [7; 8] 4 (Inline 1)); [valid_by_evaluation|lia|congruence].
Defined.

Lemma inline_storage_policy_witness :
  (0 <= 4 < uint_modulus) /\
  (exists w', SmallVector_sized 4 0 0 3 (empty_world None) = Ok tt w' /\
              is_small 0 w' = Ok true w' /\ size 0 w' = Ok 3 w' /\
              log w' = [MoveConstruct; MoveConstruct; MoveConstruct]) /\
  is_small 0 w_heap = Ok false w_heap.
Proof.
  assert (HN : 0 <= 4 < uint_modulus) by (rewrite uint_modulus_eq; lia).
  split; [exact HN|].
  destruct (inline_storage_policy (T:=Z) 4 0 HN) as (_ & Hsized & _ & _ & Hbig & _).
  split.
  - apply (Hsized (empty_world None) 0%nat 3); [reflexivity|lia].
  - apply (Hbig w_heap 0%nat [1; 2; 3; 4; 5] 5 (Heap 0)); [valid_by_evaluation|simpl; lia].
Defined.

(** *** Where the code departs from the wording of the specification *)

(** [b] at address 1 is move-constructed from the inline container [a] of
    [w_inline]. *)
Definition w_moved : world := after (SmallVector_move 4 1 0) w_inline.

(** C2, the failing run. After [b(std::move(a))] with [a = [10, 20, 30]],
    [a] is not left empty: [steal_from_other] nulls [a.m_elements] and
    leaves [a.m_size] alone, so [a.size()] is still 3 and [a.empty()] is
    false, while [b] holds the three elements. *)
Theorem moved_from_size_not_zero :
  SmallVector_move 4 1 0 w_inline = Ok tt w_moved /\
  valid 4 w_moved 1 [10; 20; 30] 4 (Inline 1) /\
  begin_ 0 w_moved = Ok Null w_moved /\
  size 0 w_moved = Ok 3 w_moved /\
  size 0 w_moved <> Ok 0 w_moved /\
  empty 0 w_moved = Ok false w_moved.
Proof.
  split; [vm_compute; reflexivity|].
  split; [valid_by_evaluation|].
  split; [vm_compute; reflexivity|].
  split; [vm_compute; reflexivity|].
  split; [vm_compute; discriminate|].
  vm_compute. reflexivity.
Qed.




(** C7, counterexample. [SmallVector<int, 4> v(2147483648); v.append(1);]:
    the container is full at capacity 2^31; [ensure_space_for_one] leaves
    the capacity at 2^31, not at 2^32, and [append] writes past the block. *)
Lemma full_container_does_not_double :
  exists w',
    SmallVector_sized 4 0 0 (2 ^ 31) (empty_world None) = Ok tt w' /\
    size 0 w' = Ok (2 ^ 31) w' /\
    capacity 0 w' = Ok (2 ^ 31) w' /\
    (ensure_space_for_one 0 ;;; capacity 0) w' = Ok (2 ^ 31) w' /\
    append 0 (Temp 1) w' = Fault /\
    append_move 0 (Temp 1) w' = Fault.
Proof.
  destruct (SmallVector_sized_ok 4 0 (empty_world None) 0%nat (2 ^ 31))
    as (w' & p' & Hs & Hv & _).
  { rewrite uint_modulus_eq. lia. }
  { rewrite uint_modulus_eq. lia. }
  { reflexivity. }
  rewrite Z.max_r in Hv by lia.
  assert (Hlen : Z.of_nat (length (replicate (Z.to_nat (2 ^ 31)) 0)) = 2 ^ 31).
  { rewrite length_replicate. apply Z2Nat.id. lia. }
  assert (He : ensure_space_for_one 0 w' = Ok tt w').
  { eapply ensure_space_for_one_wraps; [exact Hv|exact Hlen|lia]. }
  exists w'. split; [exact Hs|]. split; [|split; [|split; [|split]]].
  - rewrite <- Hlen. eapply size_valid. exact Hv.
  - eapply capacity_valid. exact Hv.
  - rewrite (bind_Ok _ _ _ _ _ He). eapply capacity_valid. exact Hv.
  - exact (run_append_past_end 4 w' 0%nat _ _ _ (ByCopy (Temp 1)) Hv Hlen
             ltac:(lia)).
  - exact (run_append_past_end 4 w' 0%nat _ _ _ (ByMove (Temp 1)) Hv Hlen
             ltac:(lia)).
Qed.

(** A third container [c = [9]] at address 2, next to the moved-from [a]. *)
Definition w_third : world := after (SmallVector_list 4 2 [9]) w_moved.

(** C3, the failing run. Destroying the moved-from [a] does nothing, but
    assigning to it does not succeed: [destruct_elements_and_free_memory]
    runs its destructor loop over the three stale positions of a null
    [m_elements]. *)
Theorem moved_from_reassignment_faults :
  (exists w', SmallVector_destroy 0 w_moved = Ok tt w' /\
              log w' = log w_moved /\ heap w' = heap w_moved) /\
  size 0 w_third = Ok 3 w_third /\
  begin_ 0 w_third = Ok Null w_third /\
  assign_copy 0 2 w_third = Fault /\
  assign_move 0 2 w_third = Fault.
Proof.
  split.
  - exists (after (SmallVector_destroy 0) w_moved).
    split; [vm_compute; reflexivity|]. split; vm_compute; reflexivity.
  - repeat (split; [vm_compute; reflexivity|]). vm_compute. reflexivity.
Qed.

(** An empty container at address 0 and an allocator that has nothing to
    give; then the same after [reserve(8)]. *)
Definition w_oom : world := after (SmallVector_default 4 0) (empty_world (Some O)).
Definition w_null : world := after (reserve 0 8) w_oom.

(** C4, counterexample. With [std::malloc] failing, [reserve(8)] on an
    empty container returns normally: no assertion fires, the capacity now
    reads 8 and [m_elements] is null, and the next [append] writes through
    that null pointer. *)
Lemma failed_allocation_is_not_asserted :
  capacity 0 w_oom = Ok 4 w_oom /\
  begin_ 0 w_oom = Ok (Inline 0) w_oom /\
  reserve 0 8 w_oom = Ok tt w_null /\
  reserve 0 8 w_oom <> AssertFailed /\
  capacity 0 w_null = Ok 8 w_null /\
  begin_ 0 w_null = Ok Null w_null /\
  log w_null = [MallocFailed 8] /\
  append 0 (Temp 1) w_null = Fault.
Proof.
  do 3 (split; [vm_compute; reflexivity|]).
  split; [vm_compute; discriminate|].
  repeat (split; [vm_compute; reflexivity|]). vm_compute. reflexivity.
Qed.

(** [a = [10, 20, 30]] with capacity raised to 8, [b = [7, 8]] with
    capacity 4; then the same after [a = b]. *)
Definition w_reserved : world := after (reserve 0 8) w_two.
Definition w_assigned : world := after (assign_copy 0 1) w_reserved.

(** C5, counterexample. Copy assignment lowers the capacity of its target
    from 8 to 4. *)
Lemma assignment_lowers_capacity :
  capacity 0 w_reserved = Ok 8 w_reserved /\
  assign_copy 0 1 w_reserved = Ok tt w_assigned /\
  capacity 0 w_assigned = Ok 4 w_assigned /\
  ~ capacity_kept w_reserved w_assigned 0.
Proof.
  split; [vm_compute; reflexivity|].
  split; [vm_compute; reflexivity|].
  split; [vm_compute; reflexivity|].
  intros (c & c' & Hc & Hc' & Hle).
  vm_compute in Hc, Hc'.
  injection Hc as <-. injection Hc' as <-. lia.
Qed.

(** An empty container at address 0 whose capacity was reserved to 5, so
    that it is in heap mode; then a copy of it at address 1. *)
Definition w_source : world :=
  after (SmallVector_default 4 0 ;;; reserve 0 5) (empty_world None).
Definition w_copy : world := after (SmallVector_copy 4 1 0) w_source.

(** C6, counterexample. A container copy-constructed with length 0 (at
    most [N = 4]) allocates a heap block and is not in inline mode. *)
Lemma short_copy_allocates :
  SmallVector_copy 4 1 0 w_source = Ok tt w_copy /\
  size 1 w_copy = Ok 0 w_copy /\
  is_small 1 w_copy = Ok false w_copy /\
  begin_ 1 w_copy = Ok (Heap 1) w_copy /\
  log w_copy = log w_source ++ [Malloc 1 5].
Proof. repeat (split; [vm_compute; reflexivity|]). vm_compute. reflexivity. Qed.

(** The whole life of two containers: [a = {7}], [b(std::move(a))], then
    both destroyed. *)
Definition lifetime : M (T:=Z) unit :=
  SmallVector_list 4 0 [7] ;;;
  SmallVector_move 4 1 0 ;;;
  SmallVector_destroy 1 ;;;
  SmallVector_destroy 0.

Definition w_end : world := after lifetime (empty_world None).

(** C9, the failing run. Two elements are constructed (one copied into
    [a], one moved into [b]) and only one is destructed: the element left
    behind in [a]'s embedded buffer by the move is never destructed, because
    [a]'s destructor sees a null [m_elements] and skips the loop. *)
Theorem moved_from_element_never_destructed :
  lifetime (empty_world None) = Ok tt w_end /\
  objs w_end = ∅ /\ heap w_end = ∅ /\
  log w_end = [CopyConstruct; MoveConstruct; Destruct] /\
  count is_construct (log w_end) = 2%nat /\
  count is_destruct (log w_end) = 1%nat.
Proof. repeat (split; [vm_compute; reflexivity|]). vm_compute. reflexivity. Qed.

(** *** Instances of the further properties *)

(** [a] at address 0 holds [5, 3, 3, 7]. *)
Definition w_search : world :=
  after (SmallVector_list 4 0 [5; 3; 3; 7]) (empty_world None).

(** [a] at address 0 holds 2^31 elements in a heap block of that
    capacity. *)
Definition huge : nat := Z.to_nat (2 ^ 31).
Definition w_huge : world :=
  World {[0%nat := Vec (replicate 4 raw) (Heap 0) (2 ^ 31) (2 ^ 31)]}
        {[0%nat := live <$> replicate huge 7]} None [].

Lemma subscript_checks_range_witness :
  valid 4 w_inline 0 [10; 20; 30] 4 (Inline 0) /\
  subscript 0 1 w_inline = Ok 20 w_inline /\
  subscript 0 (-1) w_inline = AssertFailed /\
  subscript 0 3 w_inline = AssertFailed.
Proof.
  assert (Hv : valid 4 w_inline 0 [10; 20; 30] 4 (Inline 0)) by valid_by_evaluation.
  split; [exact Hv|].
  assert (Hlen : Z.of_nat (length [10; 20; 30]) <= 2 ^ 31) by (simpl; lia).
  split; [|split].
  - destruct (subscript_checks_range 4 w_inline 0%nat [10; 20; 30] 4 (Inline 0) 1
                Hv Hlen ltac:(lia)) as (Hin & _).
    destruct (Hin ltac:(simpl; lia)) as (x & Hx & Hs).
    injection Hx as <-. exact Hs.
  - apply (subscript_checks_range 4 w_inline 0%nat [10; 20; 30] 4 (Inline 0) (-1)
             Hv Hlen ltac:(lia)). left. lia.
  - apply (subscript_checks_range 4 w_inline 0%nat [10; 20; 30] 4 (Inline 0) 3
             Hv Hlen ltac:(lia)). right. simpl. lia.
Defined.

Lemma reserve_relocates_elements_witness :
  valid 4 w_inline 0 [10; 20; 30] 4 (Inline 0) /\
  exists w',
    reserve 0 8 w_inline = Ok tt w' /\
    size 0 w' = Ok 3 w' /\
    subscript 0 2 w' = Ok 30 w' /\
    is_small 0 w' = Ok false w'.
Proof.
  assert (Hv : valid 4 w_inline 0 [10; 20; 30] 4 (Inline 0)) by valid_by_evaluation.
  split; [exact Hv|].
  destruct (reserve_relocates_elements 4 w_inline 0%nat [10; 20; 30] 4 (Inline 0) 8
              Hv eq_refl ltac:(rewrite uint_modulus_eq; lia))
    as (w' & Hr & Hs & Hread & Hsmall & _).
  exists w'. split; [exact Hr|]. split; [exact Hs|]. split; [|exact Hsmall].
  exact (Hread 2%nat 30 eq_refl).
Defined.

Lemma sized_constructor_contents_witness :
  (0 <= 4 < uint_modulus) /\ (0 <= 6 < uint_modulus) /\
  exists w',
    SmallVector_sized 4 0 0 6 (empty_world None) = Ok tt w' /\
    size 0 w' = Ok 6 w' /\ capacity 0 w' = Ok 6 w' /\
    subscript 0 5 w' = Ok 0 w'.
Proof.
  assert (HN : 0 <= 4 < uint_modulus) by (rewrite uint_modulus_eq; lia).
  assert (Hsz : 0 <= 6 < uint_modulus) by (rewrite uint_modulus_eq; lia).
  split; [exact HN|]. split; [exact Hsz|].
  destruct (sized_constructor_contents 4 0 (empty_world None) 0%nat 6 HN Hsz eq_refl)
    as (w' & Hs & Hsize & Hcap & Hread).
  exists w'. split; [exact Hs|]. split; [exact Hsize|]. split; [exact Hcap|].
  apply Hread. lia.
Defined.

Lemma list_constructor_contents_witness :
  (0 <= 4 < uint_modulus) /\
  exists w',
    SmallVector_list 4 0 [1; 2; 3; 4; 5] (empty_world None) = Ok tt w' /\
    size 0 w' = Ok 5 w' /\ capacity 0 w' = Ok 5 w' /\
    subscript 0 4 w' = Ok 5 w'.
Proof.
  assert (HN : 0 <= 4 < uint_modulus) by (rewrite uint_modulus_eq; lia).
  split; [exact HN|].
  destruct (list_constructor_contents 4 (empty_world None) 0%nat [1; 2; 3; 4; 5] HN
              ltac:(rewrite uint_modulus_eq; simpl; lia) eq_refl)
    as (w' & Hs & Hsize & Hcap & Hread).
  exists w'. split; [exact Hs|]. split; [exact Hsize|]. split; [exact Hcap|].
  exact (Hread 4%nat 5 eq_refl).
Defined.

Lemma extend_appends_in_order_witness :
  valid 4 w_two 0 [10; 20; 30] 4 (Inline 0) /\
  valid 4 w_two 1 [7; 8] 4 (Inline 1) /\
  exists w',
    extend 0 1 w_two = Ok tt w' /\
    size 0 w' = Ok 5 w' /\
    subscript 0 3 w' = Ok 7 w' /\
    size 1 w' = Ok 2 w'.
Proof.
  assert (Hva : valid 4 w_two 0 [10; 20; 30] 4 (Inline 0)) by valid_by_evaluation.
  assert (Hvb : valid 4 w_two 1 [7; 8] 4 (Inline 1)) by valid_by_evaluation.
  split; [exact Hva|]. split; [exact Hvb|].
  destruct (extend_appends_in_order 4 w_two 0%nat 1%nat [10; 20; 30] [7; 8] 4 4
              (Inline 0) (Inline 1) Hva Hvb ltac:(lia) ltac:(congruence) eq_refl
              ltac:(simpl; lia))
    as (w' & He & Hsa & Hra & Hsb & _).
  exists w'. split; [exact He|]. split; [exact Hsa|]. split; [|exact Hsb].
  exact (Hra 3%nat 7 eq_refl).
Defined.

Lemma remove_last_undoes_append_witness :
  valid 4 w_full 0 [10; 20; 30; 40] 4 (Inline 0) /\
  exists w',
    (append 0 (Temp 50) ;;; remove_last 0) w_full = Ok tt w' /\
    size 0 w' = Ok 4 w' /\
    subscript 0 3 w' = Ok 40 w'.
Proof.
  assert (Hv : valid 4 w_full 0 [10; 20; 30; 40] 4 (Inline 0)) by valid_by_evaluation.
  split; [exact Hv|].
  destruct (remove_last_undoes_append 4 w_full 0%nat [10; 20; 30; 40] 4 (Inline 0)
              (ByCopy (Temp 50)) 50 Hv eq_refl ltac:(simpl; lia) eq_refl)
    as ((w' & Hr & Hs & Hread & _) & _).
  exists w'. split; [exact Hr|]. split; [exact Hs|]. exact (Hread 3%nat 40 eq_refl).
Defined.

Lemma copy_assignment_copies_witness :
  valid 4 w_two 0 [10; 20; 30] 4 (Inline 0) /\
  valid 4 w_two 1 [7; 8] 4 (Inline 1) /\
  exists w',
    assign_copy 0 1 w_two = Ok tt w' /\
    size 0 w' = Ok 2 w' /\
    subscript 0 1 w' = Ok 8 w' /\
    subscript 1 1 w' = Ok 8 w'.
Proof.
  assert (Hva : valid 4 w_two 0 [10; 20; 30] 4 (Inline 0)) by valid_by_evaluation.
  assert (Hvb : valid 4 w_two 1 [7; 8] 4 (Inline 1)) by valid_by_evaluation.
  split; [exact Hva|]. split; [exact Hvb|].
  destruct (copy_assignment_copies 4 w_two 0%nat 1%nat [10; 20; 30] [7; 8] 4 4
              (Inline 0) (Inline 1) Hva Hvb ltac:(lia) ltac:(congruence) eq_refl)
    as (w' & Ha & Hsa & Hra & _ & Hrb).
  exists w'. split; [exact Ha|]. split; [exact Hsa|].
  split; [exact (Hra 1%nat 8 eq_refl)|exact (Hrb 1%nat 8 eq_refl)].
Defined.

Lemma fill_overwrites_all_witness :
  valid 4 w_inline 0 [10; 20; 30] 4 (Inline 0) /\
  exists w',
    fill 0 9 w_inline = Ok tt w' /\
    size 0 w' = Ok 3 w' /\
    subscript 0 2 w' = Ok 9 w' /\
    log w' = log w_inline ++ [CopyAssign; CopyAssign; CopyAssign].
Proof.
  assert (Hv : valid 4 w_inline 0 [10; 20; 30] 4 (Inline 0)) by valid_by_evaluation.
  split; [exact Hv|].
  destruct (fill_overwrites_all 4 w_inline 0%nat [10; 20; 30] 4 (Inline 0) 9 Hv)
    as (w' & Hf & Hs & _ & Hread & Hlog).
  exists w'. split; [exact Hf|]. split; [exact Hs|]. split; [|exact Hlog].
  apply Hread. simpl. lia.
Defined.

Lemma copy_is_independent_witness :
  valid 4 w_heap 0 [1; 2; 3; 4; 5] 5 (Heap 0) /\
  exists w1 w2,
    SmallVector_copy 4 1 0 w_heap = Ok tt w1 /\
    capacity 1 w1 = Ok 5 w1 /\
    fill 1 9 w1 = Ok tt w2 /\
    subscript 1 4 w2 = Ok 9 w2 /\
    subscript 0 4 w2 = Ok 5 w2.
Proof.
  assert (Hv : valid 4 w_heap 0 [1; 2; 3; 4; 5] 5 (Heap 0)) by valid_by_evaluation.
  split; [exact Hv|].
  destruct (copy_is_independent 4 w_heap 0%nat 1%nat [1; 2; 3; 4; 5] 5 (Heap 0) 9
              Hv ltac:(lia) eq_refl)
    as (w1 & w2 & Hc & _ & Hcap & _ & Hf & Hread).
  exists w1, w2. split; [exact Hc|]. split; [exact Hcap|]. split; [exact Hf|].
  exact (Hread 4%nat 5 eq_refl).
Defined.

Lemma index_finds_first_witness :
  valid 4 w_search 0 [5; 3; 3; 7] 4 (Inline 0) /\
  index Z.eqb 0 3 w_search = Ok 1 w_search /\
  index Z.eqb 0 9 w_search = Ok (-1) w_search.
Proof.
  assert (Hv : valid 4 w_search 0 [5; 3; 3; 7] 4 (Inline 0)) by valid_by_evaluation.
  split; [exact Hv|].
  destruct (index_finds_first 4 Z.eqb w_search 0%nat [5; 3; 3; 7] 4 (Inline 0) 3 Hv)
    as (Hfound & _).
  destruct (index_finds_first 4 Z.eqb w_search 0%nat [5; 3; 3; 7] 4 (Inline 0) 9 Hv)
    as (_ & Habsent).
  split.
  - apply (Hfound 1%nat 3 eq_refl eq_refl).
    intros j y Hj Hy. destruct j as [|j]; [|lia].
    injection Hy as <-. reflexivity.
  - apply Habsent. intros y Hy.
    repeat (apply elem_of_cons in Hy; destruct Hy as [->|Hy]; [reflexivity|]).
    apply elem_of_nil in Hy. contradiction.
Defined.

Lemma all_equal_decides_equality_witness :
  (forall x y : Z, negb (x =? y) = false <-> x = y) /\
  valid 4 w_two 0 [10; 20; 30] 4 (Inline 0) /\
  valid 4 w_two 1 [7; 8] 4 (Inline 1) /\
  (exists r, all_equal (fun x y => negb (x =? y)) 0 1 w_two = Ok r w_two /\
             (r = true <-> [10; 20; 30] = [7; 8])) /\
  (exists r, all_equal (fun x y => negb (x =? y)) 0 0 w_two = Ok r w_two /\
             (r = true <-> [10; 20; 30] = [10; 20; 30])).
Proof.
  assert (Hdiff : forall x y : Z, negb (x =? y) = false <-> x = y).
  { intros x y. destruct (Z.eqb_spec x y); simpl; split; congruence. }
  assert (Hva : valid 4 w_two 0 [10; 20; 30] 4 (Inline 0)) by valid_by_evaluation.
  assert (Hvb : valid 4 w_two 1 [7; 8] 4 (Inline 1)) by valid_by_evaluation.
  split; [exact Hdiff|]. split; [exact Hva|]. split; [exact Hvb|].
  split.
  - exact (all_equal_decides_equality 4 (fun x y => negb (x =? y)) w_two 0%nat 1%nat
             [10; 20; 30] [7; 8] 4 4 (Inline 0) (Inline 1) Hdiff Hva Hvb
             ltac:(simpl; lia)).
  - exact (all_equal_decides_equality 4 (fun x y => negb (x =? y)) w_two 0%nat 0%nat
             [10; 20; 30] [10; 20; 30] 4 4 (Inline 0) (Inline 0) Hdiff Hva Hva
             ltac:(simpl; lia)).
Defined.

Lemma lifetime_without_moves_balances_witness :
  (0 <= 4 < uint_modulus) /\
  exists w' es,
    (SmallVector_default 4 0 ;;;
     for_each [1; 2; 3; 4; 5; 6; 7; 8; 9] (fun value => append 0 (Temp value)) ;;;
     SmallVector_destroy 0) (empty_world None) = Ok tt w' /\
    log w' = es /\
    count is_construct es = count is_destruct es /\
    count is_malloc es = count is_free es.
Proof.
  assert (HN : 0 <= 4 < uint_modulus) by (rewrite uint_modulus_eq; lia).
  split; [exact HN|].
  destruct (lifetime_without_moves_balances 4 (empty_world None) 0%nat
              [1; 2; 3; 4; 5; 6; 7; 8; 9] HN eq_refl ltac:(simpl; lia))
    as (w' & es & Hr & Hlog & Hc & Hm & _).
  exists w', es. split; [exact Hr|]. split; [exact Hlog|]. split; assumption.
Defined.

Lemma heap_move_lifetime_witness :
  valid 4 w_heap 0 [1; 2; 3; 4; 5] 5 (Heap 0) /\
  exists w',
    (SmallVector_move 4 1 0 ;;; SmallVector_destroy 1 ;;; SmallVector_destroy 0) w_heap
      = Ok tt w' /\
    log w' = log w_heap ++ [Destruct; Destruct; Destruct; Destruct; Destruct; Free 0].
Proof.
  assert (Hv : valid 4 w_heap 0 [1; 2; 3; 4; 5] 5 (Heap 0)) by valid_by_evaluation.
  split; [exact Hv|].
  destruct (heap_move_lifetime 4 w_heap 0%nat 1%nat [1; 2; 3; 4; 5] 5 0%nat Hv
              ltac:(lia)) as (w' & Hr & Hlog & _).
  exists w'. split; [exact Hr|exact Hlog].
Defined.

Lemma moved_from_read_faults_witness :
  valid 4 w_inline 0 [10; 20; 30] 4 (Inline 0) /\
  exists w',
    SmallVector_move 4 1 0 w_inline = Ok tt w' /\
    empty 0 w' = Ok false w' /\
    subscript 0 0 w' = Fault.
Proof.
  assert (Hv : valid 4 w_inline 0 [10; 20; 30] 4 (Inline 0)) by valid_by_evaluation.
  split; [exact Hv|].
  destruct (moved_from_read_faults 4 w_inline 0%nat 1%nat [10; 20; 30] 4 (Inline 0)
              Hv ltac:(lia)) as (w' & Hm & He & Hread).
  exists w'. split; [exact Hm|]. split; [exact He|]. apply Hread. simpl. lia.
Defined.

Lemma w_huge_valid : valid 4 w_huge 0 (replicate huge 7) (2 ^ 31) (Heap 0).
Proof.
  assert (Hlen : Z.of_nat (length (replicate huge 7)) = 2 ^ 31).
  { rewrite length_replicate. unfold huge. rewrite Z2Nat.id; lia. }
  split; [|split; [|split; [|split]]].
  - rewrite Hlen. unfold fields, w_huge. cbn [objs].
    rewrite lookup_singleton_eq. reflexivity.
  - exists (live <$> replicate huge 7). split.
    + unfold storage, w_huge. cbn [heap]. apply lookup_singleton_eq.
    + exists []. split; [rewrite app_nil_r; reflexivity|]. split; [constructor|].
      rewrite length_fmap. exact Hlen.
  - exists (replicate 4 raw). split; [|split].
    + unfold storage, w_huge. cbn [objs]. rewrite lookup_singleton_eq. reflexivity.
    + reflexivity.
    + intros _. apply Forall_replicate. reflexivity.
  - right. split; [eexists; reflexivity|lia].
  - rewrite uint_modulus_eq. lia.
Qed.

Lemma append_beyond_uint_doubling_witness :
  valid 4 w_huge 0 (replicate huge 7) (2 ^ 31) (Heap 0) /\
  Z.of_nat (length (replicate huge 7)) = 2 ^ 31 /\
  ensure_space_for_one 0 w_huge = Ok tt w_huge /\
  append 0 (Temp 1) w_huge = Fault.
Proof.
  assert (Hlen : Z.of_nat (length (replicate huge 7)) = 2 ^ 31).
  { rewrite length_replicate. unfold huge. rewrite Z2Nat.id; lia. }
  split; [exact w_huge_valid|]. split; [exact Hlen|].
  exact (append_beyond_uint_doubling 4 w_huge 0%nat (replicate huge 7) (2 ^ 31)
           (Heap 0) (Temp 1) w_huge_valid Hlen ltac:(lia)).
Defined.

Lemma remove_and_reorder_last_is_remove_last_witness :
  valid 4 w_full 0 [10; 20; 30; 40] 4 (Inline 0) /\
  remove_and_reorder 0 3 w_full = remove_last 0 w_full.
Proof.
  assert (Hv : valid 4 w_full 0 [10; 20; 30; 40] 4 (Inline 0)) by valid_by_evaluation.
  split; [exact Hv|].
  exact (proj1 (remove_and_reorder_last_is_remove_last 4 w_full 0%nat
                  [10; 20; 30; 40] 4 (Inline 0) Hv ltac:(discriminate))).
Defined.

Lemma assignment_tears_down_target_witness :
  valid 4 w_two 0 [10; 20; 30] 4 (Inline 0) /\
  valid 4 w_two 1 [7; 8] 4 (Inline 1) /\
  (exists w',
     assign_copy 0 1 w_two = Ok tt w' /\
     log w' = log w_two ++ [Destruct; Destruct; Destruct; CopyConstruct; CopyConstruct]) /\
  (exists w',
     assign_move 0 1 w_two = Ok tt w' /\
     log w' = log w_two ++ [Destruct; Destruct; Destruct; MoveConstruct; MoveConstruct]).
Proof.
  assert (Hva : valid 4 w_two 0 [10; 20; 30] 4 (Inline 0)) by valid_by_evaluation.
  assert (Hvb : valid 4 w_two 1 [7; 8] 4 (Inline 1)) by valid_by_evaluation.
  split; [exact Hva|]. split; [exact Hvb|].
  destruct (assignment_tears_down_target 4 w_two 0%nat 1%nat [10; 20; 30] [7; 8] 4 4
              (Inline 0) (Inline 1) Hva Hvb ltac:(lia) ltac:(congruence) eq_refl)
    as ((w1 & blk & Hc & Hlogc) & (w2 & Hm & Hlogm)).
  split; [exists w1|exists w2]; split; assumption.
Defined.

(** [a] at address 0 holds [1, 2, 3] in a heap block of capacity 5. *)
Definition w_heap_room : world :=
  after (remove_last 0 ;;; remove_last 0) w_heap.

Lemma self_extend_reads_released_block_witness :
  valid 4 w_heap_room 0 [1; 2; 3] 5 (Heap 0) /\
  extend 0 0 w_heap_room = Fault.
Proof.
  assert (Hv : valid 4 w_heap_room 0 [1; 2; 3] 5 (Heap 0)) by valid_by_evaluation.
  split; [exact Hv|].
  exact (self_extend_reads_released_block 4 w_heap_room 0%nat [1; 2; 3] 5 0%nat
           Hv eq_refl ltac:(simpl; lia) ltac:(lia)).
Defined.

Lemma append_of_own_element_dangles_witness :
  valid 4 w_full 0 [10; 20; 30; 40] 4 (Inline 0) /\
  valid 4 w_heap 0 [1; 2; 3; 4; 5] 5 (Heap 0) /\
  (exists w1 buf s,
     ensure_space_for_one 0 w_full = Ok tt w1 /\
     storage w1 (Inline 0) = Some buf /\ buf !! 0%nat = Some s /\
     alive s = false) /\
  append 0 (Elem (Heap 0) 0) w_heap = Fault.
Proof.
  assert (Hf : valid 4 w_full 0 [10; 20; 30; 40] 4 (Inline 0)) by valid_by_evaluation.
  assert (Hh : valid 4 w_heap 0 [1; 2; 3; 4; 5] 5 (Heap 0)) by valid_by_evaluation.
  split; [exact Hf|]. split; [exact Hh|]. split.
  - destruct (append_of_own_element_dangles 4 w_full 0%nat [10; 20; 30; 40] 4
                (Inline 0) (ByCopy (Elem (Inline 0) 0)) 0 Hf eq_refl eq_refl
                ltac:(lia) eq_refl ltac:(simpl; lia))
      as (w1 & He & buf & s & Hst & Hs & Hdead).
    exists w1, buf, s. repeat split; assumption.
  - destruct (append_of_own_element_dangles 4 w_heap 0%nat [1; 2; 3; 4; 5] 5
                (Heap 0) (ByCopy (Elem (Heap 0) 0)) 0 Hh eq_refl eq_refl
                ltac:(lia) eq_refl ltac:(simpl; lia))
      as (w1 & _ & _ & Hfault).
    exact Hfault.
Defined.

End Run.
